(** * pyrocko.util: time strings and fixed-format unpacking

    A shallow embedding of [str_to_time], [time_to_str] and [unpack_fixed]
    from [src/pyrocko/util.py], together with the Python string primitives
    they are written with.

    Conventions.
    - A Python [str] is a list of characters, a Python [int] is a [Z].
    - A Python [float] is an IEEE 754 double ([pyfloat]): a finite value is
      the rational it stands for, in lowest terms, and every operation rounds
      its exact result to the nearest double ([Float.round_double]); the
      negative zero, the infinities and NaN are values of their own.
    - A raised exception is an [Err] result; the first exception raised ends
      the call.
    - What the code takes from the Python library ([int], [float],
      [time.strptime], [calendar.timegm], [time.gmtime], [time.strftime], the
      [%] operator) is an interface, [PyLib].  General statements hold for every
      implementation of the interface; worked examples are evaluated in the
      instance [CPython], which spells the library out on the fragment the
      examples use. *)

From Stdlib Require Import ZArith QArith Qround Qabs Qpower List Sorted Ascii String Bool Lia Lqa.
Import ListNotations.

Open Scope string_scope.
Open Scope Z_scope.
Open Scope list_scope.

(* ================================================================== *)
(** ** Python strings *)

Definition pystr := list ascii.

Definition lit (s : string) : pystr := list_ascii_of_string s.
Coercion lit : string >-> pystr.

Module Py.

(** [len(s)] *)
Definition len (s : pystr) : Z := Z.of_nat (List.length s).

(** How a slice bound is read on a sequence of length [n]: a negative bound
    counts from the end, and the result is clamped to [0..n]. *)
Definition norm_index (n i : Z) : Z :=
  let j := if i <? 0 then i + n else i in
  Z.max 0 (Z.min n j).

(** [s[a:b]] *)
Definition slice (s : pystr) (a b : Z) : pystr :=
  let a' := norm_index (len s) a in
  let b' := norm_index (len s) b in
  firstn (Z.to_nat (b' - a')) (skipn (Z.to_nat a') s).

(** [s[a:]] *)
Definition slice_from (s : pystr) (a : Z) : pystr :=
  skipn (Z.to_nat (norm_index (len s) a)) s.

(** [s[:b]] *)
Definition slice_to (s : pystr) (b : Z) : pystr :=
  firstn (Z.to_nat (norm_index (len s) b)) s.

Definition str_eqb (a b : pystr) : bool :=
  if list_eq_dec ascii_dec a b then true else false.

(** [s.endswith(suffix)] *)
Definition endswith (s suffix : pystr) : bool :=
  (List.length suffix <=? List.length s)%nat &&
  str_eqb (skipn (List.length s - List.length suffix) s) suffix.

(** [s.rfind(c)] for a one-character [c]: the highest index of [c] in [s],
    or [-1].  [i] is the index of the head of [s], [last] the best index
    seen so far. *)
Fixpoint rfind_from (c : ascii) (s : pystr) (i last : Z) : Z :=
  match s with
  | [] => last
  | x :: r => rfind_from c r (i + 1) (if Ascii.eqb x c then i else last)
  end.

Definition rfind (s : pystr) (c : ascii) : Z := rfind_from c s 0 (-1).

(** [c.isspace()] in the C locale: space, and the controls 9..13. *)
Definition isspace (c : ascii) : bool :=
  let n := N_of_ascii c in
  ((n =? 32) || ((9 <=? n) && (n <=? 13)))%N.

Definition isdigit (c : ascii) : bool :=
  let n := N_of_ascii c in ((48 <=? n) && (n <=? 57))%N.

Definition digit_value (c : ascii) : Z := Z.of_N (N_of_ascii c) - 48.

Fixpoint dropwhile (p : ascii -> bool) (s : pystr) : pystr :=
  match s with
  | [] => []
  | c :: r => if p c then dropwhile p r else s
  end.

(** [s.lstrip()], [s.rstrip()], [s.strip()] *)
Definition lstrip (s : pystr) : pystr := dropwhile isspace s.
Definition rstrip (s : pystr) : pystr := rev (dropwhile isspace (rev s)).
Definition strip (s : pystr) : pystr := rstrip (lstrip s).

(** [s.rstrip(c)] for a one-character [c] *)
Definition rstrip_char (c : ascii) (s : pystr) : pystr :=
  rev (dropwhile (Ascii.eqb c) (rev s)).

(** [s.split(c)] for a one-character [c]; never the empty list. *)
Fixpoint split (c : ascii) (s : pystr) : list pystr :=
  match s with
  | [] => [[]]
  | x :: r =>
      if Ascii.eqb x c then [] :: split c r
      else match split c r with
           | h :: t => (x :: h) :: t
           | [] => [[x]]
           end
  end.

(** [s.lower()] on ASCII letters *)
Definition lower (c : ascii) : ascii :=
  let n := N_of_ascii c in
  if ((65 <=? n) && (n <=? 90))%N then ascii_of_N (n + 32) else c.

End Py.

(* ================================================================== *)
(** ** Exceptions and results *)

(** The arithmetic exceptions, subclasses of [ArithmeticError]. *)
Inductive arith_exn : Type :=
| ZeroDivisionError
| OverflowError.

Inductive exn : Type :=
| FractionalSecondsMissing (s format : pystr)
    (** raised by [str_to_time]; the message shows the string and the format *)
| SeisanResponseFileError (lo hi : Z) (line : pystr)
    (** "Invalid cast at position [lo:hi] of line: ..." *)
| NameError (name : pystr)   (** a global name that is not defined *)
| ValueError
| IndexError
| KeyError
| TypeError
| ArithmeticError (e : arith_exn)
| Unmodelled.                (** library behaviour outside the modelled fragment *)

Inductive result (A : Type) : Type :=
| OK (a : A)
| Err (e : exn).

Arguments OK {A} a.
Arguments Err {A} e.

Definition bind {A B} (m : result A) (k : A -> result B) : result B :=
  match m with
  | OK a => k a
  | Err e => Err e
  end.

Notation "x <- m ;; k" := (bind m (fun x => k))
  (at level 61, m at next level, right associativity).

(* ================================================================== *)
(** ** Python floats *)

(** A Python [float] is an IEEE 754 double.  A finite value is the rational
    number it stands for, kept in lowest terms; the zero with its sign bit
    set, the two infinities and NaN are values of their own. *)
Inductive pyfloat : Type :=
| Fin (q : Q)              (** a finite value; [Fin 0] is [0.0] *)
| NegZero                  (** [-0.0] *)
| Inf (negative : bool)    (** [inf] and [-inf] *)
| NaN.

(** Rounding to the nearest integer, ties to even: how a mantissa is rounded,
    and how a float is rounded to the digits that are printed. *)
Definition round_half_even (q : Q) : Z :=
  let f := Qfloor q in
  match (q - inject_Z f ?= 1 # 2)%Q with
  | Lt => f
  | Gt => f + 1
  | Eq => if Z.even f then f else f + 1
  end.

Module Float.

(** [2^e], for any integer [e]. *)
Definition pow2 (e : Z) : Q := (2 ^ e)%Q.

(** The binary exponent of a [q] that is not zero: [2^e <= |q| < 2^(e+1)]. *)
Definition exponent (q : Q) : Z :=
  let e := Z.log2 (Z.abs (Qnum q)) - Z.log2 (Z.pos (Qden q)) in
  if Qle_bool (pow2 e) (Qabs q) then e else e - 1.

(** The exponent of the unit in the last place of the doubles around [q]:
    a mantissa has 53 bits, and no unit is below [2^-1074]. *)
Definition ulp_exponent (q : Q) : Z := Z.max (exponent q - 52) (-1074).

Definition negative (q : Q) : bool := if Qlt_le_dec q 0 then true else false.

(** The double nearest to [q], ties to the even mantissa.  What rounds to
    [2^1024] or beyond overflows to an infinity, and what rounds to zero
    keeps its sign. *)
Definition round_double (q : Q) : pyfloat :=
  let p := ulp_exponent q in
  let m := round_half_even (Qabs q * pow2 (- p)) in
  if m =? 0 then (if negative q then NegZero else Fin 0)
  else if Qle_bool (pow2 1024) (inject_Z m * pow2 p) then Inf (negative q)
  else Fin (Qred ((if negative q then -1 else 1) * inject_Z m * pow2 p)).

Definition is_zero (x : pyfloat) : bool :=
  match x with
  | Fin q => Qeq_bool q 0
  | NegZero => true
  | _ => false
  end.

Definition signbit (x : pyfloat) : bool :=
  match x with
  | Fin q => negative q
  | NegZero => true
  | Inf s => s
  | NaN => false
  end.

(** The value of a finite float. *)
Definition value (x : pyfloat) : Q :=
  match x with
  | Fin q => q
  | _ => 0
  end.

(** [-x] *)
Definition neg (x : pyfloat) : pyfloat :=
  match x with
  | Fin q => if Qeq_bool q 0 then NegZero else Fin (Qred (- q))
  | NegZero => Fin 0
  | Inf s => Inf (negb s)
  | NaN => NaN
  end.

(** [x + y] *)
Definition add (x y : pyfloat) : pyfloat :=
  match x, y with
  | NaN, _ => NaN
  | _, NaN => NaN
  | Inf s, Inf s' => if Bool.eqb s s' then Inf s else NaN
  | Inf s, _ => Inf s
  | _, Inf s => Inf s
  | NegZero, _ => y
  | _, NegZero => x
  | Fin a, Fin b => if Qeq_bool (a + b) 0 then Fin 0 else round_double (a + b)
  end.

(** [x - y] *)
Definition sub (x y : pyfloat) : pyfloat := add x (neg y).

(** [x * y] *)
Definition mul (x y : pyfloat) : pyfloat :=
  match x, y with
  | NaN, _ => NaN
  | _, NaN => NaN
  | Inf s, _ => if is_zero y then NaN else Inf (xorb s (signbit y))
  | _, Inf s => if is_zero x then NaN else Inf (xorb (signbit x) s)
  | _, _ =>
      if is_zero x || is_zero y
      then (if xorb (signbit x) (signbit y) then NegZero else Fin 0)
      else round_double (value x * value y)
  end.

(** [math.floor(x)], a float: the floor of a double is a double. *)
Definition floor (x : pyfloat) : pyfloat :=
  match x with
  | Fin q => Fin (inject_Z (Qfloor q))
  | _ => x
  end.

(** [float(n)] for an int [n], as the arithmetic operators convert an int
    operand; [None] when [n] is too large for a float, which is an
    [OverflowError]. *)
Definition of_int (n : Z) : option pyfloat :=
  match round_double (inject_Z n) with
  | Inf _ => None
  | x => Some x
  end.

(** [b > x] for an int [b] and a float [x]: the comparison is exact. *)
Definition lt_int (x : pyfloat) (b : Z) : bool :=
  match x with
  | Fin q => if Qlt_le_dec q (inject_Z b) then true else false
  | NegZero => 0 <? b
  | Inf s => s
  | NaN => false
  end.

End Float.

(* ================================================================== *)
(** ** The Python library, as an interface *)

Record struct_time : Type := mk_time {
  tm_year : Z; tm_mon : Z; tm_mday : Z;
  tm_hour : Z; tm_min : Z; tm_sec : Z
}.

Class PyLib : Type := {
  py_int : pystr -> result Z;                       (** [int(s)] *)
  py_float : pystr -> result pyfloat;               (** [float(s)] *)
  strptime : pystr -> pystr -> result struct_time;  (** [time.strptime(s, format)] *)
  timegm : struct_time -> Z;                        (** [calendar.timegm(tm)] *)
  gmtime : pyfloat -> result struct_time;           (** [time.gmtime(secs)] *)
  strftime : pystr -> struct_time -> result pystr;  (** [time.strftime(format, tm)] *)
  format_other : pystr -> pyfloat -> result pystr
    (** [spec % x] for a conversion other than [%.Nf] and [%%], and [%.Nf]
        for an [x] of [1e50] or more in size *)
}.

(** [n + x] for an int [n] and a float [x]: the int is converted, which
    raises [OverflowError] when it is too large, and the floats are added. *)
Definition add_int_float (n : Z) (x : pyfloat) : result pyfloat :=
  match Float.of_int n with
  | Some f => OK (Float.add f x)
  | None => Err (ArithmeticError OverflowError)
  end.

(* ================================================================== *)
(** ** str_to_time *)

Section TimeCodec.

Context {L : PyLib}.

Definition FRAC : pystr := ".FRAC".
Definition OPTFRAC : pystr := ".OPTFRAC".
Definition DOT : ascii := "."%char.

(** [[
def str_to_time(s, format='%Y-%m-%d %H:%M:%S.OPTFRAC'):
    fracsec = 0.
    if format.endswith('.FRAC'):
        dotpos = s.rfind('.')
        if dotpos == -1:
            raise FractionalSecondsMissing('string=%s, format=%s' % (s,format))
        format = format[:-5]
        fracsec = float(s[dotpos:])
        s = s[:dotpos]
    elif format.endswith('.OPTFRAC'):
        dotpos = s.rfind('.')
        format = format[:-8]
        if dotpos != -1 and len(s[dotpos:]) > 1:
            fracsec = float(s[dotpos:])
        s = s[:dotpos]
    return calendar.timegm(time.strptime(s, format)) + fracsec
]] *)
Definition str_to_time (s format : pystr) : result pyfloat :=
  st <-
    (if Py.endswith format FRAC then
       let dotpos := Py.rfind s DOT in
       if dotpos =? -1 then Err (FractionalSecondsMissing s format)
       else
         let format' := Py.slice_to format (-5) in
         fracsec <- py_float (Py.slice_from s dotpos) ;;
         OK (fracsec, Py.slice_to s dotpos, format')
     else if Py.endswith format OPTFRAC then
       let dotpos := Py.rfind s DOT in
       let format' := Py.slice_to format (-8) in
       fracsec <-
         (if negb (dotpos =? -1) && (1 <? Py.len (Py.slice_from s dotpos))
          then py_float (Py.slice_from s dotpos)
          else OK (Fin 0)) ;;
       OK (fracsec, Py.slice_to s dotpos, format')
     else OK (Fin 0, s, format)) ;;
  let '(fracsec, s', format') := st in
  tm <- strptime s' format' ;;
  add_int_float (timegm tm) fracsec.

Definition default_parse_format : pystr := "%Y-%m-%d %H:%M:%S.OPTFRAC".

(* ---------------------------------------------------------------- *)
(** ** time_to_str *)

(** [re.compile(r'%.\df').search(format)]: the leftmost place where a
    percent sign, any character but a newline, a digit and an [f] follow
    each other; the result is the start index and the matched text. *)
Definition NEWLINE : ascii := ascii_of_N 10.
Definition BACKSLASH : ascii := ascii_of_N 92.

Definition re_frac_at (c0 c1 c2 c3 : ascii) : bool :=
  Ascii.eqb c0 "%"%char && negb (Ascii.eqb c1 NEWLINE)
  && Py.isdigit c2 && Ascii.eqb c3 "f"%char.

Fixpoint re_frac_search_from (i : nat) (s : pystr) : option (nat * pystr) :=
  match s with
  | [] => None
  | c0 :: rest =>
      match rest with
      | c1 :: c2 :: c3 :: _ =>
          if re_frac_at c0 c1 c2 c3 then Some (i, [c0; c1; c2; c3])
          else re_frac_search_from (S i) rest
      | _ => None
      end
  end.

Definition re_frac_search (format : pystr) : option (nat * pystr) :=
  re_frac_search_from 0 format.

Definition digit_char (d : Z) : ascii := ascii_of_N (Z.to_N (48 + d)).

(** The last [n] decimal digits of [r], zero-padded. *)
Fixpoint digits_fixed (n : nat) (r : Z) : pystr :=
  match n with
  | O => []
  | S k => digits_fixed k (r / 10) ++ [digit_char (r mod 10)]
  end.

(** Decimal digits of a natural number, without padding. *)
Fixpoint digits_nat (fuel : nat) (r : Z) : pystr :=
  match fuel with
  | O => []
  | S k => (if r <? 10 then [] else digits_nat k (r / 10))
           ++ [digit_char (r mod 10)]
  end.

Definition str_of_nonneg (r : Z) : pystr := digits_nat (S (Z.to_nat (Z.log2 r))) r.

(** ['%.Nf' % x] for a finite [x]: fixed point with [n] digits after the
    point, no point at all when [n = 0]. *)
Definition fixed_point (n : nat) (x : Q) : pystr :=
  let r := round_half_even (Qabs x * inject_Z (10 ^ Z.of_nat n)) in
  (if Qlt_le_dec x 0 then ["-"%char] else [])
  ++ str_of_nonneg (r / 10 ^ Z.of_nat n)
  ++ (match n with
      | O => []
      | S _ => DOT :: digits_fixed n (r mod 10 ^ Z.of_nat n)
      end).

(** ['%.Nf' % x] for any float: the negative zero has its sign, an infinity
    and NaN are spelled out; from [1e50] on the conversion changes to [%g],
    which is left to the library ([None]). *)
Definition fixed_point_float (n : nat) (x : pyfloat) : option pystr :=
  match x with
  | Fin q =>
      if Qle_bool (inject_Z (10 ^ 50)) (Qabs q) then None else Some (fixed_point n q)
  | NegZero => Some ("-"%char :: fixed_point n 0)
  | Inf s => Some (if s then lit "-inf" else lit "inf")
  | NaN => Some (lit "nan")
  end.

(** [spec % x] for the four-character texts [re_frac] can match.  With
    [%.Nf] the float is printed in fixed point; with [%%] the text is a
    literal percent sign and no conversion takes the argument, which is a
    [TypeError]; the remaining conversions are the library's. *)
Definition percent_format (spec : pystr) (x : pyfloat) : result pystr :=
  match spec with
  | [_; c; d; _] =>
      if Ascii.eqb c DOT then
        match fixed_point_float (Z.to_nat (Py.digit_value d)) x with
        | Some r => OK r
        | None => format_other spec x
        end
      else if Ascii.eqb c "%"%char then Err TypeError
      else format_other spec x
  | _ => format_other spec x
  end.

(** [[
def time_to_str(t, format='%Y-%m-%d %H:%M:%S.%.3f'):
    if not GlobalVars.re_frac:
        GlobalVars.re_frac = re.compile(r'%.\df')
    ts = math.floor(t)
    tfrac = t-ts
    m = GlobalVars.re_frac.search(format)
    if m:
        format, nsub = GlobalVars.re_frac.subn((m.group(0) % tfrac)[2:], format, 1)
    return time.strftime(format, time.gmtime(ts))
]]
    [GlobalVars.re_frac] only caches the compiled pattern.  [subn] with
    count 1 replaces the leftmost match, the one [search] found.  A
    replacement text with a backslash would be read as a template by
    [subn]; that case is left to [Unmodelled].  [math.floor] returns a
    float, and [t-ts] is the float subtraction. *)
Definition time_to_str (t : pyfloat) (format : pystr) : result pystr :=
  let ts := Float.floor t in
  let tfrac := Float.sub t ts in
  format' <-
    match re_frac_search format with
    | Some (start, group0) =>
        r <- percent_format group0 tfrac ;;
        let repl := Py.slice_from r 2 in
        if existsb (Ascii.eqb BACKSLASH) repl then Err Unmodelled
        else OK (firstn start format ++ repl ++ skipn (start + 4) format)
    | None => OK format
    end ;;
  tm <- gmtime ts ;;
  strftime format' tm.

Definition default_print_format : pystr := "%Y-%m-%d %H:%M:%S.%.3f".

End TimeCodec.

(* ================================================================== *)
(** ** unpack_fixed *)

(** Indexing [l[i]]: a negative index counts from the end, an index out of
    range raises [IndexError]. *)
Definition py_index {A} (l : list A) (i : Z) : result A :=
  let n := Z.of_nat (List.length l) in
  let j := if i <? 0 then i + n else i in
  if (j <? 0) || (n <=? j) then Err IndexError
  else match nth_error l (Z.to_nat j) with
       | Some a => OK a
       | None => Err IndexError
       end.

(** The values [unpack_fixed] puts in its result. *)
Inductive value : Type :=
| VStr (s : pystr)
| VInt (n : Z)
| VFloat (x : pyfloat)
| VNone.

(** A callback for an [@] field: a function of the field's text that returns
    a value or raises. *)
Definition callback : Type := pystr -> result value.

(** Calling a callback is an effect of [unpack_fixed] that its caller can
    observe.  A computation yields the calls it made, each as the index of the
    callback in [callargs] and the text it was given, and then its outcome. *)
Definition call : Type := (Z * pystr)%type.
Definition eff (A : Type) : Type := (list call * result A)%type.

Definition ret {A} (a : A) : eff A := ([], OK a).
Definition raise {A} (e : exn) : eff A := ([], Err e).
Definition lift {A} (r : result A) : eff A := ([], r).
Definition invoke (i : Z) (f : callback) (s : pystr) : eff value := ([(i, s)], f s).

Definition ebind {A B} (m : eff A) (k : A -> eff B) : eff B :=
  match snd m with
  | OK a => (fst m ++ fst (k a), snd (k a))
  | Err e => (fst m, Err e)
  end.

Notation "x <~ m ;; k" := (ebind m (fun x => k))
  (at level 61, m at next level, right associativity).

(** [try: m except: handler] with a bare [except] *)
Definition try_except {A} (m handler : eff A) : eff A :=
  match snd m with
  | OK a => m
  | Err _ => (fst m ++ fst handler, snd handler)
  end.

Definition invocations {A} (m : eff A) : list call := fst m.
Definition outcome {A} (m : eff A) : result A := snd m.

(** The names bound at the top level of [util.py]: its imports, functions,
    classes and the logger. *)
Definition util_globals : list pystr :=
  [ lit "time"; lit "logging"; lit "os"; lit "sys"; lit "re"; lit "calendar";
    lit "math"; lit "signal"; lit "pjoin"; lit "config"; lit "logger";
    lit "setup_logging"; lit "Stopwatch"; lit "progressbar_module";
    lit "progress_beg"; lit "progress_end"; lit "GlobalVars"; lit "decimate";
    lit "UnavailableDecimation"; lit "gcd"; lit "lcm"; lit "mk_decitab";
    lit "decitab"; lit "ctimegm"; lit "gmctime"; lit "gmctime_v";
    lit "gmctime_fn"; lit "FractionalSecondsMissing"; lit "str_to_time";
    lit "time_to_str"; lit "plural_s"; lit "ensuredirs"; lit "ensuredir";
    lit "reuse"; lit "Anon"; lit "select_files"; lit "base36encode";
    lit "base36decode"; lit "unpack_fixed" ].

(** [raise Name(...)]: the name is looked up first; a name that is not bound
    raises [NameError] instead of the exception meant. *)
Definition raise_global {A} (globals : list pystr) (name : pystr) (e : exn) : eff A :=
  if existsb (Py.str_eqb name) globals then raise e else raise (NameError name).

(** What the type letter of a field selects:
    [{'x': None, 'A': str, 'a': lambda x: x.strip(), 'i': int, 'f': float, '@': 'extra'}],
    and a callback once ['extra'] has been replaced by [callargs[icall]]. *)
Inductive cast : Type :=
| CastNone
| CastStr
| CastStrip
| CastInt
| CastFloat
| CastExtra
| CastCall (i : Z) (f : callback).

Definition cast_table (typ : ascii) : result cast :=
  if Ascii.eqb typ "x" then OK CastNone
  else if Ascii.eqb typ "A" then OK CastStr
  else if Ascii.eqb typ "a" then OK CastStrip
  else if Ascii.eqb typ "i" then OK CastInt
  else if Ascii.eqb typ "f" then OK CastFloat
  else if Ascii.eqb typ "@" then OK CastExtra
  else Err KeyError.

Definition is_extra (c : cast) : bool :=
  match c with CastExtra => true | _ => false end.

Definition is_none (c : cast) : bool :=
  match c with CastNone => true | _ => false end.

Record state : Type := mk_state {
  ipos : Z;
  values : list value;
  icall : Z
}.

Section FixedFieldUnpacker.

Context {L : PyLib}.

(** [cast(s)]; calling [None] or the text ['extra'] would be a [TypeError],
    and the loop never does. *)
Definition apply_cast (c : cast) (s : pystr) : eff value :=
  match c with
  | CastStr => ret (VStr s)
  | CastStrip => ret (VStr (Py.strip s))
  | CastInt => lift (n <- py_int s ;; OK (VInt n))
  | CastFloat => lift (x <- py_float s ;; OK (VFloat x))
  | CastCall i f => invoke i f s
  | CastNone | CastExtra => raise TypeError
  end.

Variable globals : list pystr.
Variable line : pystr.
Variable callargs : list callback.

(** The body of the loop, for one [form]:
    [[
      optional = form[-1] == '?'
      form = form.rstrip('?')
      typ = form[0]
      l = int(form[1:])
      s = line[ipos:ipos+l]
      cast = {'x': None, 'A': str, 'a': lambda x: x.strip(), 'i': int, 'f': float, '@': 'extra'}[typ]
      if cast == 'extra':
          cast = callargs[icall]
          icall +=1
      if cast is not None:
          if optional and s.strip() == '':
              values.append(None)
          else:
              try:
                  values.append(cast(s))
              except:
                  raise SeisanResponseFileError('Invalid cast at position [%i:%i] of line: %s' % (ipos, ipos+1, line))
      ipos += l
    ]] *)
Definition field_step (st : state) (form : pystr) : eff state :=
  last <~ lift (py_index form (-1)) ;;
  let optional := Ascii.eqb last "?" in
  let form := Py.rstrip_char "?" form in
  typ <~ lift (py_index form 0) ;;
  l <~ lift (py_int (Py.slice_from form 1)) ;;
  let s := Py.slice line (ipos st) (ipos st + l) in
  cast0 <~ lift (cast_table typ) ;;
  ci <~ (if is_extra cast0
         then f <~ lift (py_index callargs (icall st)) ;;
              ret (CastCall (icall st) f, icall st + 1)
         else ret (cast0, icall st)) ;;
  let '(cast1, icall1) := ci in
  values1 <~ (if negb (is_none cast1) then
                if optional && Py.str_eqb (Py.strip s) []
                then ret (values st ++ [VNone])
                else try_except
                       (v <~ apply_cast cast1 s ;; ret (values st ++ [v]))
                       (raise_global globals "SeisanResponseFileError"
                          (SeisanResponseFileError (ipos st) (ipos st + 1) line))
              else ret (values st)) ;;
  ret {| ipos := ipos st + l; values := values1; icall := icall1 |}.

(** [for form in ...:] *)
Fixpoint loop (forms : list pystr) (st : state) : eff state :=
  match forms with
  | [] => ret st
  | form :: rest => st' <~ field_step st form ;; loop rest st'
  end.

Definition initial : state := {| ipos := 0; values := []; icall := 0 |}.

(** [[
def unpack_fixed(format, line, *callargs):
    ipos = 0
    values = []
    icall = 0
    for form in format.split(','):
        ...
    return values
]] *)
Definition unpack_fixed_in (format : pystr) : eff (list value) :=
  st <~ loop (Py.split "," format) initial ;;
  ret (values st).

End FixedFieldUnpacker.

(** [unpack_fixed] as it runs inside [util.py].  [callargs] is the tuple of
    the arguments that follow [line]: the callbacks, in the order they are
    given ([unpack_fixed(format, line, f, g)] has [callargs = (f, g)]). *)
Definition unpack_fixed {L : PyLib} (format line : pystr) (callargs : list callback)
  : eff (list value) :=
  unpack_fixed_in util_globals line callargs format.

(* ================================================================== *)
(** ** The library on the fragment the examples use *)

Module CPythonLib.

Definition digits_value (ds : pystr) : Z :=
  fold_left (fun acc c => 10 * acc + Py.digit_value c) ds 0.

Definition split_sign (s : pystr) : Z * pystr :=
  match s with
  | c :: r => if Ascii.eqb c "-" then (-1, r)
              else if Ascii.eqb c "+" then (1, r)
              else (1, s)
  | [] => (1, [])
  end.

Definition all_digits (ds : pystr) : bool :=
  negb (Py.str_eqb ds []) && forallb Py.isdigit ds.

(** [int(s)] in base 10: blanks around, a sign, digits. *)
Definition int (s : pystr) : result Z :=
  let '(sg, ds) := split_sign (Py.strip s) in
  if all_digits ds then OK (sg * digits_value ds) else Err ValueError.

Fixpoint span (p : ascii -> bool) (s : pystr) : pystr * pystr :=
  match s with
  | c :: r => if p c then let '(a, b) := span p r in (c :: a, b) else ([], s)
  | [] => ([], [])
  end.

Definition is_special_float (s : pystr) : bool :=
  let l := map Py.lower s in
  Py.str_eqb l "inf" || Py.str_eqb l "infinity" || Py.str_eqb l "nan".

(** [float(s)]: blanks around, a sign, then [inf], [infinity] or [nan] in
    any case, or digits with an optional point and an optional exponent.
    The decimal value is rounded to the nearest double; a zero keeps the
    sign it is written with. *)
Definition float (s : pystr) : result pyfloat :=
  let '(sg, r) := split_sign (Py.strip s) in
  let '(ip, r1) := span Py.isdigit r in
  let '(fp, r2) := match r1 with
                   | c :: t => if Ascii.eqb c "." then span Py.isdigit t else ([], r1)
                   | [] => ([], [])
                   end in
  if Py.str_eqb (ip ++ fp) [] then
    if is_special_float r then
      OK (if Py.str_eqb (map Py.lower r) "nan" then NaN else Inf (sg <? 0))
    else Err ValueError
  else
    e <- match r2 with
         | [] => OK 0
         | c :: t =>
             if Ascii.eqb (Py.lower c) "e" then
               let '(esg, ed) := split_sign t in
               if all_digits ed then OK (esg * digits_value ed) else Err ValueError
             else Err ValueError
         end ;;
    OK (if digits_value (ip ++ fp) =? 0 then (if sg <? 0 then NegZero else Fin 0)
        else Float.round_double
               (inject_Z (sg * digits_value (ip ++ fp))
                / inject_Z (10 ^ Py.len fp) * (inject_Z 10) ^ e)).

(** *** The calendar *)

Definition isleap (y : Z) : bool :=
  (y mod 4 =? 0) && (negb (y mod 100 =? 0) || (y mod 400 =? 0)).

Definition mdays (y m : Z) : Z :=
  if m =? 2 then (if isleap y then 29 else 28)
  else if (m =? 4) || (m =? 6) || (m =? 9) || (m =? 11) then 30
  else 31.

(** [calendar.leapdays(y1, y2)] *)
Definition leapdays (y1 y2 : Z) : Z :=
  let y1 := y1 - 1 in
  let y2 := y2 - 1 in
  (y2 / 4 - y1 / 4) - (y2 / 100 - y1 / 100) + (y2 / 400 - y1 / 400).

(** Days of the months before month [m] of year [y]. *)
Definition days_before_month (y m : Z) : Z :=
  fold_left (fun acc i => acc + mdays y (Z.of_nat i)) (seq 1 (Z.to_nat (m - 1))) 0.

(** [calendar.timegm]: days since 1970-01-01, then hours, minutes, seconds. *)
Definition timegm (tm : struct_time) : Z :=
  let days := 365 * (tm_year tm - 1970) + leapdays 1970 (tm_year tm)
              + days_before_month (tm_year tm) (tm_mon tm) + tm_mday tm - 1 in
  let hours := days * 24 + tm_hour tm in
  let minutes := hours * 60 + tm_min tm in
  minutes * 60 + tm_sec tm.

(** [time.gmtime] on whole seconds: the civil date of a day count,
    proleptic Gregorian. *)
Definition gmtime_int (secs : Z) : result struct_time :=
  let days := secs / 86400 in
  let rem := secs mod 86400 in
  let z := days + 719468 in
  let era := z / 146097 in
  let doe := z - era * 146097 in
  let yoe := (doe - doe / 1460 + doe / 36524 - doe / 146096) / 365 in
  let doy := doe - (365 * yoe + yoe / 4 - yoe / 100) in
  let mp := (5 * doy + 2) / 153 in
  let d := doy - (153 * mp + 2) / 5 + 1 in
  let m := if mp <? 10 then mp + 3 else mp - 9 in
  let y := yoe + era * 400 + (if m <=? 2 then 1 else 0) in
  OK {| tm_year := y; tm_mon := m; tm_mday := d;
        tm_hour := rem / 3600; tm_min := (rem mod 3600) / 60; tm_sec := rem mod 60 |}.

(** [time.gmtime] on a float: the conversion to [time_t] drops the
    fraction; what has no [time_t] is a [ValueError]. *)
Definition gmtime (secs : pyfloat) : result struct_time :=
  match secs with
  | Fin q =>
      let n := if Float.negative q then Qceiling q else Qfloor q in
      if Z.abs n <? 2 ^ 63 then gmtime_int n else Err ValueError
  | NegZero => gmtime_int 0
  | _ => Err ValueError
  end.

(** [time.strftime] for [%Y %m %d %H %M %S %%] and literal text, years
    1900 to 9999. *)
Fixpoint strftime_go (format : pystr) (tm : struct_time) : result pystr :=
  match format with
  | [] => OK []
  | c :: r =>
      if Ascii.eqb c "%" then
        match r with
        | d :: r' =>
            out <- (if Ascii.eqb d "Y" then OK (digits_fixed 4 (tm_year tm))
                    else if Ascii.eqb d "m" then OK (digits_fixed 2 (tm_mon tm))
                    else if Ascii.eqb d "d" then OK (digits_fixed 2 (tm_mday tm))
                    else if Ascii.eqb d "H" then OK (digits_fixed 2 (tm_hour tm))
                    else if Ascii.eqb d "M" then OK (digits_fixed 2 (tm_min tm))
                    else if Ascii.eqb d "S" then OK (digits_fixed 2 (tm_sec tm))
                    else if Ascii.eqb d "%" then OK [d]
                    else Err Unmodelled) ;;
            rest <- strftime_go r' tm ;;
            OK (out ++ rest)
        | [] => Err Unmodelled
        end
      else rest <- strftime_go r tm ;; OK (c :: rest)
  end.

Definition strftime (format : pystr) (tm : struct_time) : result pystr :=
  if tm_year tm <? 1900 then Err ValueError
  else if 9999 <? tm_year tm then Err Unmodelled
  else strftime_go format tm.

(** *** strptime

    [time.strptime] turns the format into a regular expression and matches
    it at the start of the text, ignoring case: a run of blanks in the
    format matches one or more blanks, a directive matches the alternatives
    of its pattern in their order, with backtracking.  Text left over after
    the match, or a date that does not exist, is a [ValueError]. *)

Inductive tok : Type :=
| TLit (c : ascii)
| TSpace
| TDir (d : ascii).

Fixpoint tokenize (after_space : bool) (format : pystr) : result (list tok) :=
  match format with
  | [] => OK []
  | c :: r =>
      if Ascii.eqb c "%" then
        match r with
        | d :: r' => ts <- tokenize false r' ;; OK (TDir d :: ts)
        | [] => Err ValueError
        end
      else if Py.isspace c then
        ts <- tokenize true r ;; OK (if after_space then ts else TSpace :: ts)
      else ts <- tokenize false r ;; OK (TLit c :: ts)
  end.

Definition in_range (lo hi v : Z) : bool := (lo <=? v) && (v <=? hi).

(** Two digits with a value in [lo..hi], then one digit in [lo1..9]. *)
Definition two_then_one (lo hi lo1 : Z) (s : pystr) : list (Z * pystr) :=
  (match s with
   | a :: b :: r =>
       if Py.isdigit a && Py.isdigit b
          && in_range lo hi (10 * Py.digit_value a + Py.digit_value b)
       then [(10 * Py.digit_value a + Py.digit_value b, r)] else []
   | _ => []
   end)
  ++
  (match s with
   | a :: r => if Py.isdigit a && in_range lo1 9 (Py.digit_value a)
               then [(Py.digit_value a, r)] else []
   | [] => []
   end).

Definition set_year v tm := {| tm_year := v; tm_mon := tm_mon tm; tm_mday := tm_mday tm;
  tm_hour := tm_hour tm; tm_min := tm_min tm; tm_sec := tm_sec tm |}.
Definition set_mon v tm := {| tm_year := tm_year tm; tm_mon := v; tm_mday := tm_mday tm;
  tm_hour := tm_hour tm; tm_min := tm_min tm; tm_sec := tm_sec tm |}.
Definition set_mday v tm := {| tm_year := tm_year tm; tm_mon := tm_mon tm; tm_mday := v;
  tm_hour := tm_hour tm; tm_min := tm_min tm; tm_sec := tm_sec tm |}.
Definition set_hour v tm := {| tm_year := tm_year tm; tm_mon := tm_mon tm; tm_mday := tm_mday tm;
  tm_hour := v; tm_min := tm_min tm; tm_sec := tm_sec tm |}.
Definition set_min v tm := {| tm_year := tm_year tm; tm_mon := tm_mon tm; tm_mday := tm_mday tm;
  tm_hour := tm_hour tm; tm_min := v; tm_sec := tm_sec tm |}.
Definition set_sec v tm := {| tm_year := tm_year tm; tm_mon := tm_mon tm; tm_mday := tm_mday tm;
  tm_hour := tm_hour tm; tm_min := tm_min tm; tm_sec := v |}.

Definition with_field (set : Z -> struct_time -> struct_time) (tm : struct_time)
           (alts : list (Z * pystr)) : list (struct_time * pystr) :=
  map (fun '(v, r) => (set v tm, r)) alts.

(** One or more blanks, the longest run first. *)
Fixpoint space_alts (s : pystr) : list pystr :=
  match s with
  | c :: r => if Py.isspace c then space_alts r ++ [r] else []
  | [] => []
  end.

(** The ways a token can match at the head of [s], in the order the
    matcher tries them; [None] for a directive that is not modelled. *)
Definition alts (t : tok) (s : pystr) (tm : struct_time)
  : option (list (struct_time * pystr)) :=
  match t with
  | TLit c =>
      Some (match s with
            | x :: r => if Ascii.eqb (Py.lower x) (Py.lower c) then [(tm, r)] else []
            | [] => []
            end)
  | TSpace => Some (map (fun r => (tm, r)) (space_alts s))
  | TDir d =>
      if Ascii.eqb d "Y" then
        Some (match s with
              | a :: b :: c :: e :: r =>
                  if forallb Py.isdigit [a; b; c; e]
                  then [(set_year (digits_value [a; b; c; e]) tm, r)] else []
              | _ => []
              end)
      else if Ascii.eqb d "m" then Some (with_field set_mon tm (two_then_one 1 12 1 s))
      else if Ascii.eqb d "d" then
        Some (with_field set_mday tm
                (two_then_one 1 31 1 s
                 ++ match s with
                    | sp :: a :: r =>
                        if Ascii.eqb sp " " && Py.isdigit a && in_range 1 9 (Py.digit_value a)
                        then [(Py.digit_value a, r)] else []
                    | _ => []
                    end))
      else if Ascii.eqb d "H" then Some (with_field set_hour tm (two_then_one 0 23 0 s))
      else if Ascii.eqb d "M" then Some (with_field set_min tm (two_then_one 0 59 0 s))
      else if Ascii.eqb d "S" then Some (with_field set_sec tm (two_then_one 0 61 0 s))
      else if Ascii.eqb d "%" then
        Some (match s with
              | x :: r => if Ascii.eqb x "%" then [(tm, r)] else []
              | [] => []
              end)
      else None
  end.

Definition modelled (t : tok) : bool :=
  match alts t [] (mk_time 0 0 0 0 0 0) with Some _ => true | None => false end.

(** The directive letters [strptime] knows; any other is a bad directive. *)
Definition directive_letters : pystr := "aAbBcdfHIjmMpSUwWxXyYZ%".

Definition known (t : tok) : bool :=
  match t with
  | TDir d => existsb (Ascii.eqb d) directive_letters
  | _ => true
  end.

(** The first complete match, depth first. *)
Fixpoint match_toks (ts : list tok) (s : pystr) (tm : struct_time)
  : option (struct_time * pystr) :=
  match ts with
  | [] => Some (tm, s)
  | t :: ts' =>
      match alts t s tm with
      | Some cands =>
          fold_right
            (fun cand later =>
               match match_toks ts' (snd cand) (fst cand) with
               | Some found => Some found
               | None => later
               end)
            None cands
      | None => None
      end
  end.

Definition valid_date (tm : struct_time) : bool :=
  in_range 1 9999 (tm_year tm) && in_range 1 (mdays (tm_year tm) (tm_mon tm)) (tm_mday tm).

Definition strptime (s format : pystr) : result struct_time :=
  ts <- tokenize false format ;;
  if negb (forallb known ts) then Err ValueError
  else if negb (forallb modelled ts) then Err Unmodelled
  else match match_toks ts s (mk_time 1900 1 1 0 0 0) with
       | Some (tm, []) => if valid_date tm then OK tm else Err ValueError
       | Some (_, _ :: _) => Err ValueError
       | None => Err ValueError
       end.

End CPythonLib.

#[export] Instance CPython : PyLib := {
  py_int := CPythonLib.int;
  py_float := CPythonLib.float;
  strptime := CPythonLib.strptime;
  timegm := CPythonLib.timegm;
  gmtime := CPythonLib.gmtime;
  strftime := CPythonLib.strftime;
  format_other := fun _ _ => Err Unmodelled
}.



(** The callback of the example [lambda s: s.upper()]. *)
Definition upper (c : ascii) : ascii :=
  let n := N_of_ascii c in
  if ((97 <=? n) && (n <=? 122))%N then ascii_of_N (n - 32) else c.

Definition upper_cb : callback := fun s => OK (VStr (map upper s)).

(* ================================================================== *)
(** ** Vocabulary of the statements *)

Definition ISO : pystr := "%Y-%m-%d %H:%M:%S".

(** A field descriptor as the loop reads it from [form]: the type letter,
    the width, and whether a question mark ends it. *)
Record field : Type := mk_field {
  f_typ : ascii;
  f_width : Z;
  f_optional : bool
}.

Section Vocabulary.

Context {L : PyLib}.
Variable globals : list pystr.
Variable line : pystr.
Variable callargs : list callback.

(** The integer-second epoch of [s] read against [format], plus [fracsec]:
    the last line of [str_to_time]. *)
Definition epoch_plus (fracsec : pyfloat) (s format : pystr) : result pyfloat :=
  tm <- strptime s format ;;
  add_int_float (timegm tm) fracsec.

(** [optional], [typ] and [l] of the loop body, with the exceptions that
    reading them can raise. *)
Definition parse_form (form : pystr) : result field :=
  last <- py_index form (-1) ;;
  typ <- py_index (Py.rstrip_char "?" form) 0 ;;
  l <- py_int (Py.slice_from (Py.rstrip_char "?" form) 1) ;;
  OK {| f_typ := typ; f_width := l; f_optional := Ascii.eqb last "?" |}.

(** The text of a field that starts at [pos]. *)
Definition field_text (fd : field) (pos : Z) : pystr :=
  Py.slice line pos (pos + f_width fd).

Definition blank (s : pystr) : bool := Py.str_eqb (Py.strip s) [].

(** The state after a field that appended [vs] and left the callback
    index at [ic]. *)
Definition advance (st : state) (fd : field) (vs : list value) (ic : Z) : state :=
  {| ipos := ipos st + f_width fd; values := values st ++ vs; icall := ic |}.

Definition cast_error (st : state) : eff state :=
  raise_global globals "SeisanResponseFileError"
    (SeisanResponseFileError (ipos st) (ipos st + 1) line).

(** What [field_step] does once the cast is known. *)
Definition convert (st : state) (fd : field) (c : cast) (ic : Z) : eff state :=
  if is_none c then ret (advance st fd [] ic)
  else if f_optional fd && blank (field_text fd (ipos st))
  then ret (advance st fd [VNone] ic)
  else match snd (apply_cast c (field_text fd (ipos st))) with
       | OK v => (fst (apply_cast c (field_text fd (ipos st))),
                  OK (advance st fd [v] ic))
       | Err _ => (fst (apply_cast c (field_text fd (ipos st))) ++ fst (cast_error st),
                   snd (cast_error st))
       end.

Definition is_skip (fd : field) : bool := Ascii.eqb (f_typ fd) "x".
Definition is_at (fd : field) : bool := Ascii.eqb (f_typ fd) "@".

(** The callback index after a field: an [@] field takes one callback. *)
Definition next_icall (fd : field) (ic : Z) : Z := if is_at fd then ic + 1 else ic.

(** The value of a field under a conversion: [None] for an optional blank
    field, else what the conversion returns. *)
Definition converted (conv : pystr -> result value) (fd : field) (pos : Z) (v : value) : Prop :=
  if f_optional fd && blank (field_text fd pos) then v = VNone
  else conv (field_text fd pos) = OK v.

(** The value the field at [pos] yields when the callback index is [ic]. *)
Definition field_value (fd : field) (pos ic : Z) (v : value) : Prop :=
  if Ascii.eqb (f_typ fd) "A" then converted (fun s => OK (VStr s)) fd pos v
  else if Ascii.eqb (f_typ fd) "a" then converted (fun s => OK (VStr (Py.strip s))) fd pos v
  else if Ascii.eqb (f_typ fd) "i" then converted (fun s => n <- py_int s ;; OK (VInt n)) fd pos v
  else if Ascii.eqb (f_typ fd) "f" then converted (fun s => x <- py_float s ;; OK (VFloat x)) fd pos v
  else if Ascii.eqb (f_typ fd) "@" then
    exists f, py_index callargs ic = OK f /\ converted f fd pos v
  else False.

(** The callback call a field makes: the callback at [ic] on the field's
    text, unless the field is optional and blank. *)
Definition field_calls (fd : field) (pos ic : Z) : list call :=
  if is_at fd && negb (f_optional fd && blank (field_text fd pos))
  then [(ic, field_text fd pos)] else [].

(** One value per field that is not a skip, in the order of the fields;
    each field starts where the one before it ends. *)
Inductive fields_values : list field -> Z -> Z -> list value -> Prop :=
| FV_nil pos ic : fields_values [] pos ic []
| FV_skip fd fds pos ic vs :
    is_skip fd = true ->
    fields_values fds (pos + f_width fd) ic vs ->
    fields_values (fd :: fds) pos ic vs
| FV_value fd fds pos ic v vs :
    is_skip fd = false ->
    field_value fd pos ic v ->
    fields_values fds (pos + f_width fd) (next_icall fd ic) vs ->
    fields_values (fd :: fds) pos ic (v :: vs).

Fixpoint fields_calls (fds : list field) (pos ic : Z) : list call :=
  match fds with
  | [] => []
  | fd :: rest =>
      field_calls fd pos ic ++ fields_calls rest (pos + f_width fd) (next_icall fd ic)
  end.

Fixpoint parse_forms (forms : list pystr) : result (list field) :=
  match forms with
  | [] => OK []
  | form :: rest =>
      fd <- parse_form form ;; fds <- parse_forms rest ;; OK (fd :: fds)
  end.

Definition total_width (fds : list field) : Z :=
  fold_right (fun fd acc => f_width fd + acc) 0 fds.

Definition count_at (fds : list field) : Z :=
  fold_right (fun fd acc => (if is_at fd then 1 else 0) + acc) 0 fds.

(** The state after the fields [fds] that yielded [vs]. *)
Definition after (st : state) (fds : list field) (vs : list value) : state :=
  {| ipos := ipos st + total_width fds;
     values := values st ++ vs;
     icall := icall st + count_at fds |}.

(** The callback indices of the calls a run makes, completed or not. *)
Definition call_indices {A} (m : eff A) : list Z := map fst (invocations m).

End Vocabulary.

(** The fields of the format [a3,x1,i2?]. *)
Definition two_fields : list field :=
  [ {| f_typ := "a"; f_width := 3; f_optional := false |};
    {| f_typ := "x"; f_width := 1; f_optional := false |};
    {| f_typ := "i"; f_width := 2; f_optional := true |} ].

(* ================================================================== *)
(** * More of util.py *)

(** ** base36encode, base36decode *)

Definition BASE36 : pystr := "0123456789ABCDEFGHIJKLMNOPQRSTUVWXYZ".

(** The loop of [base36encode]:
    [[
    while number != 0:
        number, i = divmod(number, 36)
        base36 = alphabet[i] + base36
    ]]
    [turns] bounds the turns of the loop: the result is [None] when they
    are used up with the loop still going.  For a number that is not negative
    the loop ends after one turn per base-36 digit, and [base36_turns] is
    enough. *)
Fixpoint base36_loop (turns : nat) (alphabet : pystr) (number : Z) (base36 : pystr)
  : option (result pystr) :=
  if number =? 0 then Some (OK base36)
  else match turns with
       | O => None
       | S turns' =>
           match py_index alphabet (number mod 36) with
           | OK c => base36_loop turns' alphabet (number / 36) (c :: base36)
           | Err e => Some (Err e)
           end
       end.

Definition base36_turns (number : Z) : nat := S (Z.to_nat (Z.log2 number)).

(** [[
def base36encode(number, alphabet='0123456789ABCDEFGHIJKLMNOPQRSTUVWXYZ'):
    if not isinstance(number, (int, long)):
        raise TypeError('number must be an integer')
    if number < 0:
        raise ValueError('number must be positive')
    if number < 36:
        return alphabet[number]
    base36 = ''
    while number != 0:
        number, i = divmod(number, 36)
        base36 = alphabet[i] + base36
    return base36
]]
    [number] is an integer here, so the first test never fails. *)
Definition base36encode (number : Z) (alphabet : pystr) : option (result pystr) :=
  if number <? 0 then Some (Err ValueError)
  else if number <? 36 then Some (c <- py_index alphabet number ;; OK [c])
  else base36_loop (base36_turns number) alphabet number [].

(** The value of a character as a digit in base 36, as [int(s, 36)] reads
    it: [0-9], then the letters in either case. *)
Definition digit36 (c : ascii) : option Z :=
  let n := Z.of_N (N_of_ascii c) in
  if (48 <=? n) && (n <=? 57) then Some (n - 48)
  else if (65 <=? n) && (n <=? 90) then Some (n - 55)
  else if (97 <=? n) && (n <=? 122) then Some (n - 87)
  else None.

Fixpoint value36 (acc : Z) (s : pystr) : result Z :=
  match s with
  | [] => OK acc
  | c :: r => match digit36 c with
              | Some d => value36 (36 * acc + d) r
              | None => Err ValueError
              end
  end.

(** [int(s, 36)]: blanks around, a sign, then at least one digit. *)
Definition int36 (s : pystr) : result Z :=
  let '(sg, ds) := CPythonLib.split_sign (Py.strip s) in
  match ds with
  | [] => Err ValueError
  | _ => v <- value36 0 ds ;; OK (sg * v)
  end.

(** [[
def base36decode(number):
    return int(number,36)
]] *)
Definition base36decode (number : pystr) : result Z := int36 number.

(** A number written with the digits [ds], the most significant first. *)
Definition positional (ds : list Z) : Z := fold_left (fun acc d => 36 * acc + d) ds 0.

(** The characters [base36encode] writes for the digits [ds]. *)
Definition digit_chars (alphabet : pystr) (ds : list Z) : pystr :=
  map (fun d => nth (Z.to_nat d) alphabet "0"%char) ds.

Definition is_digit36 (d : Z) : Prop := 0 <= d < 36.

(** The alphabet has a character for each of the digits [ds]. *)
Definition in_alphabet (alphabet : pystr) (ds : list Z) : bool :=
  forallb (fun d => d <? Py.len alphabet) ds.

(** The default alphabet, read back: its character for the digit [d] has the
    value [d], and is neither a blank nor a sign. *)
Definition reads_back (d : nat) : bool :=
  let c := nth d BASE36 "0"%char in
  match digit36 c with
  | Some v => (v =? Z.of_nat d) && negb (Py.isspace c)
              && negb (Ascii.eqb c "-") && negb (Ascii.eqb c "+")
  | None => false
  end.

(** ** gcd, lcm *)

Inductive outcome_of (E A : Type) : Type :=
| Returns (a : A)
| Raises (e : E).

Arguments Returns {E A} a.
Arguments Raises {E A} e.

(** The loop of [gcd] on ints [a] and [b], [epsilon] a float:
    [[
    while b > epsilon*a:
       a, b = b, a % b
    ]]
    [epsilon*a] converts [a] to a float, which raises [OverflowError] when
    [a] is too large, and multiplies the two floats; the comparison of the
    int [b] with the product is exact.  [a % b] with [b = 0] raises.
    [turns] bounds the turns of the loop: the result is [None] when they are
    used up with the loop still going.  Each turn brings [b] closer to zero,
    so [|b| + 1] turns are enough ([gcd_turns]). *)
Fixpoint gcd_loop (turns : nat) (epsilon : pyfloat) (a b : Z)
  : option (outcome_of arith_exn Z) :=
  match Float.of_int a with
  | None => Some (Raises OverflowError)
  | Some fa =>
      if Float.lt_int (Float.mul epsilon fa) b then
        match turns with
        | O => None
        | S turns' =>
            if b =? 0 then Some (Raises ZeroDivisionError)
            else gcd_loop turns' epsilon b (a mod b)
        end
      else Some (Returns a)
  end.

Definition gcd_turns (b : Z) : nat := S (Z.to_nat (Z.abs b)).

(** The default of [epsilon]: the float that the literal [1e-7] denotes. *)
Definition EPSILON : pyfloat := Float.round_double (1 # 10000000).

(** The largest float below one. *)
Definition BELOW_ONE : Q := 9007199254740991 # 9007199254740992.

(** [[
def gcd(a,b, epsilon=1e-7):
    while b > epsilon*a:
       a, b = b, a % b
    return a
]] *)
Definition gcd (a b : Z) (epsilon : pyfloat) : option (outcome_of arith_exn Z) :=
  gcd_loop (gcd_turns b) epsilon a b.

(** [[
def lcm(a,b):
    return a*b/gcd(a,b)
]]
    On integers [/] is the floor division, and raises on a zero divisor. *)
Definition lcm (a b : Z) : option (outcome_of arith_exn Z) :=
  match gcd a b EPSILON with
  | Some (Returns g) =>
      Some (if g =? 0 then Raises ZeroDivisionError else Returns (a * b / g))
  | Some (Raises e) => Some (Raises e)
  | None => None
  end.

(** ** mk_decitab, decitab *)

(** [range(a, b)] *)
Definition range (a b : Z) : list Z :=
  map (fun k => a + Z.of_nat k) (seq 0 (Z.to_nat (b - a))).

(** [for x in xs: body], where the body says whether it ended in [break]. *)
Fixpoint for_break {S : Type} (xs : list Z) (body : Z -> S -> S * bool) (s : S) : S :=
  match xs with
  | [] => s
  | x :: rest =>
      let '(s', stop) := body x s in
      if stop then s' else for_break rest body s'
  end.

(** A decimation sequence [(i,j,k,l,m)]. *)
Definition factors : Type := (Z * Z * Z * Z * Z)%type.

(** The dictionary [GlobalVars.decitab], as its items in the order they were
    added. *)
Definition table : Type := list (Z * factors).

(** [tab.get(p)], [p in tab], [tab[p] = v] *)
Definition tab_get (tab : table) (p : Z) : option factors :=
  match find (fun e => fst e =? p) tab with
  | Some e => Some (snd e)
  | None => None
  end.

Definition tab_mem (tab : table) (p : Z) : bool :=
  match tab_get tab p with Some _ => true | None => false end.

Fixpoint tab_set (tab : table) (p : Z) (v : factors) : table :=
  match tab with
  | [] => [(p, v)]
  | e :: rest => if fst e =? p then (p, v) :: rest else e :: tab_set rest p v
  end.

(** The part of [GlobalVars] that [mk_decitab] and [decitab] use. *)
Record decimation_state : Type := mk_decimation_state {
  decitab_of : table;
  decitab_nmax : Z
}.

(** [[
class GlobalVars:
    decitab_nmax = 0
    decitab = {}
]] *)
Definition decimation_initial : decimation_state :=
  {| decitab_of := []; decitab_nmax := 0 |}.

(** The five loops of [mk_decitab]:
    [[
    for i in range(1,10):
        for j in range(1,i+1):
            for k in range(1,j+1):
                for l in range(1,k+1):
                    for m in range(1,l+1):
                        p = i*j*k*l*m
                        if p > nmax: break
                        if p not in tab:
                            tab[p] = (i,j,k,l,m)
                    if i*j*k*l > nmax: break
                if i*j*k > nmax: break
            if i*j > nmax: break
        if i > nmax: break
    ]] *)
Definition mk_decitab_table (nmax : Z) (tab : table) : table :=
  for_break (range 1 10) (fun i tab =>
    (for_break (range 1 (i + 1)) (fun j tab =>
      (for_break (range 1 (j + 1)) (fun k tab =>
        (for_break (range 1 (k + 1)) (fun l tab =>
          (for_break (range 1 (l + 1)) (fun m tab =>
             let p := i * j * k * l * m in
             if p >? nmax then (tab, true)
             else (if negb (tab_mem tab p) then tab_set tab p (i, j, k, l, m) else tab,
                   false))
             tab,
           i * j * k * l >? nmax))
          tab,
         i * j * k >? nmax))
        tab,
       i * j >? nmax))
      tab,
     i >? nmax))
    tab.

(** [[
def mk_decitab(nmax=100):
    tab = GlobalVars.decitab
    for i in range(1,10):
        ...
    GlobalVars.decitab_nmax = nmax
]] *)
Definition mk_decitab (nmax : Z) (st : decimation_state) : decimation_state :=
  {| decitab_of := mk_decitab_table nmax (decitab_of st); decitab_nmax := nmax |}.

(** [[
def decitab(n):
    if n > GlobalVars.decitab_nmax:
        mk_decitab(n*2)
    if n not in GlobalVars.decitab: raise UnavailableDecimation('ratio = %g' % ratio)
    return GlobalVars.decitab[n]
]]
    The message of the exception is made from [ratio], a name that is bound
    neither in [decitab] (whose only local is [n]) nor at the top level of
    the file: evaluating it raises [NameError], and the exception meant is
    never made.  The state is returned with the outcome, as what
    [mk_decitab] did stays done when the call raises. *)
Inductive decitab_exn : Type :=
| UnavailableDecimation
| UnboundName (name : pystr).

Definition decitab (n : Z) (st : decimation_state)
  : decimation_state * outcome_of decitab_exn factors :=
  let st1 := if n >? decitab_nmax st then mk_decitab (n * 2) st else st in
  match tab_get (decitab_of st1) n with
  | None =>
      (st1, if existsb (Py.str_eqb "ratio") (lit "n" :: util_globals)
            then Raises UnavailableDecimation
            else Raises (UnboundName "ratio"))
  | Some t => (st1, Returns t)
  end.

(** The product of a decimation sequence, its largest factor, and what makes
    it one the loops can reach: factors from 9 down to 1, none larger than the
    one before. *)
Definition product (t : factors) : Z :=
  let '(i, j, k, l, m) := t in i * j * k * l * m.

Definition largest (t : factors) : Z :=
  let '(i, _, _, _, _) := t in i.

Definition is_sequence (t : factors) : Prop :=
  let '(i, j, k, l, m) := t in 1 <= m <= l /\ l <= k /\ k <= j /\ j <= i /\ i <= 9.

(** All the sequences, in the order the loops come to them. *)
Definition all_sequences : list factors :=
  flat_map (fun i =>
    flat_map (fun j =>
      flat_map (fun k =>
        flat_map (fun l =>
          map (fun m => (i, j, k, l, m)) (range 1 (l + 1)))
          (range 1 (k + 1)))
        (range 1 (j + 1)))
      (range 1 (i + 1)))
    (range 1 10).

(** The first sequence, in that order, whose product is [p]. *)
Definition first_sequence (p : Z) : option factors :=
  find (fun t => product t =? p) all_sequences.

(** What the innermost statements do with one sequence. *)
Definition add_sequence (nmax : Z) (tab : table) (t : factors) : table :=
  if product t >? nmax then tab
  else if negb (tab_mem tab (product t)) then tab_set tab (product t) t else tab.

(** Whether the first sequence for the product of [t] has a largest factor
    no larger than that of [t]. *)
Definition first_is_least (t : factors) : bool :=
  match first_sequence (product t) with
  | Some t' => largest t' <=? largest t
  | None => false
  end.

(** A state that calls of [mk_decitab] and [decitab] lead to: what the table
    holds for [p] is the first sequence for [p], and it holds one for every
    [p] up to [decitab_nmax] that has one. *)
Definition decimation_reached (st : decimation_state) : Prop :=
  (forall p, tab_get (decitab_of st) p = None
             \/ tab_get (decitab_of st) p = first_sequence p)
  /\ (forall p, p <= decitab_nmax st -> tab_get (decitab_of st) p = first_sequence p).

(** ** reuse *)

Section Reuse.

(** The objects; two objects are the same object when they are equal here.
    [eqo] is [==] and [hash] is [hash()] on them, as their class defines
    them. *)
Variable object : Type.
Variable object_eq_dec : forall a b : object, {a = b} + {a <> b}.
Variable eqo : object -> object -> bool.
Variable hash : object -> Z.

(** [a is b] *)
Definition same (a b : object) : bool := if object_eq_dec a b then true else false.

(** Whether the key [k] of a dictionary is the key that [x] looks up: it is
    the same object, or it has the same hash and is equal. *)
Definition key_matches (k x : object) : bool :=
  same k x || ((hash k =? hash x) && eqo k x).

(** [GlobalVars.reuse_store], a dictionary from objects to objects: its
    items, in the order they were added.  A lookup finds the item whose key
    matches.  Were there more than one, the layout of the dictionary would
    decide between them; the statements below are about stores where at most
    one key matches ([store_reached_one_match]). *)
Definition store : Type := list (object * object).

Definition store_find (grs : store) (x : object) : option (object * object) :=
  find (fun e => key_matches (fst e) x) grs.

(** [[
def reuse(x):
    grs = GlobalVars.reuse_store
    if not x in grs:
        grs[x] = x
    return grs[x]
]]
    The result is the store after the call and the object returned. *)
Definition reuse (x : object) (grs : store) : store * object :=
  match store_find grs x with
  | Some e => (grs, snd e)
  | None => (grs ++ [(x, x)], x)
  end.

(** A store that calls of [reuse] lead to from the empty one. *)
Inductive store_reached : store -> Prop :=
| reached_empty : store_reached []
| reached_reuse x grs : store_reached grs -> store_reached (fst (reuse x grs)).

End Reuse.

(** Objects for an example: a number, and a tag that tells apart two objects
    with the same number.  They are compared and hashed by the number. *)
Record tagged : Type := mk_tagged {
  tag : nat;
  number : Z
}.

Definition tagged_eq_dec (a b : tagged) : {a = b} + {a <> b}.
Proof. decide equality; [apply Z.eq_dec | apply Nat.eq_dec]. Defined.

Definition tagged_eqo (a b : tagged) : bool := number a =? number b.
Definition tagged_hash (a : tagged) : Z := number a.
Definition id_hash (a : tagged) : Z := Z.of_nat (tag a).

(** ** ctimegm, gmctime *)

Section OlderTimeFunctions.

Context {L : PyLib}.

(** [[
def ctimegm(s, format="%Y-%m-%d %H:%M:%S"):
    return calendar.timegm(time.strptime(s, format))
]] *)
Definition ctimegm (s format : pystr) : result Z :=
  tm <- strptime s format ;; OK (timegm tm).

(** [[
def gmctime(t, format="%Y-%m-%d %H:%M:%S"):
    return time.strftime(format, time.gmtime(t))
]]
    for a float [t]; [gmctime_v] and [gmctime_fn] are the same function with
    other default formats. *)
Definition gmctime (t : pyfloat) (format : pystr) : result pystr :=
  tm <- gmtime t ;; strftime format tm.

Definition gmctime_v (t : pyfloat) (format : pystr) : result pystr :=
  tm <- gmtime t ;; strftime format tm.

Definition gmctime_fn (t : pyfloat) (format : pystr) : result pystr :=
  tm <- gmtime t ;; strftime format tm.

End OlderTimeFunctions.

Definition gmctime_default : pystr := "%Y-%m-%d %H:%M:%S".
Definition gmctime_v_default : pystr := "%a, %d %b %Y %H:%M:%S".
Definition gmctime_fn_default : pystr := "%Y-%m-%d_%H-%M-%S".

(** ** Vocabulary for more statements on unpack_fixed *)

(** An optional field of type [A], [a], [i] or [f] with a width that is not
    negative. *)
Definition optional_plain (fd : field) : Prop :=
  f_optional fd = true
  /\ (f_typ fd = "A"%char \/ f_typ fd = "a"%char \/ f_typ fd = "i"%char \/ f_typ fd = "f"%char)
  /\ 0 <= f_width fd.

Definition known_type (typ : ascii) : Prop :=
  typ = "x"%char \/ typ = "A"%char \/ typ = "a"%char \/ typ = "i"%char
  \/ typ = "f"%char \/ typ = "@"%char.

(* ================================================================== *)
(** ** Facts about the string primitives *)

Module PyFacts.
Import Py.

Lemma len_app (a b : pystr) : len (a ++ b) = len a + len b.
Proof. unfold len. rewrite length_app. lia. Qed.

Lemma len_nonneg (s : pystr) : 0 <= len s.
Proof. unfold len. lia. Qed.

Lemma norm_index_in_range (n i : Z) : 0 <= i <= n -> norm_index n i = i.
Proof.
  intros H. unfold norm_index.
  destruct (i <? 0) eqn:E; [apply Z.ltb_lt in E; lia | lia].
Qed.

Lemma norm_index_from_end (n i : Z) : 0 < i <= n -> norm_index n (- i) = n - i.
Proof.
  intros H. unfold norm_index.
  destruct (- i <? 0) eqn:E; [lia | apply Z.ltb_ge in E; lia].
Qed.

Lemma str_eqb_refl (s : pystr) : str_eqb s s = true.
Proof. unfold str_eqb. destruct (list_eq_dec ascii_dec s s); congruence. Qed.

Lemma str_eqb_eq (a b : pystr) : str_eqb a b = true <-> a = b.
Proof.
  unfold str_eqb. destruct (list_eq_dec ascii_dec a b); split; congruence.
Qed.

Lemma str_eqb_neq (a b : pystr) : str_eqb a b = false <-> a <> b.
Proof.
  unfold str_eqb. destruct (list_eq_dec ascii_dec a b); split; congruence.
Qed.

(** [(base + suffix).endswith(suffix)] *)
Lemma endswith_app (base suffix : pystr) : endswith (base ++ suffix) suffix = true.
Proof.
  unfold endswith. rewrite length_app.
  replace (List.length base + List.length suffix - List.length suffix)%nat
    with (List.length base) by lia.
  rewrite skipn_app, skipn_all, Nat.sub_diag. simpl.
  rewrite str_eqb_refl, andb_true_r.
  apply Nat.leb_le. lia.
Qed.

(** Dropping a nonempty suffix by its length counted from the end. *)
Lemma slice_to_drop_suffix (base suffix : pystr) :
  suffix <> [] -> slice_to (base ++ suffix) (- len suffix) = base.
Proof.
  intros Hne. unfold slice_to.
  assert (0 < len suffix).
  { unfold len. destruct suffix; [congruence | simpl; lia]. }
  rewrite norm_index_from_end by (rewrite len_app; pose proof (len_nonneg base); lia).
  rewrite len_app.
  replace (Z.to_nat (len base + len suffix - len suffix)) with (List.length base + 0)%nat
    by (unfold len; lia).
  rewrite firstn_app_2. simpl. apply app_nil_r.
Qed.

(** [s[:-1]] drops the last character. *)
Lemma slice_to_minus_one (s : pystr) : slice_to s (-1) = removelast s.
Proof.
  induction s as [|c s _] using rev_ind; [reflexivity|].
  unfold slice_to.
  replace (norm_index (len (s ++ [c])) (-1)) with (len s).
  - rewrite removelast_last. unfold len. rewrite Nat2Z.id.
    replace (List.length s) with (List.length s + 0)%nat at 1 by lia.
    rewrite firstn_app_2. simpl. apply app_nil_r.
  - rewrite len_app. unfold norm_index. change (-1 <? 0) with true. cbv beta iota zeta.
    change (len [c]) with 1. pose proof (len_nonneg s). lia.
Qed.

Lemma rfind_from_absent (c : ascii) (s : pystr) (i last : Z) :
  ~ In c s -> rfind_from c s i last = last.
Proof.
  revert i last. induction s as [|x r IH]; intros i last Hn; simpl; [reflexivity|].
  rewrite IH by (intro; apply Hn; now right).
  destruct (Ascii.eqb x c) eqn:E; [|reflexivity].
  apply Ascii.eqb_eq in E. exfalso. apply Hn. now left.
Qed.

Lemma rfind_from_last (c : ascii) (pre post : pystr) (i last : Z) :
  ~ In c post -> rfind_from c (pre ++ c :: post) i last = i + len pre.
Proof.
  revert i last. induction pre as [|x r IH]; intros i last Hn; simpl.
  - rewrite Ascii.eqb_refl, rfind_from_absent by assumption. unfold len. simpl. lia.
  - rewrite IH by assumption. unfold len. simpl List.length. lia.
Qed.

(** [s.rfind(c) == -1] when [c] is not in [s]. *)
Lemma rfind_absent (c : ascii) (s : pystr) : ~ In c s -> rfind s c = -1.
Proof. apply rfind_from_absent. Qed.

(** [s.rfind(c)] is the place of the last [c]. *)
Lemma rfind_last (c : ascii) (pre post : pystr) :
  ~ In c post -> rfind (pre ++ c :: post) c = len pre.
Proof. intros H. unfold rfind. rewrite rfind_from_last by assumption. lia. Qed.

Lemma slice_from_app (pre post : pystr) : slice_from (pre ++ post) (len pre) = post.
Proof.
  unfold slice_from.
  rewrite norm_index_in_range
    by (rewrite len_app; pose proof (len_nonneg pre); pose proof (len_nonneg post); lia).
  unfold len. rewrite Nat2Z.id.
  rewrite skipn_app, skipn_all, Nat.sub_diag.
  reflexivity.
Qed.

Lemma slice_to_app (pre post : pystr) : slice_to (pre ++ post) (len pre) = pre.
Proof.
  unfold slice_to.
  rewrite norm_index_in_range
    by (rewrite len_app; pose proof (len_nonneg pre); pose proof (len_nonneg post); lia).
  unfold len. rewrite Nat2Z.id.
  replace (List.length pre) with (List.length pre + 0)%nat by lia.
  rewrite firstn_app_2. simpl. apply app_nil_r.
Qed.

End PyFacts.

(* ================================================================== *)
(** ** Facts about the rounding of floats *)

Section FloatFacts.
Import Float.

Lemma round_half_even_bounds (q : Q) :
  Qfloor q <= round_half_even q <= Qfloor q + 1.
Proof.
  unfold round_half_even. destruct (_ ?= _)%Q; try destruct (Z.even _); lia.
Qed.

Lemma round_half_even_ge (q : Q) (n : Z) :
  (inject_Z n <= q)%Q -> n <= round_half_even q.
Proof.
  intros H. pose proof (round_half_even_bounds q).
  apply Qfloor_resp_le in H. rewrite Qfloor_Z in H. lia.
Qed.

Lemma round_half_even_le (q : Q) (n : Z) :
  (q <= inject_Z n)%Q -> round_half_even q <= n.
Proof.
  intros H. unfold round_half_even.
  pose proof (Qfloor_resp_le _ _ H) as Hf. rewrite Qfloor_Z in Hf.
  destruct (Z.eq_dec (Qfloor q) n) as [E|E].
  - (* the fraction is zero *)
    assert (Hq : (q - inject_Z (Qfloor q) <= 0)%Q) by (rewrite E; lra).
    destruct (_ ?= _)%Q eqn:C.
    + apply Qeq_alt in C. lra.
    + lia.
    + apply Qgt_alt in C. lra.
  - destruct (_ ?= _)%Q; try destruct (Z.even _); lia.
Qed.

Lemma round_half_even_int (q : Q) (n : Z) :
  (q == inject_Z n)%Q -> round_half_even q = n.
Proof.
  intros H. apply Z.le_antisymm.
  - apply round_half_even_le. lra.
  - apply round_half_even_ge. lra.
Qed.

Lemma pow2_pos (e : Z) : (0 < pow2 e)%Q.
Proof. apply Qpower_0_lt. reflexivity. Qed.

Lemma pow2_add (a b : Z) : (pow2 (a + b) == pow2 a * pow2 b)%Q.
Proof. apply Qpower_plus. discriminate. Qed.

Lemma pow2_cancel (p : Z) : (pow2 (- p) * pow2 p == 1)%Q.
Proof. rewrite <- pow2_add. replace (- p + p) with 0 by lia. reflexivity. Qed.

Lemma pow2_int (k : Z) : 0 <= k -> (pow2 k == inject_Z (2 ^ k))%Q.
Proof. intros H. unfold pow2. now rewrite Zpower_Qpower. Qed.

Lemma pow2_le (a b : Z) : a <= b -> (pow2 a <= pow2 b)%Q.
Proof. intros H. apply Qpower_le_compat_l; [assumption | discriminate]. Qed.

(** The lower bound of the exponent. *)
Lemma exponent_le (q : Q) : ~ (q == 0)%Q -> (pow2 (exponent q) <= Qabs q)%Q.
Proof.
  intros Hq. unfold exponent.
  set (e := Z.log2 (Z.abs (Qnum q)) - Z.log2 (Z.pos (Qden q))).
  destruct (Qle_bool (pow2 e) (Qabs q)) eqn:E; [now apply Qle_bool_iff|].
  destruct q as [n d]. unfold Qabs. cbn [Qnum Qden] in *.
  assert (Hn : 0 < Z.abs n).
  { unfold Qeq in Hq. cbn in Hq. lia. }
  destruct (Z.log2_spec (Z.abs n) Hn) as (Hn1 & _).
  destruct (Z.log2_spec (Z.pos d) ltac:(lia)) as (_ & Hd2).
  pose proof (Z.log2_nonneg (Z.abs n)) as Hln. pose proof (Z.log2_nonneg (Z.pos d)) as Hld.
  set (ln := Z.log2 (Z.abs n)) in *. set (ld := Z.log2 (Z.pos d)) in *.
  (* 2^(ln - ld - 1) * d <= 2^ln <= |n| *)
  assert (Hp : (pow2 (e - 1) * inject_Z (2 ^ (ld + 1)) == inject_Z (2 ^ ln))%Q).
  { rewrite <- !pow2_int by lia. rewrite <- pow2_add. unfold e.
    replace (ln - ld - 1 + (ld + 1)) with ln by lia. reflexivity. }
  assert (Hd : (inject_Z (Z.pos d) <= inject_Z (2 ^ (ld + 1)))%Q)
    by (rewrite <- Zle_Qle; replace (Z.succ ld) with (ld + 1) in Hd2 by lia; lia).
  assert (Hnn : (inject_Z (2 ^ ln) <= inject_Z (Z.abs n))%Q) by (rewrite <- Zle_Qle; lia).
  pose proof (pow2_pos (e - 1)) as Hpos.
  assert (H1 : (pow2 (e - 1) * inject_Z (Z.pos d) <= inject_Z (Z.abs n))%Q).
  { eapply Qle_trans; [|exact Hnn]. rewrite <- Hp.
    apply Qmult_le_l; assumption. }
  (* divide by d *)
  assert (Hval : (Z.abs n # d == inject_Z (Z.abs n) / inject_Z (Z.pos d))%Q).
  { rewrite Qmake_Qdiv. reflexivity. }
  rewrite Hval. apply Qle_shift_div_l; [reflexivity | assumption].
Qed.

Lemma exponent_lt (q : Q) (k : Z) :
  ~ (q == 0)%Q -> (Qabs q < pow2 k)%Q -> exponent q < k.
Proof.
  intros Hq H. pose proof (exponent_le q Hq) as Hl.
  apply (Qpower_lt_compat_l_inv 2); [|reflexivity].
  eapply Qle_lt_trans; eassumption.
Qed.

Lemma negative_false (q : Q) : (0 <= q)%Q -> negative q = false.
Proof. intros H. unfold negative. destruct (Qlt_le_dec q 0); [lra | reflexivity]. Qed.

Lemma Qabs_nonneg_eq (q : Q) : (0 <= q)%Q -> (Qabs q == q)%Q.
Proof. intros H. now rewrite Qabs_pos. Qed.

(** What is not negative rounds to what is not negative. *)
Lemma round_double_nonneg (q : Q) :
  (0 <= q)%Q ->
  round_double q = Inf false \/ exists y, round_double q = Fin y /\ (0 <= y)%Q.
Proof.
  intros H. unfold round_double. rewrite (negative_false q H).
  set (p := ulp_exponent q). set (m := round_half_even _).
  assert (Hm : 0 <= m).
  { apply round_half_even_ge. apply Qmult_le_0_compat; [apply Qabs_nonneg|].
    apply Qlt_le_weak, pow2_pos. }
  destruct (m =? 0); [right; exists 0%Q; split; [reflexivity | lra]|].
  destruct (Qle_bool _ _); [now left|]. right. eexists. split; [reflexivity|].
  rewrite Qred_correct. pose proof (pow2_pos p).
  assert (0 <= inject_Z m)%Q by (change 0%Q with (inject_Z 0); now rewrite <- Zle_Qle).
  rewrite Qmult_1_l. apply Qmult_le_0_compat; lra.
Qed.

(** Rounding does not pass a bound that is a multiple of the unit. *)
Lemma round_double_bounded (q B : Q) (M : Z) :
  (0 <= q)%Q -> (q <= B)%Q -> (B < pow2 1024)%Q ->
  (B * pow2 (- ulp_exponent q) == inject_Z M)%Q ->
  exists y, round_double q = Fin y /\ (0 <= y)%Q /\ (y <= B)%Q.
Proof.
  intros H0 HB Hmax HM. unfold round_double. rewrite (negative_false q H0).
  set (p := ulp_exponent q) in *. set (m := round_half_even _).
  pose proof (pow2_pos p) as Hp. pose proof (pow2_pos (- p)) as Hp'.
  assert (Hm0 : 0 <= m).
  { apply round_half_even_ge. apply Qmult_le_0_compat; [apply Qabs_nonneg | lra]. }
  assert (HmM : m <= M).
  { apply round_half_even_le. rewrite <- HM, Qabs_pos by assumption.
    apply Qmult_le_compat_r; lra. }
  assert (Hval : (inject_Z m * pow2 p <= B)%Q).
  { assert (E : (B == inject_Z M * pow2 p)%Q).
    { rewrite <- HM, <- Qmult_assoc, pow2_cancel. ring. }
    rewrite E. apply Qmult_le_compat_r; [|lra]. now rewrite <- Zle_Qle. }
  destruct (m =? 0); [exists 0%Q; split; [reflexivity | split; lra]|].
  destruct (Qle_bool (pow2 1024) (inject_Z m * pow2 p)) eqn:E.
  - apply Qle_bool_iff in E. lra.
  - eexists. split; [reflexivity|]. rewrite Qred_correct, Qmult_1_l. split; [|assumption].
    assert (0 <= inject_Z m)%Q by (change 0%Q with (inject_Z 0); now rewrite <- Zle_Qle).
    apply Qmult_le_0_compat; lra.
Qed.

Lemma round_double_zero (q : Q) : (q == 0)%Q -> round_double q = Fin 0.
Proof.
  intros E. unfold round_double. rewrite (negative_false q) by lra.
  replace (round_half_even _) with 0; [reflexivity|].
  symmetry. apply round_half_even_int. rewrite Qabs_pos by lra.
  generalize (pow2 (- ulp_exponent q)). intros c. rewrite E. ring.
Qed.

(** Below one the unit is at most [2^-53]. *)
Lemma ulp_exponent_below_one (q : Q) :
  ~ (q == 0)%Q -> (Qabs q < 1)%Q -> ulp_exponent q <= -53.
Proof.
  intros Hq H. unfold ulp_exponent.
  assert (exponent q < 0) by (apply exponent_lt; [assumption | exact H]). lia.
Qed.

(** A fraction rounds to a float from 0 to 1. *)
Lemma round_double_unit (q : Q) :
  (0 <= q)%Q -> (q < 1)%Q ->
  exists y, round_double q = Fin y /\ (0 <= y)%Q /\ (y <= 1)%Q.
Proof.
  intros H0 H1. destruct (Qeq_dec q 0) as [E|E].
  - exists 0%Q. split; [now apply round_double_zero | split; lra].
  - assert (Hp : ulp_exponent q <= -53)
      by (apply ulp_exponent_below_one; [assumption | now rewrite Qabs_pos]).
    apply (round_double_bounded q 1 (2 ^ (- ulp_exponent q))); try assumption.
    + lra.
    + reflexivity.
    + rewrite Qmult_1_l. apply pow2_int. lia.
Qed.

(** Up to the largest double below one, rounding stays below one. *)
Lemma round_double_below_one (q : Q) :
  (0 <= q)%Q -> (q <= BELOW_ONE)%Q ->
  exists y, round_double q = Fin y /\ (0 <= y)%Q /\ (y < 1)%Q.
Proof.
  intros H0 H1.
  assert (Hlt : (BELOW_ONE < 1)%Q) by reflexivity.
  destruct (Qeq_dec q 0) as [E|E].
  - exists 0%Q. split; [now apply round_double_zero | split; lra].
  - assert (Hp : ulp_exponent q <= -53)
      by (apply ulp_exponent_below_one; [assumption | rewrite Qabs_pos by assumption; lra]).
    assert (Hmax : (BELOW_ONE < pow2 1024)%Q) by reflexivity.
    assert (HM : (BELOW_ONE * pow2 (- ulp_exponent q)
                  == inject_Z (9007199254740991 * 2 ^ (- 53 - ulp_exponent q)))%Q).
    { rewrite inject_Z_mult, <- pow2_int by lia.
      replace (- ulp_exponent q) with (- 53 - ulp_exponent q + 53) at 1 by lia.
      rewrite pow2_add. unfold BELOW_ONE.
      assert (E53 : (pow2 53 == 9007199254740992)%Q) by reflexivity.
      rewrite E53. field. }
    destruct (round_double_bounded q BELOW_ONE _ H0 H1 Hmax HM) as (y & Hy & Hy0 & Hy1).
    exists y. split; [assumption | split; lra].
Qed.

Lemma Qred_int (n : Z) : Qred (inject_Z n) = inject_Z n.
Proof.
  unfold Qred, inject_Z.
  pose proof (Z.ggcd_gcd n 1) as Hg. pose proof (Z.ggcd_correct_divisors n 1) as Hd.
  destruct (Z.ggcd n 1) as (g & r1 & r2). cbn [fst snd] in *.
  rewrite Z.gcd_1_r in Hg. subst g. destruct Hd as (Hn & H1).
  rewrite Z.mul_1_l in Hn, H1. now subst.
Qed.

(** An int below [2^53] in size is a double. *)
Lemma round_double_int (n : Z) :
  Z.abs n < 2 ^ 53 -> round_double (inject_Z n) = Fin (inject_Z n).
Proof.
  intros Hn. unfold round_double.
  destruct (Z.eq_dec n 0) as [->|Hne]; [reflexivity|].
  set (q := inject_Z n). set (p := ulp_exponent q).
  assert (Hq : ~ (q == 0)%Q).
  { unfold q, Qeq. cbn. lia. }
  assert (Habs : (Qabs q == inject_Z (Z.abs n))%Q) by reflexivity.
  assert (Hp : p <= 0).
  { unfold p, ulp_exponent.
    assert (exponent q < 53); [|lia].
    apply exponent_lt; [assumption|]. rewrite Habs, pow2_int by lia.
    now rewrite <- Zlt_Qlt. }
  assert (Hm : round_half_even (Qabs q * pow2 (- p)) = Z.abs n * 2 ^ (- p)).
  { apply round_half_even_int. rewrite Habs, inject_Z_mult, pow2_int by lia. reflexivity. }
  rewrite Hm.
  assert (Hpow : 0 < 2 ^ (- p)) by (apply Z.pow_pos_nonneg; lia).
  replace (Z.abs n * 2 ^ (- p) =? 0) with false by (symmetry; apply Z.eqb_neq; nia).
  assert (Hval : (inject_Z (Z.abs n * 2 ^ (- p)) * pow2 p == inject_Z (Z.abs n))%Q).
  { rewrite inject_Z_mult, <- pow2_int by lia. rewrite <- Qmult_assoc, pow2_cancel. ring. }
  destruct (Qle_bool (pow2 1024) _) eqn:E.
  - apply Qle_bool_iff in E. rewrite Hval in E. exfalso.
    assert (H53 : (inject_Z (Z.abs n) < pow2 53)%Q)
      by (rewrite pow2_int by lia; now rewrite <- Zlt_Qlt).
    pose proof (pow2_le 53 1024 ltac:(lia)). lra.
  - f_equal. transitivity (Qred (inject_Z n)); [|apply Qred_int]. apply Qred_complete.
    rewrite <- Qmult_assoc, Hval. unfold negative, q.
    destruct (Qlt_le_dec (inject_Z n) 0) as [Hneg|Hpos].
    + change 0%Q with (inject_Z 0) in Hneg. rewrite <- Zlt_Qlt in Hneg.
      rewrite Z.abs_neq by lia. rewrite inject_Z_opp. ring.
    + change 0%Q with (inject_Z 0) in Hpos. rewrite <- Zle_Qle in Hpos.
      rewrite Z.abs_eq by lia. ring.
Qed.

End FloatFacts.

(* ================================================================== *)
(** ** str_to_time: the three shapes of format *)

Section StrToTimeFacts.

Context {L : PyLib}.
Import Py PyFacts.

Lemma str_to_time_frac (base s : pystr) :
  str_to_time s (base ++ FRAC) =
  if rfind s DOT =? -1 then Err (FractionalSecondsMissing s (base ++ FRAC))
  else fracsec <- py_float (slice_from s (rfind s DOT)) ;;
       epoch_plus fracsec (slice_to s (rfind s DOT)) base.
Proof.
  unfold str_to_time. rewrite endswith_app.
  destruct (rfind s DOT =? -1); [reflexivity|].
  change (-5) with (- len FRAC).
  rewrite slice_to_drop_suffix by discriminate.
  destruct (py_float _); reflexivity.
Qed.

(** A format that ends in [.OPTFRAC] does not end in [.FRAC]. *)
Lemma optfrac_not_frac (base : pystr) : endswith (base ++ OPTFRAC) FRAC = false.
Proof.
  unfold endswith. rewrite length_app.
  change (List.length OPTFRAC) with 8%nat. change (List.length FRAC) with 5%nat.
  replace (List.length base + 8 - 5)%nat with (List.length base + 3)%nat by lia.
  rewrite skipn_app.
  rewrite (skipn_all2 base) by lia.
  replace (List.length base + 3 - List.length base)%nat with 3%nat by lia.
  simpl skipn. rewrite app_nil_l.
  replace (str_eqb _ FRAC) with false by reflexivity.
  apply andb_false_r.
Qed.

Lemma str_to_time_optfrac (base s : pystr) :
  str_to_time s (base ++ OPTFRAC) =
  fracsec <- (if negb (rfind s DOT =? -1) && (1 <? len (slice_from s (rfind s DOT)))
              then py_float (slice_from s (rfind s DOT))
              else OK (Fin 0)) ;;
  epoch_plus fracsec (slice_to s (rfind s DOT)) base.
Proof.
  unfold str_to_time. rewrite optfrac_not_frac, endswith_app.
  change (-8) with (- len OPTFRAC).
  rewrite slice_to_drop_suffix by discriminate.
  match goal with |- context [bind ?m _] => destruct m; reflexivity end.
Qed.

(** With [.OPTFRAC] and no dot in [s], [rfind] gives [-1] and [s[:dotpos]] is
    [s[:-1]]: the text is read without its last character. *)
Lemma str_to_time_optfrac_no_dot (base s : pystr) :
  ~ In DOT s ->
  str_to_time s (base ++ OPTFRAC) = epoch_plus (Fin 0) (removelast s) base.
Proof.
  intros Hno. rewrite str_to_time_optfrac, rfind_absent by assumption.
  simpl. now rewrite slice_to_minus_one.
Qed.

Lemma str_to_time_optfrac_dot (base pre post : pystr) :
  ~ In DOT post ->
  str_to_time (pre ++ DOT :: post) (base ++ OPTFRAC) =
  fracsec <- (if 0 <? len post then py_float (DOT :: post) else OK (Fin 0)) ;;
  epoch_plus fracsec pre base.
Proof.
  intros Hno. rewrite str_to_time_optfrac, rfind_last by assumption.
  rewrite slice_from_app, slice_to_app.
  replace (len pre =? -1) with false
    by (symmetry; apply Z.eqb_neq; pose proof (len_nonneg pre); lia).
  replace (1 <? len (DOT :: post)) with (0 <? len post); [reflexivity|].
  unfold len. simpl List.length.
  destruct (0 <? Z.of_nat (List.length post)) eqn:E; symmetry.
  - apply Z.ltb_lt in E. apply Z.ltb_lt. lia.
  - apply Z.ltb_ge in E. apply Z.ltb_ge. lia.
Qed.

End StrToTimeFacts.

(* ================================================================== *)
(** ** unpack_fixed: one field *)

Section EffFacts.

Lemma ebind_ret {A B} (a : A) (k : A -> eff B) : (x <~ ret a ;; k x) = k a.
Proof. unfold ebind, ret. simpl. now destruct (k a). Qed.

Lemma ebind_lift_ok {A B} (a : A) (k : A -> eff B) : (x <~ lift (OK a) ;; k x) = k a.
Proof. apply ebind_ret. Qed.

Lemma ebind_lift_err {A B} (e : exn) (k : A -> eff B) :
  (x <~ lift (Err e) ;; k x) = raise e.
Proof. reflexivity. Qed.

Lemma ebind_raise {A B} (e : exn) (k : A -> eff B) : (x <~ raise e ;; k x) = raise e.
Proof. reflexivity. Qed.

Lemma ebind_calls_ok {A B} (t : list call) (a : A) (k : A -> eff B) :
  (x <~ (t, OK a) ;; k x) = (t ++ fst (k a), snd (k a)).
Proof. reflexivity. Qed.

Lemma ebind_ret_r {A B} (m : eff A) (f : A -> B) :
  (x <~ m ;; ret (f x)) =
  (fst m, match snd m with OK a => OK (f a) | Err e => Err e end).
Proof.
  unfold ebind, ret. destruct (snd m); simpl; [now rewrite app_nil_r | reflexivity].
Qed.

End EffFacts.

Section FieldFacts.

Context {L : PyLib}.
Variable globals : list pystr.
Variable line : pystr.
Variable callargs : list callback.

(** [field_step], case by case. *)
Lemma field_step_eq (st : state) (form : pystr) :
  field_step globals line callargs st form =
  match parse_form form with
  | Err e => raise e
  | OK fd =>
      match cast_table (f_typ fd) with
      | Err e => raise e
      | OK c0 =>
          if is_extra c0 then
            match py_index callargs (icall st) with
            | Err e => raise e
            | OK f => convert globals line st fd (CastCall (icall st) f) (icall st + 1)
            end
          else convert globals line st fd c0 (icall st)
      end
  end.
Proof.
  unfold field_step, parse_form.
  destruct (py_index form (-1)) as [last|e]; [|reflexivity].
  rewrite ebind_lift_ok. simpl bind.
  destruct (py_index (Py.rstrip_char "?" form) 0) as [typ|e]; [|reflexivity].
  rewrite ebind_lift_ok. simpl bind.
  destruct (py_int _) as [l|e]; [|reflexivity].
  rewrite ebind_lift_ok. simpl bind. cbv beta iota.
  simpl f_typ.
  destruct (cast_table typ) as [c0|e]; [|reflexivity].
  rewrite ebind_lift_ok.
  assert (Hconv : forall c ic,
    (values1 <~ (if negb (is_none c) then
                   if Ascii.eqb last "?" && Py.str_eqb (Py.strip (Py.slice line (ipos st) (ipos st + l))) []
                   then ret (values st ++ [VNone])
                   else try_except
                          (v <~ apply_cast c (Py.slice line (ipos st) (ipos st + l)) ;;
                           ret (values st ++ [v]))
                          (raise_global globals "SeisanResponseFileError"
                             (SeisanResponseFileError (ipos st) (ipos st + 1) line))
                 else ret (values st)) ;;
     ret {| ipos := ipos st + l; values := values1; icall := ic |}) =
    convert globals line st (mk_field typ l (Ascii.eqb last "?")) c ic).
  { intros c ic. unfold convert, advance, field_text, blank, cast_error. simpl.
    destruct (is_none c); simpl.
    - rewrite ebind_ret. now rewrite app_nil_r.
    - destruct (Ascii.eqb last "?" && _).
      + now rewrite ebind_ret.
      + unfold try_except, ebind, ret, raise_global, raise.
        destruct (apply_cast c _) as [t [v|e]]; simpl.
        * now rewrite !app_nil_r.
        * destruct (existsb _ globals); reflexivity. }
  destruct (is_extra c0).
  - destruct (py_index callargs (icall st)) as [f|e].
    + rewrite ebind_lift_ok, ebind_ret. apply Hconv.
    + reflexivity.
  - rewrite ebind_ret. apply Hconv.
Qed.

End FieldFacts.

(* ================================================================== *)
(** ** unpack_fixed: the whole format *)

Section UnpackFacts.

Context {L : PyLib}.
Variable globals : list pystr.
Variable line : pystr.
Variable callargs : list callback.

(** Case analysis on the type letter; the last case is a letter that is
    not in the table. *)
Ltac by_type typ :=
  destruct (Ascii.eqb typ "x") eqn:?Ex; [apply Ascii.eqb_eq in Ex; subst typ|];
  [|destruct (Ascii.eqb typ "A") eqn:?EA; [apply Ascii.eqb_eq in EA; subst typ|]];
  [| |destruct (Ascii.eqb typ "a") eqn:?Ea; [apply Ascii.eqb_eq in Ea; subst typ|]];
  [| | |destruct (Ascii.eqb typ "i") eqn:?Ei; [apply Ascii.eqb_eq in Ei; subst typ|]];
  [| | | |destruct (Ascii.eqb typ "f") eqn:?Ef; [apply Ascii.eqb_eq in Ef; subst typ|]];
  [| | | | |destruct (Ascii.eqb typ "@") eqn:?Eat; [apply Ascii.eqb_eq in Eat; subst typ|]].

Ltac unfold_field :=
  unfold field_value, field_calls, next_icall, is_skip, is_at, cast_table,
    convert, converted, advance, field_text, cast_error, raise_global, raise, ret in *;
  simpl f_typ in *; simpl f_width in *; simpl f_optional in *.

Lemma skip_is_not_at (fd : field) : is_skip fd = true -> is_at fd = false.
Proof.
  unfold is_skip, is_at. intros H. apply Ascii.eqb_eq in H. now rewrite H.
Qed.

(** A skip field only moves the cursor. *)
Lemma step_skip (st : state) (form : pystr) (fd : field) :
  parse_form form = OK fd -> is_skip fd = true ->
  field_step globals line callargs st form = ret (advance st fd [] (icall st)).
Proof.
  intros Hp Hs. rewrite field_step_eq, Hp.
  unfold is_skip in Hs. unfold cast_table. now rewrite Hs.
Qed.

(** A field that has a value appends it and moves the cursor. *)
Lemma step_value (st : state) (form : pystr) (fd : field) (v : value) :
  parse_form form = OK fd -> is_skip fd = false ->
  field_value line callargs fd (ipos st) (icall st) v ->
  field_step globals line callargs st form =
  (field_calls line fd (ipos st) (icall st),
   OK (advance st fd [v] (next_icall fd (icall st)))).
Proof.
  intros Hp Hs Hv. rewrite field_step_eq, Hp. clear Hp.
  destruct fd as [typ l opt]. unfold_field. revert Hs Hv.
  by_type typ; simpl; intros Hs Hv; try discriminate; try contradiction.
  - destruct (opt && _); simpl in *; congruence.
  - destruct (opt && _); simpl in *; congruence.
  - destruct (opt && _); simpl in *; [congruence|].
    destruct (py_int _); simpl in *; congruence.
  - destruct (opt && _); simpl in *; [congruence|].
    destruct (py_float _); simpl in *; congruence.
  - destruct Hv as (f & Hf & Hv). rewrite Hf.
    destruct (opt && _); simpl in *; [congruence|].
    rewrite Hv. reflexivity.
Qed.

(** What a completed step did. *)
Lemma step_ok (st st' : state) (form : pystr) :
  snd (field_step globals line callargs st form) = OK st' ->
  exists fd,
    parse_form form = OK fd /\
    ((is_skip fd = true /\ st' = advance st fd [] (icall st)) \/
     (is_skip fd = false /\
      exists v, field_value line callargs fd (ipos st) (icall st) v /\
                st' = advance st fd [v] (next_icall fd (icall st)))).
Proof.
  rewrite field_step_eq. destruct (parse_form form) as [fd|e]; [|discriminate].
  intros H. exists fd. split; [reflexivity|]. revert H.
  destruct fd as [typ l opt]. unfold_field.
  by_type typ; simpl; intros H; try discriminate.
  - left. split; [reflexivity | congruence].
  - right. split; [reflexivity|].
    destruct (opt && _); simpl in *; eexists; split; try reflexivity; congruence.
  - right. split; [reflexivity|].
    destruct (opt && _); simpl in *; eexists; split; try reflexivity; congruence.
  - right. split; [reflexivity|].
    destruct (opt && _); simpl in *; [eexists; split; [reflexivity | congruence]|].
    destruct (py_int _) as [n|e]; simpl in *.
    + eexists; split; [reflexivity | congruence].
    + destruct (existsb _ globals); discriminate.
  - right. split; [reflexivity|].
    destruct (opt && _); simpl in *; [eexists; split; [reflexivity | congruence]|].
    destruct (py_float _) as [n|e]; simpl in *.
    + eexists; split; [reflexivity | congruence].
    + destruct (existsb _ globals); discriminate.
  - right. split; [reflexivity|].
    destruct (py_index callargs (icall st)) as [f|e]; [|discriminate].
    simpl in H.
    destruct (opt && _) eqn:Eb; simpl in *.
    + exists VNone. split; [|congruence]. now exists f.
    + destruct (f _) as [v|e] eqn:Ecall; simpl in H.
      * exists v. split; [|congruence]. now exists f.
      * destruct (existsb _ globals); discriminate.
Qed.

Lemma ebind_ok {A B} (m : eff A) (k : A -> eff B) (b : B) :
  snd (x <~ m ;; k x) = OK b ->
  exists a, snd m = OK a /\ snd (k a) = OK b /\
            fst (x <~ m ;; k x) = fst m ++ fst (k a).
Proof.
  unfold ebind. destruct (snd m) as [a|e]; simpl; [|discriminate].
  intros H. now exists a.
Qed.

Lemma next_icall_count (fd : field) (ic : Z) :
  next_icall fd ic = ic + (if is_at fd then 1 else 0).
Proof. unfold next_icall. destruct (is_at fd); lia. Qed.

Lemma after_cons_skip st fd fds vs :
  is_skip fd = true ->
  after (advance st fd [] (icall st)) fds vs = after st (fd :: fds) vs.
Proof.
  intros Hs. unfold after, advance. simpl.
  rewrite (skip_is_not_at fd Hs), app_nil_r. f_equal; lia.
Qed.

Lemma after_cons_value st fd fds v vs :
  after (advance st fd [v] (next_icall fd (icall st))) fds vs = after st (fd :: fds) (v :: vs).
Proof.
  unfold after, advance. simpl. rewrite next_icall_count, <- app_assoc. simpl.
  f_equal; lia.
Qed.

(** The loop completes on fields that all have a value, with the calls of
    the fields in their order. *)
Lemma loop_complete (forms : list pystr) :
  forall (st : state) (fds : list field) (vs : list value),
    parse_forms forms = OK fds ->
    fields_values line callargs fds (ipos st) (icall st) vs ->
    loop globals line callargs forms st =
    (fields_calls line fds (ipos st) (icall st), OK (after st fds vs)).
Proof.
  induction forms as [|form rest IH]; intros st fds vs Hp Hv; simpl in Hp.
  - injection Hp as <-. inversion Hv; subst. simpl. unfold ret, after. simpl.
    rewrite app_nil_r, !Z.add_0_r. now destruct st.
  - destruct (parse_form form) as [fd|e] eqn:Hfd; [|discriminate]. simpl in Hp.
    destruct (parse_forms rest) as [fds'|e] eqn:Hrest; [|discriminate].
    injection Hp as <-. cbn [loop].
    inversion Hv as [|? ? ? ? ? Hs Hvs|? ? ? ? ? ? Hs Hval Hvs]; subst.
    + rewrite (step_skip st form fd Hfd Hs), ebind_ret.
      rewrite (IH (advance st fd [] (icall st)) fds' vs eq_refl Hvs).
      rewrite after_cons_skip by assumption. simpl ipos. simpl icall.
      cbn [fields_calls]. unfold field_calls, next_icall.
      now rewrite (skip_is_not_at fd Hs).
    + rewrite (step_value st form fd v Hfd Hs Hval), ebind_calls_ok.
      rewrite (IH (advance st fd [v] (next_icall fd (icall st))) fds' vs0 eq_refl Hvs).
      now rewrite after_cons_value.
Qed.

(** A loop that completes went through fields that all had a value. *)
Lemma loop_sound (forms : list pystr) :
  forall (st st' : state),
    snd (loop globals line callargs forms st) = OK st' ->
    exists fds vs,
      parse_forms forms = OK fds /\
      fields_values line callargs fds (ipos st) (icall st) vs /\
      st' = after st fds vs.
Proof.
  induction forms as [|form rest IH]; intros st st' H; simpl in H.
  - injection H as <-. exists [], []. repeat split; [constructor|].
    unfold after. simpl. rewrite app_nil_r, !Z.add_0_r. now destruct st.
  - apply ebind_ok in H. destruct H as (st1 & H1 & H2 & _).
    apply step_ok in H1. destruct H1 as (fd & Hfd & Hcase).
    apply IH in H2. destruct H2 as (fds & vs & Hp & Hv & ->).
    simpl parse_forms. rewrite Hfd, Hp. simpl.
    destruct Hcase as [(Hs & ->)|(Hs & v & Hval & ->)].
    + exists (fd :: fds), vs. repeat split.
      * apply FV_skip; assumption.
      * now apply after_cons_skip.
    + exists (fd :: fds), (v :: vs). repeat split.
      * apply FV_value; assumption.
      * apply after_cons_value.
Qed.

(** The call returns [vs] exactly when the fields of the format read and
    yield [vs], one value per field that is not a skip. *)
Lemma unpack_fixed_in_ok (format : pystr) (vs : list value) :
  outcome (unpack_fixed_in globals line callargs format) = OK vs <->
  exists fds,
    parse_forms (Py.split "," format) = OK fds /\ fields_values line callargs fds 0 0 vs.
Proof.
  unfold outcome, unpack_fixed_in. split.
  - intros H. apply ebind_ok in H. destruct H as (st & H1 & H2 & _).
    apply loop_sound in H1. destruct H1 as (fds & vs' & Hp & Hv & ->).
    simpl in H2. injection H2 as <-. now exists fds.
  - intros (fds & Hp & Hv).
    rewrite (loop_complete _ initial fds vs Hp Hv). reflexivity.
Qed.

(** The calls of a call that returns. *)
Lemma unpack_fixed_in_calls (format : pystr) (fds : list field) (vs : list value) :
  parse_forms (Py.split "," format) = OK fds -> fields_values line callargs fds 0 0 vs ->
  unpack_fixed_in globals line callargs format = (fields_calls line fds 0 0, OK vs).
Proof.
  intros Hp Hv. unfold unpack_fixed_in.
  rewrite (loop_complete _ initial fds vs Hp Hv). unfold ebind, ret. simpl.
  now rewrite app_nil_r.
Qed.

(** *** Callbacks *)

Lemma py_index_ok {A} (l : list A) (i : Z) (a : A) :
  0 <= i -> py_index l i = OK a -> i < Z.of_nat (List.length l).
Proof.
  unfold py_index. intros Hi.
  replace (i <? 0) with false by (symmetry; apply Z.ltb_ge; lia).
  destruct (i <? 0) eqn:E0; [apply Z.ltb_lt in E0; lia|]. simpl.
  destruct (Z.of_nat (List.length l) <=? i) eqn:E; [discriminate|].
  apply Z.leb_gt in E. intros _. lia.
Qed.

Lemma py_index_exhausted {A} (l : list A) (i : Z) :
  Z.of_nat (List.length l) <= i -> py_index l i = Err IndexError.
Proof.
  unfold py_index. intros Hi.
  replace (i <? 0) with false by (symmetry; apply Z.ltb_ge; lia).
  destruct (i <? 0) eqn:E0; [apply Z.ltb_lt in E0; lia|]. simpl.
  replace (Z.of_nat (List.length l) <=? i) with true by (symmetry; apply Z.leb_le; lia).
  reflexivity.
Qed.

(** An [@] field when [callargs[icall]] raises: the step raises the same,
    before the field's text is looked at and with no call made. *)
Lemma step_exhausted (st : state) (form : pystr) (fd : field) (e : exn) :
  parse_form form = OK fd -> is_at fd = true ->
  py_index callargs (icall st) = Err e ->
  field_step globals line callargs st form = raise e.
Proof.
  intros Hp Ha He. rewrite field_step_eq, Hp.
  unfold is_at in Ha. apply Ascii.eqb_eq in Ha. unfold cast_table. rewrite Ha. simpl.
  now rewrite He.
Qed.

(** A step calls at most one callback, the one at the callback index. *)
Lemma step_calls (st : state) (form : pystr) :
  fst (field_step globals line callargs st form) = [] \/
  exists s, fst (field_step globals line callargs st form) = [(icall st, s)].
Proof.
  rewrite field_step_eq. destruct (parse_form form) as [fd|e]; [|now left].
  destruct fd as [typ l opt]. unfold_field.
  by_type typ; simpl; try (now left).
  - destruct (opt && _); simpl; now left.
  - destruct (opt && _); simpl; now left.
  - destruct (opt && _); simpl; [now left|].
    destruct (py_int _); simpl; [now left|].
    destruct (existsb _ globals); now left.
  - destruct (opt && _); simpl; [now left|].
    destruct (py_float _); simpl; [now left|].
    destruct (existsb _ globals); now left.
  - destruct (py_index callargs (icall st)) as [f|e]; [|now left]. simpl.
    destruct (opt && _); simpl; [now left|]. right.
    destruct (f _); simpl; [eauto|].
    destruct (existsb _ globals); simpl; eauto.
Qed.

(** A completed step that made a call moved the callback index on by one;
    any completed step leaves it where it was or moves it on. *)
Lemma step_icall (st st' : state) (form : pystr) :
  snd (field_step globals line callargs st form) = OK st' ->
  icall st <= icall st' /\
  (fst (field_step globals line callargs st form) <> [] -> icall st' = icall st + 1).
Proof.
  intros H. destruct (step_ok st st' form H) as (fd & Hfd & [(Hs & ->)|(Hs & v & Hv & ->)]).
  - rewrite (step_skip st form fd Hfd Hs). simpl. split; [lia | congruence].
  - rewrite (step_value st form fd v Hfd Hs Hv). simpl.
    unfold field_calls, next_icall. destruct (is_at fd); simpl; split; try lia; congruence.
Qed.

(** Whatever the outcome, the calls of the loop take the callbacks at
    strictly increasing indices, none before the index the loop starts at. *)
Lemma loop_calls_increasing (forms : list pystr) :
  forall st : state,
    StronglySorted Z.lt (call_indices (loop globals line callargs forms st)) /\
    Forall (fun i => icall st <= i) (call_indices (loop globals line callargs forms st)).
Proof.
  unfold call_indices, invocations.
  induction forms as [|form rest IH]; intros st; cbn [loop].
  - simpl. split; constructor.
  - unfold ebind.
    destruct (snd (field_step globals line callargs st form)) as [st1|e] eqn:Hstep.
    + destruct (step_icall st st1 form Hstep) as (Hle & Hcall).
      destruct (IH st1) as (Hsorted & Hfrom).
      cbn [fst]. rewrite map_app.
      destruct (step_calls st form) as [Hnil|(s & Hone)].
      * rewrite Hnil. simpl. split; [assumption|].
        eapply Forall_impl; [|exact Hfrom]. simpl. intros. lia.
      * rewrite Hone in *. simpl. specialize (Hcall ltac:(discriminate)).
        split.
        -- constructor; [assumption|].
           eapply Forall_impl; [|exact Hfrom]. simpl. intros. lia.
        -- constructor; [lia|].
           eapply Forall_impl; [|exact Hfrom]. simpl. intros. lia.
    + cbn [fst]. destruct (step_calls st form) as [Hnil|(s & Hone)].
      * rewrite Hnil. simpl. split; constructor.
      * rewrite Hone. simpl. split; repeat constructor. lia.
Qed.

(** Fields that all yield a value need a callback for each [@] field. *)
Lemma fields_values_callbacks (fds : list field) (pos ic : Z) (vs : list value) :
  fields_values line callargs fds pos ic vs -> 0 <= ic ->
  count_at fds = 0 \/ ic + count_at fds <= Z.of_nat (List.length callargs).
Proof.
  assert (Hnn : forall l, 0 <= count_at l).
  { induction l as [|a l IHl]; simpl; [lia|]. destruct (is_at a); lia. }
  induction 1 as [|fd fds pos ic vs Hs _ IH|fd fds pos ic v vs Hs Hv _ IH]; intros Hic; simpl.
  - now left.
  - rewrite (skip_is_not_at fd Hs). destruct (IH Hic); [left|right]; lia.
  - rewrite next_icall_count in IH. destruct (is_at fd) eqn:Ha.
    + right. destruct (IH ltac:(lia)) as [H0|Hle]; [|lia].
      rewrite H0. unfold field_value, is_at in *.
      apply Ascii.eqb_eq in Ha. rewrite Ha in Hv. simpl in Hv.
      destruct Hv as (f & Hf & _). apply py_index_ok in Hf; lia.
    + destruct (IH ltac:(lia)); [left|right]; lia.
Qed.

Lemma loop_app (pre rest : list pystr) (st : state) :
  loop globals line callargs (pre ++ rest) st =
  (st' <~ loop globals line callargs pre st ;; loop globals line callargs rest st').
Proof.
  revert st. induction pre as [|form pre IH]; intros st; cbn [loop app].
  - now rewrite ebind_ret.
  - unfold ebind at 1 3.
    destruct (field_step globals line callargs st form) as [t [st1|e]]; simpl; [|reflexivity].
    rewrite IH. unfold ebind.
    destruct (snd (loop globals line callargs pre st1)); simpl; [|reflexivity].
    now rewrite app_assoc.
Qed.

End UnpackFacts.

(* ================================================================== *)
(** ** time_to_str: the fractional digits *)

Section TimeToStrFacts.

Context {L : PyLib}.

(** The format that [strftime] is given when the pattern first matches at
    [start]: the matched four characters are replaced by the text printed
    for them, less its first two characters; nothing after them changes. *)
Lemma time_to_str_match (t : pyfloat) (format : pystr) (start : nat) (group0 r : pystr) :
  re_frac_search format = Some (start, group0) ->
  percent_format group0 (Float.sub t (Float.floor t)) = OK r ->
  existsb (Ascii.eqb BACKSLASH) (Py.slice_from r 2) = false ->
  time_to_str t format =
  (tm <- gmtime (Float.floor t) ;;
   strftime (firstn start format ++ Py.slice_from r 2 ++ skipn (start + 4) format) tm).
Proof.
  intros Hm Hp Hb. unfold time_to_str. rewrite Hm, Hp. simpl. now rewrite Hb.
Qed.

(** A format without a match goes to [strftime] as it is. *)
Lemma time_to_str_no_match (t : pyfloat) (format : pystr) :
  re_frac_search format = None ->
  time_to_str t format = (tm <- gmtime (Float.floor t) ;; strftime format tm).
Proof. intros Hm. unfold time_to_str. now rewrite Hm. Qed.

(** The pattern has a wildcard where the directive has its dot: it also
    matches a percent sign followed by another character. *)
Lemma re_frac_wildcard (c d : ascii) (rest : pystr) :
  c <> NEWLINE -> Py.isdigit d = true ->
  re_frac_search ("%"%char :: c :: d :: "f"%char :: rest)
  = Some (0%nat, ["%"%char; c; d; "f"%char]).
Proof.
  intros Hc Hd. unfold re_frac_search. simpl. unfold re_frac_at.
  rewrite Hd. replace (Ascii.eqb c NEWLINE) with false; [reflexivity|].
  symmetry. now apply Ascii.eqb_neq.
Qed.

(** *** The fraction *)

(** [t - floor(t)] lies between [floor(t)] and the next integer. *)
Lemma frac_range (t : Q) :
  (0 <= t - inject_Z (Qfloor t))%Q /\ (t - inject_Z (Qfloor t) < 1)%Q.
Proof.
  pose proof (Qfloor_le t) as H0. pose proof (Qlt_floor t) as H1.
  rewrite inject_Z_plus in H1. change (inject_Z 1) with 1%Q in H1. split; lra.
Qed.

(** For a finite [t], [tfrac = t - math.floor(t)] in float arithmetic is a
    float from 0 to 1: the exact difference is below one, and its rounding
    can be one. *)
Lemma tfrac_range (t : Q) :
  exists x, Float.sub (Fin t) (Float.floor (Fin t)) = Fin x /\ (0 <= x)%Q /\ (x <= 1)%Q.
Proof.
  destruct (frac_range t) as (H0 & H1).
  unfold Float.sub, Float.floor, Float.neg.
  destruct (Qeq_bool (inject_Z (Qfloor t)) 0) eqn:E.
  - apply Qeq_bool_iff in E. exists t. split; [reflexivity|]. split; lra.
  - cbn [Float.add].
    assert (Hd : (t + Qred (- inject_Z (Qfloor t)) == t - inject_Z (Qfloor t))%Q)
      by (rewrite Qred_correct; ring).
    destruct (Qeq_bool (t + Qred (- inject_Z (Qfloor t))) 0);
      [exists 0%Q; split; [reflexivity | split; lra]|].
    apply round_double_unit; lra.
Qed.

(** *** The digits that are substituted *)

Lemma digits_fixed_length (n : nat) (r : Z) : List.length (digits_fixed n r) = n.
Proof.
  revert r. induction n as [|n IH]; intros r; simpl; [reflexivity|].
  rewrite length_app, IH. simpl. lia.
Qed.

Lemma digit_char_plain (d : Z) :
  0 <= d < 10 ->
  Py.isdigit (digit_char d) = true /\ Ascii.eqb BACKSLASH (digit_char d) = false.
Proof.
  intros H.
  assert (Hd : d = 0 \/ d = 1 \/ d = 2 \/ d = 3 \/ d = 4 \/ d = 5 \/ d = 6 \/ d = 7
               \/ d = 8 \/ d = 9) by lia.
  repeat (destruct Hd as [->|Hd]; [split; reflexivity|]). subst. split; reflexivity.
Qed.

(** The substituted text is made of digits; in particular it has no
    backslash. *)
Lemma digits_fixed_plain (n : nat) (r : Z) :
  forallb Py.isdigit (digits_fixed n r) = true /\
  existsb (Ascii.eqb BACKSLASH) (digits_fixed n r) = false.
Proof.
  revert r. induction n as [|n IH]; intros r; cbn [digits_fixed]; [now split|].
  destruct (IH (r / 10)) as (Hd & Hb).
  destruct (digit_char_plain (r mod 10)) as (Hd1 & Hb1);
    [apply Z.mod_pos_bound; lia|].
  rewrite forallb_app, existsb_app, Hd, Hb. cbn [forallb existsb].
  rewrite Hd1, Hb1. now split.
Qed.

(** For a fraction from 0 to 1, what is left of ['%.nf' % x] without its
    first two characters: [n] digits of the fraction rounded to [n] places.
    When the fraction rounds up to one, or is one, the leading [1.] is what
    was cut, and the digits are zeros. *)
Lemma fraction_digits (n : nat) (x : Q) :
  (0 <= x)%Q -> (x <= 1)%Q ->
  Py.slice_from (fixed_point n x) 2 =
  digits_fixed n (round_half_even (x * inject_Z (10 ^ Z.of_nat n)) mod 10 ^ Z.of_nat n).
Proof.
  intros H0 H1. unfold fixed_point.
  replace (Qabs x) with x
    by (destruct x as [a b]; unfold Qle in H0; simpl in *; f_equal; lia).
  destruct (Qlt_le_dec x 0) as [Hneg|_];
    [exfalso; eapply Qlt_not_le; eassumption|].
  set (m := 10 ^ Z.of_nat n).
  assert (Hm : 0 < m) by (apply Z.pow_pos_nonneg; lia).
  assert (HmQ : (0 < inject_Z m)%Q) by (change 0%Q with (inject_Z 0); now rewrite <- Zlt_Qlt).
  assert (Hr : 0 <= round_half_even (x * inject_Z m) <= m).
  { split.
    - apply round_half_even_ge. change (inject_Z 0) with 0%Q.
      apply Qmult_le_0_compat; lra.
    - apply round_half_even_le. rewrite <- (Qmult_1_l (inject_Z m)) at 2.
      apply Qmult_le_compat_r; lra. }
  set (r := round_half_even (x * inject_Z m)) in *.
  assert (Hq : r / m = 0 \/ r / m = 1).
  { destruct (Z.eq_dec r m) as [->|Hne].
    - right. apply Z.div_same. lia.
    - left. apply Z.div_small. lia. }
  assert (Hone : exists c, str_of_nonneg (r / m) = [c]).
  { destruct Hq as [->| ->]; eexists; reflexivity. }
  destruct Hone as (c & ->).
  destruct n as [|n']; [reflexivity|].
  cbn [app]. unfold Py.slice_from.
  replace (Py.norm_index _ 2) with 2; [reflexivity|].
  unfold Py.norm_index, Py.len. cbn [List.length].
  change (2 <? 0) with false. cbv beta iota zeta. lia.
Qed.

(** A float from 0 to 1 is printed in fixed point. *)
Lemma percent_format_fraction (d : ascii) (x : Q) :
  (0 <= x)%Q -> (x <= 1)%Q ->
  percent_format ["%"%char; DOT; d; "f"%char] (Fin x)
  = OK (fixed_point (Z.to_nat (Py.digit_value d)) x).
Proof.
  intros H0 H1. unfold percent_format, fixed_point_float.
  replace (Ascii.eqb DOT DOT) with true by reflexivity.
  replace (Qle_bool (inject_Z (10 ^ 50)) (Qabs x)) with false; [reflexivity|].
  symmetry. destruct (Qle_bool _ _) eqn:E; [|reflexivity].
  apply Qle_bool_iff in E. rewrite Qabs_pos in E by assumption.
  assert (1 < inject_Z (10 ^ 50))%Q by reflexivity. lra.
Qed.

(** When the first match of the pattern is a directive [%.Nf] and [t] is
    finite, the digits of the fraction take the place of the directive and
    the rest of the format is left as it is, later directives included.  The
    fraction is the float [t - math.floor(t)]. *)
Lemma time_to_str_directive (t : Q) (format : pystr) (start : nat) (d : ascii) :
  re_frac_search format = Some (start, ["%"%char; DOT; d; "f"%char]) ->
  exists tfrac : Q,
    Float.sub (Fin t) (Float.floor (Fin t)) = Fin tfrac
    /\ (0 <= tfrac)%Q /\ (tfrac <= 1)%Q
    /\ let n := Z.to_nat (Py.digit_value d) in
       let digits :=
         digits_fixed n (round_half_even (tfrac * inject_Z (10 ^ Z.of_nat n))
                         mod 10 ^ Z.of_nat n) in
       time_to_str (Fin t) format =
       (tm <- gmtime (Float.floor (Fin t)) ;;
        strftime (firstn start format ++ digits ++ skipn (start + 4) format) tm).
Proof.
  intros Hm. destruct (tfrac_range t) as (x & Hx & H0 & H1).
  exists x. split; [assumption|]. split; [assumption|]. split; [assumption|].
  intros n digits.
  rewrite (time_to_str_match (Fin t) format start _ (fixed_point n x) Hm).
  - now rewrite fraction_digits.
  - rewrite Hx. now apply percent_format_fraction.
  - rewrite fraction_digits by assumption. apply digits_fixed_plain.
Qed.

End TimeToStrFacts.

(* ================================================================== *)
(** * The claims about the time codec *)

(** C5.  With a format that ends in [.FRAC] and a text that has no dot,
    [str_to_time] raises [FractionalSecondsMissing] (the spec's
    MissingFractionalSeconds), whatever the library does: neither [float] nor
    [strptime] is reached.  The example of the claim is the text
    [2009-01-01 00:00:00] with the format [%Y-%m-%d %H:%M:%S.FRAC]. *)
Theorem str_to_time_frac_missing :
  (forall (L : PyLib) (base s : pystr),
     ~ In DOT s ->
     str_to_time s (base ++ FRAC) = Err (FractionalSecondsMissing s (base ++ FRAC)))
  /\ str_to_time (L := CPython) "2009-01-01 00:00:00" "%Y-%m-%d %H:%M:%S.FRAC"
     = Err (FractionalSecondsMissing "2009-01-01 00:00:00" "%Y-%m-%d %H:%M:%S.FRAC").
Proof.
  split; [|reflexivity].
  intros L base s Hno. rewrite str_to_time_frac, PyFacts.rfind_absent by assumption.
  reflexivity.
Qed.

Lemma str_to_time_frac_missing_witness :
  ~ In DOT (lit "12:30:00")
  /\ str_to_time (L := CPython) "12:30:00" (lit "%H:%M:%S" ++ FRAC)
     = Err (FractionalSecondsMissing "12:30:00" "%H:%M:%S.FRAC").
Proof.
  assert (H : ~ In DOT (lit "12:30:00")).
  { cbv. intuition discriminate. }
  split; [exact H|].
  exact (proj1 str_to_time_frac_missing CPython "%H:%M:%S" "12:30:00" H).
Defined.

(** C4.  With a format that ends in [.OPTFRAC] and a text whose last dot has
    at least one character after it, [str_to_time] gives the integer-second
    epoch of the text before the dot, read against the format without the
    marker, plus the float read from the dot and what follows it ([".5"] is
    [0.5]); an exception of [float] or of [strptime] ends the call, [float]
    first.  The sum is the float sum: for an epoch below [2^53] in size and a
    finite fraction it is the double nearest to the exact sum.  The example:
    [2009-01-01 00:00:00.5] is the epoch of 2009-01-01T00:00:00Z, 1230768000,
    plus one half, which is 2461536001/2; with [.1] for [.5] the sum is
    rounded, and with [.5e999] the fraction and the sum are infinite. *)
Theorem str_to_time_optfrac_fraction :
  (forall (L : PyLib) (base pre post : pystr),
     post <> [] -> ~ In DOT post ->
     str_to_time (pre ++ DOT :: post) (base ++ OPTFRAC) =
     (fracsec <- py_float (DOT :: post) ;;
      tm <- strptime pre base ;;
      add_int_float (timegm tm) fracsec))
  /\ (forall (n : Z) (x : Q),
        Z.abs n < 2 ^ 53 -> ~ (inject_Z n + x == 0)%Q ->
        add_int_float n (Fin x) = OK (Float.round_double (inject_Z n + x)))
  /\ (timegm (PyLib := CPython) (mk_time 2009 1 1 0 0 0) = 1230768000
      /\ py_float (PyLib := CPython) ".5" = OK (Fin (1 # 2))
      /\ str_to_time (L := CPython) "2009-01-01 00:00:00.5" "%Y-%m-%d %H:%M:%S.OPTFRAC"
         = OK (Fin (2461536001 # 2))
      /\ (2461536001 # 2 == inject_Z 1230768000 + (1 # 2))%Q
      /\ str_to_time (L := CPython) "2009-01-01 00:00:00.1" "%Y-%m-%d %H:%M:%S.OPTFRAC"
         = OK (Fin (2581107572945715 # 2097152))
      /\ str_to_time (L := CPython) "2009-01-01 00:00:00.5e999" "%Y-%m-%d %H:%M:%S.OPTFRAC"
         = OK (Inf false)).
Proof.
  split; [|split; [|repeat split; vm_compute; reflexivity]].
  - intros L base pre post Hne Hno.
    rewrite str_to_time_optfrac_dot by assumption.
    replace (0 <? Py.len post) with true; [reflexivity|].
    symmetry. apply Z.ltb_lt. unfold Py.len. destruct post; [congruence | simpl; lia].
  - intros n x Hn Hx. unfold add_int_float, Float.of_int.
    rewrite round_double_int by assumption. cbn [Float.add].
    destruct (Qeq_bool (inject_Z n + x) 0) eqn:E; [|reflexivity].
    apply Qeq_bool_iff in E. contradiction.
Qed.

Lemma str_to_time_optfrac_fraction_witness :
  lit "25" <> [] /\ ~ In DOT (lit "25")
  /\ str_to_time (L := CPython) (lit "2009-01-01 00:00:07" ++ DOT :: lit "25") (ISO ++ OPTFRAC)
     = OK (Fin (4923072029 # 4)).
Proof.
  assert (H1 : lit "25" <> []) by discriminate.
  assert (H2 : ~ In DOT (lit "25")) by (cbv; intuition discriminate).
  split; [exact H1|]. split; [exact H2|].
  rewrite (proj1 str_to_time_optfrac_fraction CPython ISO "2009-01-01 00:00:07" "25" H1 H2).
  vm_compute. reflexivity.
Defined.

(** C2 (the code differs).  With a format that ends in [.OPTFRAC] and a text
    that has no dot, [rfind] gives [-1] and the code still takes [s[:dotpos]],
    which is [s[:-1]]: the fractional seconds are zero, and the text is read
    without its last character.  [2009-01-01 00:00:00] still gives the epoch
    of that second, as [%S] accepts the one digit that is left;
    [2009-01-01 00:00:15] gives second 1, not second 15. *)
Theorem str_to_time_optfrac_no_dot_drops_last :
  (forall (L : PyLib) (base s : pystr),
     ~ In DOT s ->
     str_to_time s (base ++ OPTFRAC) =
     (tm <- strptime (removelast s) base ;; add_int_float (timegm tm) (Fin 0)))
  /\ str_to_time (L := CPython) "2009-01-01 00:00:00" "%Y-%m-%d %H:%M:%S.OPTFRAC"
     = OK (Fin (inject_Z 1230768000))
  /\ str_to_time (L := CPython) "2009-01-01 00:00:15" "%Y-%m-%d %H:%M:%S.OPTFRAC"
     = OK (Fin (inject_Z 1230768001))
  /\ epoch_plus (L := CPython) (Fin 0) "2009-01-01 00:00:15" "%Y-%m-%d %H:%M:%S"
     = OK (Fin (inject_Z 1230768015)).
Proof.
  split; [|repeat split; vm_compute; reflexivity].
  intros L base s Hno. now apply str_to_time_optfrac_no_dot.
Qed.

(** C1 (the code differs).  [time_to_str] prints the fraction with ['%.3f']
    and drops the first two characters of what is printed.  A fraction of
    0.9995 or more is printed as [1.000]; the carry is dropped with the
    [1.], and the second is not moved on.  For [t = 1234567890 + 2047/2048],
    which is a double, the text is [2009-02-13 23:31:30.000], which reads
    back as 1234567890: almost a second off.  Read back with the very format
    it was printed with, the text is refused by [strptime], for which [%.]
    is no directive. *)
Theorem time_round_trip_loses_carry :
  let t := (1234567890 + (2047 # 2048))%Q in
  time_to_str (L := CPython) (Fin t) "%Y-%m-%d %H:%M:%S.%.3f"
  = OK (lit "2009-02-13 23:31:30.000")
  /\ str_to_time (L := CPython) "2009-02-13 23:31:30.000" "%Y-%m-%d %H:%M:%S.OPTFRAC"
     = OK (Fin (inject_Z 1234567890))
  /\ str_to_time (L := CPython) "2009-02-13 23:31:30.000" "%Y-%m-%d %H:%M:%S.FRAC"
     = OK (Fin (inject_Z 1234567890))
  /\ str_to_time (L := CPython) "2009-02-13 23:31:30.000" "%Y-%m-%d %H:%M:%S.%.3f"
     = Err ValueError
  /\ ~ (Qabs (inject_Z 1234567890 - t) < 5 # 10000)%Q
  /\ Float.round_double t = Fin (Qred t).
Proof.
  repeat split; try (vm_compute; reflexivity).
  vm_compute. discriminate.
Qed.

(** C6 (the code differs).  The pattern is [%.\df] with the dot not
    escaped, so its second character is a wildcard.  In the format
    [%%1f%.3f] the first match is [%%1f], not the directive [%.3f]; applied to
    the fraction, [%%1f] is a literal percent sign that takes no argument, and
    the call raises [TypeError] for every [t].  When the first match is the
    directive itself the digits are substituted as the claim says: for
    [t = 1234567890.12345], the double that this literal denotes, and [%.3f]
    the result is [123]. *)
Theorem time_to_str_wildcard_match :
  (forall (L : PyLib) (t : pyfloat), time_to_str t "%%1f%.3f" = Err TypeError)
  /\ re_frac_search "%%1f%.3f" = Some (0%nat, lit "%%1f")
  /\ time_to_str (L := CPython) (Float.round_double (123456789012345 # 100000)) "%.3f"
     = OK (lit "123").
Proof.
  repeat split; try (vm_compute; reflexivity).
Qed.

(* ================================================================== *)
(** * The claims about the fixed-field unpacker *)

Lemma fields_values_length {L : PyLib} (line : pystr) (callargs : list callback)
      (fds : list field) (pos ic : Z) (vs : list value) :
  fields_values line callargs fds pos ic vs ->
  List.length vs = List.length (filter (fun fd => negb (is_skip fd)) fds).
Proof.
  induction 1 as [|fd fds pos ic vs Hs _ IH|fd fds pos ic v vs Hs _ _ IH]; simpl.
  - reflexivity.
  - now rewrite Hs.
  - rewrite Hs. simpl. now rewrite IH.
Qed.

(** C7.  [unpack_fixed] returns [vs] exactly when every field descriptor
    reads and the fields yield [vs]: one value per field that is not a skip,
    in the order of the descriptors, each field starting where the one before
    it ends; [A] yields its text, [a] the text stripped of blanks, [i] what
    [int] makes of it, [f] what [float] makes of it, and an optional field
    whose text is blank yields [None] ([field_value]).  The two examples of
    the claim follow; then an [a] field with blanks on both sides of its text,
    and [f] fields whose texts are not numbers: [float] makes NaN and an
    infinity of them. *)
Theorem unpack_fixed_values :
  (forall (L : PyLib) (format line : pystr) (callargs : list callback) (vs : list value),
     outcome (unpack_fixed format line callargs) = OK vs <->
     exists fds,
       parse_forms (Py.split "," format) = OK fds /\
       fields_values line callargs fds 0 0 vs /\
       List.length vs = List.length (filter (fun fd => negb (is_skip fd)) fds))
  /\ outcome (unpack_fixed (L := CPython) "A4,i2,f5?" "ABCD421.50" [])
     = OK [VStr "ABCD"; VInt 42; VFloat (Fin (3 # 2))]
  /\ outcome (unpack_fixed (L := CPython) "A4,i2,f5?" "ABCD42     " [])
     = OK [VStr "ABCD"; VInt 42; VNone]
  /\ outcome (unpack_fixed (L := CPython) "a6,A4,a3" "  ab  cd  e  " [])
     = OK [VStr "ab"; VStr "cd  "; VStr "e"]
  /\ outcome (unpack_fixed (L := CPython) "f4,f5,f6" "nan -inf 0.1  " [])
     = OK [VFloat NaN; VFloat (Inf true);
           VFloat (Fin (3602879701896397 # 36028797018963968))].
Proof.
  split; [|repeat split; vm_compute; reflexivity].
  intros L format line callargs vs. unfold unpack_fixed.
  rewrite unpack_fixed_in_ok. split.
  - intros (fds & Hp & Hv). exists fds. repeat split; try assumption.
    eapply fields_values_length; eassumption.
  - intros (fds & Hp & Hv & _). now exists fds.
Qed.

Lemma unpack_fixed_values_witness :
  outcome (unpack_fixed (L := CPython) "a3,x1,i2?" " ab-17" []) = OK [VStr "ab"; VInt 17].
Proof.
  apply (proj2 (proj1 unpack_fixed_values CPython "a3,x1,i2?" " ab-17" [] [VStr "ab"; VInt 17])).
  exists two_fields. split; [reflexivity|]. split; [|reflexivity].
  apply FV_value; [reflexivity | reflexivity |].
  apply FV_skip; [reflexivity|].
  apply FV_value; [reflexivity | reflexivity |].
  apply FV_nil.
Defined.

(** C8.  A step that completes moves the cursor on by the width its
    descriptor declares, whatever the type letter and whether or not the
    field is optional; a skip field with a width that reads always completes
    and does nothing else; so a loop that completes has moved the cursor by
    the sum of the declared widths. *)
Theorem cursor_advances_by_width :
  forall (L : PyLib) (globals : list pystr) (line : pystr) (callargs : list callback),
    (forall (st st' : state) (form : pystr),
       outcome (field_step globals line callargs st form) = OK st' ->
       exists fd, parse_form form = OK fd /\ ipos st' = ipos st + f_width fd)
    /\ (forall (st : state) (form : pystr) (fd : field),
          parse_form form = OK fd -> is_skip fd = true ->
          field_step globals line callargs st form =
          ret {| ipos := ipos st + f_width fd; values := values st; icall := icall st |})
    /\ (forall (forms : list pystr) (st st' : state),
          outcome (loop globals line callargs forms st) = OK st' ->
          exists fds,
            parse_forms forms = OK fds /\ ipos st' = ipos st + total_width fds).
Proof.
  intros L globals line callargs. unfold outcome. repeat split.
  - intros st st' form H.
    destruct (step_ok globals line callargs st st' form H)
      as (fd & Hfd & [(_ & ->)|(_ & v & _ & ->)]); exists fd; now split.
  - intros st form fd Hp Hs. rewrite (step_skip globals line callargs st form fd Hp Hs).
    unfold advance. now rewrite app_nil_r.
  - intros forms st st' H.
    destruct (loop_sound globals line callargs forms st st' H) as (fds & vs & Hp & _ & ->).
    exists fds. now split.
Qed.

Lemma cursor_advances_by_width_witness :
  exists st',
    outcome (loop (L := CPython) util_globals "ABCD421.50" []
               [lit "A4"; lit "x1"; lit "i1"; lit "f5?"] initial) = OK st'
    /\ ipos st' = 11.
Proof.
  eexists. split; [vm_compute; reflexivity|].
  destruct (proj2 (proj2 (cursor_advances_by_width CPython util_globals "ABCD421.50" []))
              [lit "A4"; lit "x1"; lit "i1"; lit "f5?"] initial _ eq_refl)
    as (fds & Hp & Hpos).
  vm_compute in Hp. injection Hp as <-. exact Hpos.
Defined.

(** C9.  The callbacks are taken from [callargs] in the order of the [@]
    fields, one for each.
    - Whatever the outcome of a call, the callbacks it invoked are at
      strictly increasing indices of [callargs], from 0 on: none is invoked
      twice, and they are invoked from left to right.
    - A call that returns went through fields that had a callback each, and
      invoked, for every [@] field that was not optional and blank, the
      callback whose index is the number of [@] fields before it, on the
      field's text ([fields_calls]).
    - When the fields before an [@] field complete and have used up
      [callargs], the call raises [IndexError] (the spec's CallbackExhausted);
      with more [@] fields than callbacks a call never returns.
    - The examples: [@3] on [xyz] with the one callback [s.upper()] gives
      [XYZ], and with no callback raises [IndexError]. *)
Theorem callbacks_in_field_order :
  (forall (L : PyLib) (format line : pystr) (callargs : list callback),
     StronglySorted Z.lt (call_indices (unpack_fixed format line callargs))
     /\ Forall (fun i => 0 <= i) (call_indices (unpack_fixed format line callargs)))
  /\ (forall (L : PyLib) (format line : pystr) (callargs : list callback) (vs : list value),
        outcome (unpack_fixed format line callargs) = OK vs ->
        exists fds,
          parse_forms (Py.split "," format) = OK fds
          /\ fields_values line callargs fds 0 0 vs
          /\ invocations (unpack_fixed format line callargs) = fields_calls line fds 0 0
          /\ count_at fds <= Z.of_nat (List.length callargs))
  /\ (forall (L : PyLib) (format line : pystr) (callargs : list callback)
             (pre post : list pystr) (form : pystr) (fds : list field) (fd : field)
             (vs : list value),
        Py.split "," format = pre ++ form :: post ->
        parse_forms pre = OK fds -> fields_values line callargs fds 0 0 vs ->
        parse_form form = OK fd -> is_at fd = true ->
        Z.of_nat (List.length callargs) <= count_at fds ->
        outcome (unpack_fixed format line callargs) = Err IndexError)
  /\ (forall (L : PyLib) (format line : pystr) (callargs : list callback) (fds : list field),
        parse_forms (Py.split "," format) = OK fds ->
        Z.of_nat (List.length callargs) < count_at fds ->
        exists e, outcome (unpack_fixed format line callargs) = Err e)
  /\ unpack_fixed (L := CPython) "@3" "xyz" [upper_cb] = ([(0, lit "xyz")], OK [VStr "XYZ"])
  /\ unpack_fixed (L := CPython) "@3" "xyz" [] = ([], Err IndexError).
Proof.
  split; [|split; [|split; [|split; [|split; vm_compute; reflexivity]]]].
  - intros L format line callargs. unfold unpack_fixed, unpack_fixed_in.
    destruct (loop_calls_increasing util_globals line callargs (Py.split "," format) initial)
      as (Hs & Hf).
    unfold call_indices, invocations in *. rewrite ebind_ret_r. simpl fst. now split.
  - intros L format line callargs vs H. unfold unpack_fixed in *.
    apply unpack_fixed_in_ok in H. destruct H as (fds & Hp & Hv).
    exists fds. repeat split; try assumption.
    + unfold invocations. now rewrite (unpack_fixed_in_calls _ _ _ _ fds vs Hp Hv).
    + destruct (fields_values_callbacks line callargs fds 0 0 vs Hv ltac:(lia)); lia.
  - intros L format line callargs pre post form fds fd vs Hsplit Hp Hv Hfd Hat Hlen.
    unfold outcome, unpack_fixed, unpack_fixed_in. rewrite Hsplit, loop_app.
    rewrite (loop_complete _ _ _ _ initial fds vs Hp Hv). cbn [loop].
    rewrite ebind_calls_ok.
    rewrite (step_exhausted _ _ _ _ form fd IndexError Hfd Hat).
    + reflexivity.
    + apply py_index_exhausted. simpl. lia.
  - intros L format line callargs fds Hp Hlt.
    destruct (outcome (unpack_fixed format line callargs)) as [vs|e] eqn:H; [|now exists e].
    exfalso. unfold unpack_fixed in H. apply unpack_fixed_in_ok in H.
    destruct H as (fds' & Hp' & Hv). rewrite Hp in Hp'. injection Hp' as <-.
    destruct (fields_values_callbacks line callargs fds 0 0 vs Hv ltac:(lia)); lia.
Qed.

Lemma callbacks_in_field_order_witness :
  outcome (unpack_fixed (L := CPython) "a2,@3,@1" "hixyz" [upper_cb]) = Err IndexError.
Proof.
  apply (proj1 (proj2 (proj2 callbacks_in_field_order)) CPython "a2,@3,@1" "hixyz" [upper_cb]
           [lit "a2"; lit "@3"] [] "@1"
           [ {| f_typ := "a"; f_width := 2; f_optional := false |};
             {| f_typ := "@"; f_width := 3; f_optional := false |} ]
           {| f_typ := "@"; f_width := 1; f_optional := false |}
           [VStr "hi"; VStr "XYZ"]).
  - reflexivity.
  - reflexivity.
  - apply FV_value; [reflexivity | reflexivity |].
    apply FV_value; [reflexivity | exists upper_cb; split; reflexivity |].
    apply FV_nil.
  - reflexivity.
  - reflexivity.
  - vm_compute. discriminate.
Defined.

(** C10.  An optional [@] field whose text is blank takes a callback all the
    same: with a callback left, the step appends [None], calls nothing and
    moves the callback index on by one; with none left it raises what
    [callargs[icall]] raises.  So in [@3?,@3] on three blanks and [xyz], it is
    the second callback that is given [xyz], though [xyz] is the first field
    that is not blank. *)
Theorem blank_optional_callback_consumed :
  (forall (L : PyLib) (globals : list pystr) (line : pystr) (callargs : list callback)
          (st : state) (form : pystr) (fd : field) (f : callback),
     parse_form form = OK fd -> is_at fd = true -> f_optional fd = true ->
     blank (field_text line fd (ipos st)) = true ->
     py_index callargs (icall st) = OK f ->
     field_step globals line callargs st form =
     ([], OK {| ipos := ipos st + f_width fd;
                values := values st ++ [VNone];
                icall := icall st + 1 |}))
  /\ (forall (L : PyLib) (globals : list pystr) (line : pystr) (callargs : list callback)
             (st : state) (form : pystr) (fd : field),
        parse_form form = OK fd -> is_at fd = true -> f_optional fd = true ->
        blank (field_text line fd (ipos st)) = true ->
        0 <= icall st -> Z.of_nat (List.length callargs) <= icall st ->
        field_step globals line callargs st form = ([], Err IndexError))
  /\ (forall (f g : callback) (v : value),
        g "xyz" = OK v ->
        unpack_fixed (L := CPython) "@3?,@3" "   xyz" [f; g]
        = ([(1, lit "xyz")], OK [VNone; v]))
  /\ (forall f : callback,
        unpack_fixed (L := CPython) "@3?,@3" "   xyz" [f] = ([], Err IndexError)).
Proof.
  split; [|split; [|split]].
  - intros L globals line callargs st form fd f Hp Hat Hopt Hblank Hf.
    assert (Hs : is_skip fd = false).
    { unfold is_skip, is_at in *. apply Ascii.eqb_eq in Hat. now rewrite Hat. }
    assert (Hv : field_value line callargs fd (ipos st) (icall st) VNone).
    { unfold field_value, is_at in *. apply Ascii.eqb_eq in Hat. rewrite Hat. simpl.
      exists f. split; [assumption|]. unfold converted. now rewrite Hopt, Hblank. }
    rewrite (step_value globals line callargs st form fd VNone Hp Hs Hv).
    unfold field_calls, next_icall, advance. now rewrite Hat, Hopt, Hblank.
  - intros L globals line callargs st form fd Hp Hat _ _ _ Hlen.
    apply (step_exhausted globals line callargs st form fd IndexError Hp Hat).
    now apply py_index_exhausted.
  - intros f g v Hg. unfold unpack_fixed.
    rewrite (unpack_fixed_in_calls util_globals "   xyz" [f; g] "@3?,@3"
               [ {| f_typ := "@"; f_width := 3; f_optional := true |};
                 {| f_typ := "@"; f_width := 3; f_optional := false |} ]
               [VNone; v]).
    + reflexivity.
    + reflexivity.
    + apply FV_value; [reflexivity | exists f; split; reflexivity |].
      apply FV_value; [reflexivity | exists g; split; [reflexivity | exact Hg] |].
      apply FV_nil.
  - intros f. reflexivity.
Qed.

Lemma blank_optional_callback_consumed_witness :
  field_step (L := CPython) util_globals "   xyz" [upper_cb; upper_cb] initial "@3?"
  = ([], OK {| ipos := 3; values := [VNone]; icall := 1 |}).
Proof.
  apply (proj1 blank_optional_callback_consumed CPython util_globals "   xyz"
           [upper_cb; upper_cb] initial "@3?"
           {| f_typ := "@"; f_width := 3; f_optional := true |} upper_cb);
    reflexivity.
Defined.

(** C3 (the code differs).  When the conversion of a field that is not
    optional raises, the handler evaluates
    [SeisanResponseFileError('... [%i:%i] ...' % (ipos, ipos+1, line))].
    No such name is bound in [util.py], so what the caller gets is a
    [NameError]; and were the name bound, the range in the message would be
    one character wide, [ipos:ipos+1], whatever the width of the field.  The
    field [i3] at offset 2 of [..abc] covers [2:5]; the message would say
    [2:3]. *)
Theorem conversion_error_is_not_reported :
  (forall (L : PyLib) (globals : list pystr) (line : pystr) (callargs : list callback)
          (st : state) (form : pystr) (fd : field) (e : exn),
     parse_form form = OK fd -> f_typ fd = "i"%char -> f_optional fd = false ->
     py_int (field_text line fd (ipos st)) = Err e ->
     field_step globals line callargs st form =
     raise_global globals "SeisanResponseFileError"
       (SeisanResponseFileError (ipos st) (ipos st + 1) line))
  /\ existsb (Py.str_eqb "SeisanResponseFileError") util_globals = false
  /\ unpack_fixed (L := CPython) "i3" "abc" []
     = ([], Err (NameError "SeisanResponseFileError"))
  /\ unpack_fixed_in (L := CPython) (lit "SeisanResponseFileError" :: util_globals)
       "..abc" [] "x2,i3"
     = ([], Err (SeisanResponseFileError 2 3 "..abc")).
Proof.
  split; [|repeat split; vm_compute; reflexivity].
  intros L globals line callargs st form fd e Hp Ht Ho He.
  rewrite field_step_eq, Hp. unfold cast_table. rewrite Ht. simpl.
  unfold convert, cast_error. simpl. rewrite Ho. simpl. rewrite He. simpl.
  unfold raise_global. destruct (existsb _ globals); reflexivity.
Qed.

(* ================================================================== *)
(** * base36encode, base36decode *)

Section Base36Facts.

Import Py PyFacts.

Lemma positional_snoc (ds : list Z) (d : Z) :
  positional (ds ++ [d]) = 36 * positional ds + d.
Proof. unfold positional. now rewrite fold_left_app. Qed.

Lemma py_index_nth (alphabet : pystr) (d : Z) :
  0 <= d < len alphabet ->
  py_index alphabet d = OK (nth (Z.to_nat d) alphabet "0"%char).
Proof.
  intros H. unfold py_index, len in *.
  replace (d <? 0) with false by (symmetry; apply Z.ltb_ge; lia).
  replace ((d <? 0) || (Z.of_nat (List.length alphabet) <=? d)) with false.
  - rewrite (nth_error_nth' alphabet "0"%char) by lia. reflexivity.
  - symmetry. apply orb_false_iff. split; [apply Z.ltb_ge | apply Z.leb_gt]; lia.
Qed.

(** The loop writes the digits of [number] in front of what it has, the last
    digit first; it raises at the first digit the alphabet has no character
    for. *)
Lemma base36_loop_digits (alphabet : pystr) (turns : nat) :
  forall (number : Z) (acc : pystr),
    0 <= number < 36 ^ Z.of_nat turns ->
    exists ds,
      Forall is_digit36 ds /\ positional ds = number
      /\ (number = 0 -> ds = []) /\ (number <> 0 -> 0 < hd 0 ds)
      /\ base36_loop turns alphabet number acc
         = Some (if in_alphabet alphabet ds then OK (digit_chars alphabet ds ++ acc)
                 else Err IndexError).
Proof.
  induction turns as [|turns IH]; intros number acc Hn.
  - assert (number = 0) by (simpl in Hn; lia). subst.
    exists []. repeat split; try constructor; try congruence.
  - cbn [base36_loop]. destruct (number =? 0) eqn:E0.
    + apply Z.eqb_eq in E0. subst. exists []. repeat split; try constructor; congruence.
    + apply Z.eqb_neq in E0.
      assert (Hd : 0 <= number mod 36 < 36) by (apply Z.mod_pos_bound; lia).
      assert (Hq : 0 <= number / 36 < 36 ^ Z.of_nat turns).
      { split; [apply Z.div_pos; lia|].
        apply Z.div_lt_upper_bound; [lia|].
        rewrite Nat2Z.inj_succ, Z.pow_succ_r in Hn by lia. lia. }
      destruct (IH (number / 36) (nth (Z.to_nat (number mod 36)) alphabet "0"%char :: acc) Hq)
        as (ds & Hall & Hpos & Hzero & Hhd & Hloop).
      exists (ds ++ [number mod 36]). repeat split.
      * apply Forall_app. split; [assumption | now constructor].
      * rewrite positional_snoc, Hpos. symmetry. apply Z.div_mod. lia.
      * congruence.
      * intros _. destruct ds as [|d ds'].
        -- simpl. assert (number / 36 = 0).
           { destruct (Z.eq_dec (number / 36) 0) as [H0|H0]; [assumption|].
             specialize (Hhd H0). simpl in Hhd. lia. }
           pose proof (Z.div_mod number 36 ltac:(lia)). lia.
        -- simpl. destruct (Z.eq_dec (number / 36) 0) as [H0|H0].
           ++ specialize (Hzero H0). discriminate.
           ++ exact (Hhd H0).
      * unfold in_alphabet. rewrite forallb_app. cbn [forallb]. rewrite andb_true_r.
        fold (in_alphabet alphabet ds).
        destruct (number mod 36 <? len alphabet) eqn:El.
        -- apply Z.ltb_lt in El. rewrite andb_true_r.
           rewrite py_index_nth by lia. rewrite Hloop.
           destruct (in_alphabet alphabet ds); [|reflexivity].
           unfold digit_chars. rewrite map_app, <- app_assoc. reflexivity.
        -- apply Z.ltb_ge in El. rewrite andb_false_r.
           rewrite py_index_exhausted by (unfold len in El; lia). reflexivity.
Qed.

Lemma base36_turns_enough (number : Z) :
  0 <= number -> number < 36 ^ Z.of_nat (base36_turns number).
Proof.
  intros H. unfold base36_turns.
  destruct (Z.eq_dec number 0) as [->|Hne]; [reflexivity|].
  pose proof (Z.log2_nonneg number) as Hl.
  rewrite Nat2Z.inj_succ, Z2Nat.id by assumption.
  destruct (Z.log2_spec number ltac:(lia)) as (_ & Hlt).
  eapply Z.lt_le_trans; [exact Hlt|].
  apply Z.pow_le_mono_l. lia.
Qed.

(** What [base36encode] does with a number that is not negative, for any
    alphabet. *)
Lemma base36encode_spec (alphabet : pystr) (number : Z) :
  0 <= number ->
  exists ds,
    ds <> [] /\ Forall is_digit36 ds /\ positional ds = number
    /\ (number <> 0 -> 0 < hd 0 ds)
    /\ base36encode number alphabet
       = Some (if in_alphabet alphabet ds then OK (digit_chars alphabet ds)
               else Err IndexError).
Proof.
  intros Hn. unfold base36encode.
  replace (number <? 0) with false by (symmetry; apply Z.ltb_ge; lia).
  destruct (number <? 36) eqn:E.
  - apply Z.ltb_lt in E. exists [number]. repeat split.
    + discriminate.
    + constructor; [split; lia | constructor].
    + cbn [hd]. lia.
    + unfold in_alphabet. cbn [forallb]. rewrite andb_true_r.
      destruct (number <? len alphabet) eqn:El.
      * apply Z.ltb_lt in El. rewrite py_index_nth by lia. reflexivity.
      * apply Z.ltb_ge in El.
        rewrite py_index_exhausted by (unfold len in El; lia). reflexivity.
  - apply Z.ltb_ge in E.
    destruct (base36_loop_digits alphabet (base36_turns number) number []
                (conj Hn (base36_turns_enough number Hn)))
      as (ds & Hall & Hpos & Hzero & Hhd & Hloop).
    exists ds. split; [|split; [assumption|split; [assumption|split]]].
    + intros ->. unfold positional in Hpos. simpl in Hpos. lia.
    + intros _. apply Hhd. lia.
    + rewrite Hloop. now rewrite app_nil_r.
Qed.

(** An alphabet of 36 characters or more has one for every digit. *)
Lemma in_alphabet_long (alphabet : pystr) (ds : list Z) :
  36 <= len alphabet -> Forall is_digit36 ds -> in_alphabet alphabet ds = true.
Proof.
  intros Ha Hall. unfold in_alphabet. apply forallb_forall. intros d Hin.
  rewrite Forall_forall in Hall. specialize (Hall d Hin). unfold is_digit36 in Hall.
  apply Z.ltb_lt. lia.
Qed.

Lemma BASE36_reads_back (d : Z) :
  is_digit36 d -> reads_back (Z.to_nat d) = true.
Proof.
  intros H.
  assert (Hall : forallb reads_back (seq 0 36) = true) by (vm_compute; reflexivity).
  rewrite forallb_forall in Hall. apply Hall. apply in_seq. unfold is_digit36 in H. lia.
Qed.

Lemma reads_back_inv (d : Z) :
  is_digit36 d ->
  let c := nth (Z.to_nat d) BASE36 "0"%char in
  digit36 c = Some d /\ isspace c = false /\ c <> "-"%char /\ c <> "+"%char.
Proof.
  intros H c. pose proof (BASE36_reads_back d H) as Hr. unfold reads_back in Hr.
  fold c in Hr. destruct (digit36 c) as [v|]; [|discriminate].
  repeat (apply andb_prop in Hr; destruct Hr as (Hr & ?)).
  apply Z.eqb_eq in Hr. unfold is_digit36 in H.
  repeat split.
  - f_equal. lia.
  - now apply negb_true_iff.
  - apply Ascii.eqb_neq. now apply negb_true_iff.
  - apply Ascii.eqb_neq. now apply negb_true_iff.
Qed.

Lemma value36_digit_chars (ds : list Z) :
  forall acc : Z,
    Forall is_digit36 ds ->
    value36 acc (digit_chars BASE36 ds) = OK (fold_left (fun a d => 36 * a + d) ds acc).
Proof.
  induction ds as [|d ds IH]; intros acc Hall; [reflexivity|].
  inversion Hall as [|? ? Hd Hrest]; subst.
  destruct (reads_back_inv d Hd) as (Hv & _).
  unfold digit_chars. cbn [map value36 fold_left]. rewrite Hv. now apply IH.
Qed.

Lemma dropwhile_no_space (s : pystr) :
  Forall (fun c => isspace c = false) s -> dropwhile isspace s = s.
Proof. destruct 1 as [|c r Hc _]; simpl; [reflexivity | now rewrite Hc]. Qed.

(** Text without blanks is left alone by [strip]. *)
Lemma strip_no_space (s : pystr) :
  Forall (fun c => isspace c = false) s -> strip s = s.
Proof.
  intros H. unfold strip, rstrip, lstrip.
  rewrite (dropwhile_no_space s H), dropwhile_no_space, rev_involutive; [reflexivity|].
  now apply Forall_rev.
Qed.

Lemma digit_chars_no_space (ds : list Z) :
  Forall is_digit36 ds -> Forall (fun c => isspace c = false) (digit_chars BASE36 ds).
Proof.
  induction 1 as [|d ds Hd _ IH]; unfold digit_chars; cbn [map]; constructor;
    [|assumption].
  now destruct (reads_back_inv d Hd) as (_ & Hs & _).
Qed.

(** [int(s, 36)] of the text [base36encode] writes. *)
Lemma int36_digit_chars (ds : list Z) :
  ds <> [] -> Forall is_digit36 ds ->
  int36 (digit_chars BASE36 ds) = OK (positional ds).
Proof.
  intros Hne Hall. unfold int36.
  rewrite strip_no_space by now apply digit_chars_no_space.
  destruct ds as [|d ds]; [congruence|].
  inversion Hall as [|? ? Hd Hrest]; subst.
  destruct (reads_back_inv d Hd) as (Hv & _ & Hminus & Hplus).
  cbn [digit_chars map CPythonLib.split_sign].
  apply Ascii.eqb_neq in Hminus, Hplus. rewrite Hminus, Hplus.
  change (nth (Z.to_nat d) BASE36 "0"%char :: map _ ds) with (digit_chars BASE36 (d :: ds)).
  rewrite value36_digit_chars by assumption. cbn [bind]. f_equal.
  unfold positional. lia.
Qed.

End Base36Facts.

(** X1.  Every number that is not negative is written by [base36encode] with
    the default alphabet, and [base36decode] reads the text back as the same
    number. *)
Theorem base36_round_trip (number : Z) :
  0 <= number ->
  exists s, base36encode number BASE36 = Some (OK s) /\ base36decode s = OK number.
Proof.
  intros Hn.
  destruct (base36encode_spec BASE36 number Hn) as (ds & Hne & Hall & Hpos & _ & Henc).
  rewrite in_alphabet_long in Henc by (try assumption; vm_compute; discriminate).
  exists (digit_chars BASE36 ds). split; [assumption|].
  unfold base36decode. rewrite int36_digit_chars by assumption. now rewrite Hpos.
Qed.

Lemma base36_round_trip_witness :
  0 <= 1234567890 /\
  exists s, base36encode 1234567890 BASE36 = Some (OK s)
            /\ base36decode s = OK 1234567890.
Proof.
  split; [lia|]. apply (base36_round_trip 1234567890). lia.
Defined.

(** X2.  What [base36encode] does with an integer, for any alphabet: its loop
    always ends.  A negative number raises [ValueError].  A number that is not negative has
    its base-36 digits, the most significant first, at least one, with no
    leading zero unless the number is zero: when the alphabet has a character
    for each of them the text returned has these characters, one per digit in
    this order, and when not the call raises [IndexError].  So an alphabet of
    36 characters or more never raises for such a number. *)
Theorem base36encode_positional (alphabet : pystr) (number : Z) :
  (number < 0 -> base36encode number alphabet = Some (Err ValueError))
  /\ (0 <= number ->
      exists ds,
        ds <> [] /\ Forall (fun d => 0 <= d < 36) ds
        /\ positional ds = number
        /\ (number <> 0 -> 0 < hd 0 ds)
        /\ (36 <= Py.len alphabet -> in_alphabet alphabet ds = true)
        /\ base36encode number alphabet
           = Some (if in_alphabet alphabet ds
                   then OK (map (fun d => nth (Z.to_nat d) alphabet "0"%char) ds)
                   else Err IndexError)).
Proof.
  split.
  - intros H. unfold base36encode.
    now replace (number <? 0) with true by (symmetry; apply Z.ltb_lt; lia).
  - intros Hn.
    destruct (base36encode_spec alphabet number Hn) as (ds & Hne & Hall & Hpos & Hhd & Henc).
    exists ds. repeat split; try assumption.
    intros Ha. now apply in_alphabet_long.
Qed.

Lemma base36encode_positional_witness :
  base36encode (-1) BASE36 = Some (Err ValueError)
  /\ exists ds,
       positional ds = 46655
       /\ base36encode 46655 "abcdefghijklmnopqrstuvwxyz0123456789"
          = Some (OK (map (fun d => nth (Z.to_nat d)
                                     (lit "abcdefghijklmnopqrstuvwxyz0123456789")
                                     "0"%char) ds)).
Proof.
  split.
  - apply (proj1 (base36encode_positional BASE36 (-1))). lia.
  - destruct (proj2 (base36encode_positional "abcdefghijklmnopqrstuvwxyz0123456789" 46655)
                ltac:(lia))
      as (ds & _ & _ & Hpos & _ & Hin & Henc).
    exists ds. split; [assumption|].
    rewrite Henc, Hin by (vm_compute; discriminate). reflexivity.
Defined.

(* ================================================================== *)
(** * gcd, lcm *)

Section GcdFacts.

Lemma negative_nonneg (q : Q) : Float.negative q = false -> (0 <= q)%Q.
Proof. unfold Float.negative. destruct (Qlt_le_dec q 0); [discriminate | trivial]. Qed.

(** [b > x] for a float [x] from 0 up to, and not including, one. *)
Lemma lt_int_unit (y : Q) (b : Z) :
  (0 <= y)%Q -> (y < 1)%Q -> Float.lt_int (Fin y) b = (1 <=? b).
Proof.
  intros H0 H1. unfold Float.lt_int.
  destruct (Qlt_le_dec y (inject_Z b)) as [H|H]; symmetry.
  - apply Z.leb_le. assert (Hb : (inject_Z 0 < inject_Z b)%Q) by (change (inject_Z 0) with 0%Q; lra).
    rewrite <- Zlt_Qlt in Hb. lia.
  - apply Z.leb_gt. assert (Hb : (inject_Z b < inject_Z 1)%Q) by (change (inject_Z 1) with 1%Q; lra).
    rewrite <- Zlt_Qlt in Hb. lia.
Qed.

(** The test of the loop, [b > epsilon*a], when [a] is a double and the
    product stays below one: it is [b >= 1]. *)
Lemma gcd_test_below (epsilon : Q) (a b : Z) :
  (0 <= epsilon)%Q -> 0 <= a ->
  (epsilon * inject_Z a <= BELOW_ONE)%Q ->
  Float.lt_int (Float.mul (Fin epsilon) (Fin (inject_Z a))) b = (1 <=? b).
Proof.
  intros He Ha Hp.
  assert (HaQ : (0 <= inject_Z a)%Q) by (change 0%Q with (inject_Z 0); now rewrite <- Zle_Qle).
  unfold Float.mul. cbn [Float.is_zero Float.signbit Float.value].
  rewrite (negative_false epsilon He), (negative_false (inject_Z a) HaQ). cbn [xorb].
  destruct (Qeq_bool epsilon 0 || Qeq_bool (inject_Z a) 0).
  - apply lt_int_unit; lra.
  - destruct (round_double_below_one (epsilon * inject_Z a)) as (y & -> & H0 & H1);
      [apply Qmult_le_0_compat; assumption | assumption|].
    now apply lt_int_unit.
Qed.

(** With a product [epsilon*a] that stays below one for the inputs below
    [bound], the loop goes on exactly while [b] is not zero: it is Euclid's
    algorithm. *)
Lemma gcd_loop_euclid (epsilon : Q) (bound : Z) (turns : nat) :
  forall a b : Z,
    (0 <= epsilon)%Q -> bound <= 2 ^ 53 ->
    (epsilon * inject_Z (bound - 1) <= BELOW_ONE)%Q ->
    0 <= a < bound -> 0 <= b < bound -> (Z.to_nat b < turns)%nat ->
    gcd_loop turns (Fin epsilon) a b = Some (Returns (Z.gcd a b)).
Proof.
  induction turns as [|turns IH]; intros a b He Hb Hp Ha Hbb Ht; [lia|].
  cbn [gcd_loop]. unfold Float.of_int.
  rewrite round_double_int by lia.
  rewrite gcd_test_below; try assumption; try lia.
  - destruct (1 <=? b) eqn:E.
    + apply Z.leb_le in E.
      replace (b =? 0) with false by (symmetry; apply Z.eqb_neq; lia).
      pose proof (Z.mod_pos_bound a b ltac:(lia)) as Hm.
      rewrite IH by (try assumption; lia).
      do 2 f_equal. rewrite Z.gcd_comm, Z.gcd_mod by lia. apply Z.gcd_comm.
    + apply Z.leb_gt in E. assert (b = 0) by lia. subst.
      rewrite Z.gcd_0_r, Z.abs_eq by lia. reflexivity.
  - eapply Qle_trans; [|exact Hp].
    rewrite (Qmult_comm epsilon (inject_Z a)), (Qmult_comm epsilon (inject_Z (bound - 1))).
    apply Qmult_le_compat_r; [|assumption]. rewrite <- Zle_Qle. lia.
Qed.

(** The loop keeps the greatest common divisor of [a] and [b], whatever
    [epsilon] makes it stop at. *)
Lemma gcd_loop_divides (epsilon : pyfloat) (turns : nat) :
  forall a b r : Z,
    gcd_loop turns epsilon a b = Some (Returns r) -> (Z.gcd a b | r).
Proof.
  induction turns as [|turns IH]; intros a b r H; cbn [gcd_loop] in H;
    destruct (Float.of_int a); try discriminate;
    destruct (Float.lt_int _ b); try discriminate;
    try (injection H as <-; apply Z.gcd_divide_l).
  destruct (b =? 0) eqn:E; [discriminate|]. apply Z.eqb_neq in E.
  apply IH in H. rewrite Z.gcd_comm, Z.gcd_mod in H by assumption.
  now rewrite Z.gcd_comm.
Qed.

(** The loop ends within [|b| + 1] turns, for any ints and any
    [epsilon]. *)
Lemma gcd_loop_ends (epsilon : pyfloat) (turns : nat) :
  forall a b : Z,
    (Z.to_nat (Z.abs b) < turns)%nat ->
    exists o, gcd_loop turns epsilon a b = Some o.
Proof.
  induction turns as [|turns IH]; intros a b Ht; [lia|].
  cbn [gcd_loop].
  destruct (Float.of_int a); [|now eexists].
  destruct (Float.lt_int _ b); [|now eexists].
  destruct (b =? 0) eqn:E; [now eexists|]. apply Z.eqb_neq in E.
  apply IH.
  destruct (Z.lt_ge_cases 0 b) as [Hpos|Hneg].
  - pose proof (Z.mod_pos_bound a b Hpos). lia.
  - pose proof (Z.mod_neg_bound a b ltac:(lia)). lia.
Qed.

(** With an [epsilon] and an [a] that are not negative, the test holds only
    for a positive [b]. *)
Lemma gcd_test_positive (epsilon : pyfloat) (a b : Z) :
  Float.signbit epsilon = false -> 0 <= a ->
  Float.lt_int (Float.mul epsilon (Fin (inject_Z a))) b = true -> 0 < b.
Proof.
  intros Hs Ha.
  assert (HaQ : (0 <= inject_Z a)%Q) by (change 0%Q with (inject_Z 0); now rewrite <- Zle_Qle).
  assert (Hpos : forall y, (0 <= y)%Q -> Float.lt_int (Fin y) b = true -> 0 < b).
  { intros y Hy. unfold Float.lt_int. destruct (Qlt_le_dec y (inject_Z b)) as [H|H]; [|discriminate].
    intros _. assert (Hb : (inject_Z 0 < inject_Z b)%Q) by (change (inject_Z 0) with 0%Q; lra).
    now rewrite <- Zlt_Qlt in Hb. }
  destruct epsilon as [q| |s|]; cbn [Float.signbit] in Hs; try discriminate.
  - apply negative_nonneg in Hs.
    unfold Float.mul. cbn [Float.is_zero Float.signbit Float.value].
    rewrite (negative_false q Hs), (negative_false (inject_Z a) HaQ). cbn [xorb].
    destruct (Qeq_bool q 0 || Qeq_bool (inject_Z a) 0); [apply Hpos; lra|].
    destruct (round_double_nonneg (q * inject_Z a)) as [-> | (y & -> & Hy)];
      [apply Qmult_le_0_compat; assumption | discriminate | now apply Hpos].
  - subst s. unfold Float.mul. cbn [Float.is_zero Float.signbit].
    rewrite (negative_false (inject_Z a) HaQ).
    destruct (Qeq_bool (inject_Z a) 0); discriminate.
Qed.

(** From ints below [2^53] with an [a] and an [epsilon] that are not
    negative, the loop never raises, and what it returns is not negative. *)
Lemma gcd_loop_returns (epsilon : pyfloat) (turns : nat) :
  forall a b : Z,
    Float.signbit epsilon = false -> 0 <= a < 2 ^ 53 -> b < 2 ^ 53 ->
    (Z.to_nat (Z.abs b) < turns)%nat ->
    exists r, gcd_loop turns epsilon a b = Some (Returns r) /\ 0 <= r.
Proof.
  induction turns as [|turns IH]; intros a b He Ha Hb Ht; [lia|]. cbn [gcd_loop].
  unfold Float.of_int. rewrite round_double_int by lia.
  destruct (Float.lt_int _ b) eqn:E; [|exists a; split; [reflexivity | lia]].
  apply gcd_test_positive in E; [|assumption|lia].
  replace (b =? 0) with false by (symmetry; apply Z.eqb_neq; lia).
  pose proof (Z.mod_pos_bound a b ltac:(lia)).
  apply IH; [assumption | lia | lia | lia].
Qed.

(** The float of the literal [1e-7]. *)
Lemma EPSILON_value : EPSILON = Fin (944473296573929 # 9444732965739290427392).
Proof. vm_compute. reflexivity. Qed.

(** [gcd] with the default [epsilon], below ten million. *)
Lemma gcd_is_greatest_common_divisor_aux (a b : Z) :
  0 <= a < 10000000 -> 0 <= b < 10000000 ->
  gcd a b EPSILON = Some (Returns (Z.gcd a b)).
Proof.
  intros Ha Hb. unfold gcd, gcd_turns. rewrite EPSILON_value.
  apply (gcd_loop_euclid _ 10000000); try assumption; try discriminate. lia.
Qed.

End GcdFacts.

(** X3.  On ints from 0 up to, and not including, ten million, [gcd] with
    its default [epsilon] is the greatest common divisor: the tolerance only
    stops the loop when [b] is zero.  The same holds for any finite [epsilon]
    that is not negative and any bound up to [2^53] such that the exact
    product of [epsilon] and the largest input is at most the largest float
    below one; there the float product stays below one too.  Beyond such a
    bound the result can differ: with [epsilon = 2^-60], [gcd(2^60-1, 1)] is
    [2^60-1]. *)
Theorem gcd_is_greatest_common_divisor :
  (forall (epsilon : Q) (bound a b : Z),
     (0 <= epsilon)%Q -> bound <= 2 ^ 53 ->
     (epsilon * inject_Z (bound - 1) <= BELOW_ONE)%Q ->
     0 <= a < bound -> 0 <= b < bound ->
     gcd a b (Fin epsilon) = Some (Returns (Z.gcd a b)))
  /\ (forall a b : Z,
        0 <= a < 10000000 -> 0 <= b < 10000000 ->
        gcd a b EPSILON = Some (Returns (Z.gcd a b)))
  /\ gcd (2 ^ 60 - 1) 1 (Fin (1 # 2 ^ 60)) = Some (Returns (2 ^ 60 - 1)).
Proof.
  split; [|split; [|vm_compute; reflexivity]].
  - intros epsilon bound a b He Hb Hp Ha Hbb. unfold gcd, gcd_turns.
    apply (gcd_loop_euclid epsilon bound); try assumption. lia.
  - intros a b Ha Hb. unfold gcd, gcd_turns. rewrite EPSILON_value.
    apply (gcd_loop_euclid _ 10000000); try assumption; try discriminate. lia.
Qed.

Lemma gcd_is_greatest_common_divisor_witness :
  gcd 9999990 3600 EPSILON = Some (Returns 90)
  /\ gcd 84 36 (Fin (1 # 128)) = Some (Returns 12).
Proof.
  split.
  - apply (proj1 (proj2 gcd_is_greatest_common_divisor) 9999990 3600); lia.
  - apply (proj1 gcd_is_greatest_common_divisor (1 # 128) 100 84 36).
    + discriminate.
    + vm_compute. discriminate.
    + vm_compute. discriminate.
    + lia.
    + lia.
Defined.

(** X4.  The loop of [gcd] ends for any ints and any [epsilon], and what
    [gcd] returns is a multiple of the greatest common divisor of [a] and
    [b], however early the tolerance stops the loop.  On ints below [2^53]
    with an [a] and an [epsilon] that are not negative it does return, a
    number that is not negative.  It can be a proper multiple:
    [gcd(10**8, 3)] is [10**8], and, by the rounding of the product,
    [gcd(10**16-1, 10**9)] is [10**16-1].  An int too large for a float
    raises [OverflowError]. *)
Theorem gcd_returns_a_multiple :
  (forall (epsilon : pyfloat) (a b : Z),
     exists o, gcd a b epsilon = Some o
               /\ forall r, o = Returns r -> (Z.gcd a b | r))
  /\ (forall (epsilon : pyfloat) (a b : Z),
        Float.signbit epsilon = false -> 0 <= a < 2 ^ 53 -> b < 2 ^ 53 ->
        exists r, gcd a b epsilon = Some (Returns r) /\ 0 <= r)
  /\ gcd 100000000 3 EPSILON = Some (Returns 100000000)
  /\ gcd (10 ^ 16 - 1) (10 ^ 9) EPSILON = Some (Returns (10 ^ 16 - 1))
  /\ gcd (10 ^ 400) 1 EPSILON = Some (Raises OverflowError).
Proof.
  split; [|split; [|repeat split; vm_compute; reflexivity]].
  - intros epsilon a b. unfold gcd.
    destruct (gcd_loop_ends epsilon (gcd_turns b) a b) as (o & Ho);
      [unfold gcd_turns; lia|].
    exists o. split; [assumption|]. intros r ->.
    now apply (gcd_loop_divides epsilon (gcd_turns b)).
  - intros epsilon a b He Ha Hb. unfold gcd.
    apply gcd_loop_returns; try assumption. unfold gcd_turns. lia.
Qed.

Lemma gcd_returns_a_multiple_witness :
  exists r, gcd 84 36 (Fin (1 # 2)) = Some (Returns r) /\ 0 <= r.
Proof.
  apply (proj1 (proj2 gcd_returns_a_multiple) (Fin (1 # 2)) 84 36); [reflexivity | lia | lia].
Defined.

(** X5.  On integers from 0 up to, and not including, ten million, [lcm] is
    the least common multiple, except that [lcm(0, 0)] raises
    [ZeroDivisionError]: [gcd(0, 0)] is 0 and [lcm] divides by it. *)
Theorem lcm_is_least_common_multiple :
  (forall a b : Z,
     0 <= a < 10000000 -> 0 <= b < 10000000 -> (a <> 0 \/ b <> 0) ->
     lcm a b = Some (Returns (Z.lcm a b)))
  /\ lcm 0 0 = Some (Raises ZeroDivisionError).
Proof.
  split; [|reflexivity].
  intros a b Ha Hb Hnz. unfold lcm.
  rewrite (gcd_is_greatest_common_divisor_aux a b Ha Hb).
  assert (Hg : Z.gcd a b <> 0).
  { intros H0. apply Z.gcd_eq_0 in H0. lia. }
  replace (Z.gcd a b =? 0) with false by (symmetry; now apply Z.eqb_neq).
  do 2 f_equal. unfold Z.lcm.
  pose proof (Z.gcd_nonneg a b).
  destruct (Z.gcd_divide_r a b) as (k & Hk).
  assert (Hbk : b / Z.gcd a b = k) by (rewrite Hk at 1; apply Z.div_mul; assumption).
  rewrite Hbk.
  assert (0 <= k) by nia.
  rewrite Z.abs_eq by nia.
  rewrite Hk at 1. rewrite Z.mul_assoc. apply Z.div_mul. assumption.
Qed.

Lemma lcm_is_least_common_multiple_witness :
  lcm 12 18 = Some (Returns 36).
Proof.
  apply (proj1 lcm_is_least_common_multiple 12 18); lia.
Defined.

(* ================================================================== *)
(** * mk_decitab, decitab *)

Section DecitabFacts.

Lemma in_range (a b x : Z) : In x (range a b) <-> a <= x < b.
Proof.
  unfold range. rewrite in_map_iff. split.
  - intros (k & <- & Hk). apply in_seq in Hk. lia.
  - intros H. exists (Z.to_nat (x - a)). split; [lia|]. apply in_seq. lia.
Qed.

Lemma range_cons (a b : Z) : a < b -> range a b = a :: range (a + 1) b.
Proof.
  intros H. unfold range.
  replace (Z.to_nat (b - a)) with (S (Z.to_nat (b - (a + 1)))) by lia.
  cbn [seq map]. f_equal; [lia|].
  rewrite <- seq_shift, map_map. apply map_ext. intros k. lia.
Qed.

Lemma range_nil (a b : Z) : b <= a -> range a b = [].
Proof. intros H. unfold range. now replace (Z.to_nat (b - a)) with 0%nat by lia. Qed.

Lemma fold_left_unchanged {S A} (f : S -> A -> S) (xs : list A) (s : S) :
  (forall x s', In x xs -> f s' x = s') -> fold_left f xs s = s.
Proof.
  revert s. induction xs as [|x xs IH]; intros s H; simpl; [reflexivity|].
  rewrite H by now left. apply IH. intros; apply H; now right.
Qed.

(** A loop over a range whose [break] only skips turns that would change
    nothing is the plain loop. *)
Lemma for_break_range {S} (body : Z -> S -> S * bool) (b : Z) (n : nat) :
  forall (a : Z) (s : S),
    Z.to_nat (b - a) = n ->
    (forall x x' s1 s2, a <= x < x' -> x' < b ->
                        snd (body x s1) = true -> fst (body x' s2) = s2) ->
    for_break (range a b) body s = fold_left (fun s x => fst (body x s)) (range a b) s.
Proof.
  induction n as [|n IH]; intros a s Hn Hskip.
  - now rewrite range_nil by lia.
  - rewrite range_cons by lia. cbn [for_break fold_left].
    destruct (body a s) as [s' stop] eqn:Hb. cbn [fst]. destruct stop.
    + symmetry. apply fold_left_unchanged. intros x s2 Hx. apply in_range in Hx.
      apply (Hskip a x s s2); [lia | lia | now rewrite Hb].
    + apply IH; [lia|]. intros x x' s1 s2 Hx Hx'. apply Hskip; lia.
Qed.

Lemma for_break_ext {S} (body1 body2 : Z -> S -> S * bool) (xs : list Z) :
  forall s : S,
    (forall x s', In x xs -> body1 x s' = body2 x s') ->
    for_break xs body1 s = for_break xs body2 s.
Proof.
  induction xs as [|x xs IH]; intros s H; cbn [for_break]; [reflexivity|].
  rewrite H by now left. destruct (body2 x s) as [s' stop]. destruct stop; [reflexivity|].
  apply IH. intros; apply H; now right.
Qed.

Lemma product_above (nmax q x x' r : Z) :
  1 <= q -> 1 <= x < x' -> 1 <= r -> nmax < q * x -> nmax < q * x' * r.
Proof.
  intros Hq Hx Hr Hb.
  assert (q * x <= q * x') by nia.
  assert (q * x' <= q * x' * r) by nia.
  lia.
Qed.

Lemma fold_left_flat_map {S A B} (f : S -> B -> S) (g : A -> list B) (xs : list A) :
  forall s : S,
    fold_left (fun s x => fold_left f (g x) s) xs s = fold_left f (flat_map g xs) s.
Proof.
  induction xs as [|x xs IH]; intros s; simpl; [reflexivity|].
  now rewrite fold_left_app, IH.
Qed.

(** One level of the loops: the sequences [seqs x] are added for each [x],
    and the loop breaks after an [x] whose [bound x] is above [nmax]; when
    that leaves only sequences with a product above [nmax], the level adds
    the sequences of all [x]. *)
Lemma level_flat (nmax b : Z) (seqs : Z -> list factors) (bound : Z -> Z) (tab : table) :
  (forall x x' t, 1 <= x < x' -> x' < b -> nmax < bound x -> In t (seqs x') ->
                  nmax < product t) ->
  for_break (range 1 b)
    (fun x tab => (fold_left (add_sequence nmax) (seqs x) tab, bound x >? nmax)) tab
  = fold_left (add_sequence nmax) (flat_map seqs (range 1 b)) tab.
Proof.
  intros Hmono.
  rewrite (for_break_range _ b (Z.to_nat (b - 1)) 1 tab eq_refl).
  - cbn [fst]. apply fold_left_flat_map.
  - intros x x' s1 s2 Hx Hx' Hstop. cbn [fst snd] in *.
    apply Z.gtb_lt in Hstop. apply fold_left_unchanged. intros t s' Ht.
    unfold add_sequence.
    replace (product t >? nmax) with true; [reflexivity|].
    symmetry. apply Z.gtb_lt. eapply Hmono; eassumption.
Qed.

Lemma flat_map_singleton {A B} (f : A -> B) (xs : list A) :
  flat_map (fun x => [f x]) xs = map f xs.
Proof. induction xs as [|x xs IH]; simpl; congruence. Qed.

(** The loops of [mk_decitab] add every sequence, in the order of
    [all_sequences]; the [break]s skip nothing that would be added. *)
Lemma mk_decitab_table_flat (nmax : Z) (tab : table) :
  mk_decitab_table nmax tab = fold_left (add_sequence nmax) all_sequences tab.
Proof.
  unfold mk_decitab_table, all_sequences.
  (* the loop over m *)
  assert (Hm : forall i j k l tab,
    1 <= i -> 1 <= j -> 1 <= k -> 1 <= l ->
    for_break (range 1 (l + 1)) (fun m tab =>
       let p := i * j * k * l * m in
       if p >? nmax then (tab, true)
       else (if negb (tab_mem tab p) then tab_set tab p (i, j, k, l, m) else tab, false)) tab
    = fold_left (add_sequence nmax) (map (fun m => (i, j, k, l, m)) (range 1 (l + 1))) tab).
  { intros i j k l tab0 Hi Hj Hk Hl.
    rewrite <- flat_map_singleton.
    rewrite <- (level_flat nmax (l + 1) (fun m => [(i, j, k, l, m)])
                  (fun m => i * j * k * l * m)).
    - apply for_break_ext. intros m s _. cbn [fold_left]. unfold add_sequence, product.
      cbv zeta. destruct (i * j * k * l * m >? nmax); reflexivity.
    - intros x x' t Hx Hx' Hb [<-|[]]. unfold product.
      replace (i * j * k * l * x') with (i * j * k * l * x' * 1) by lia.
      apply (product_above nmax (i * j * k * l) x x' 1); try lia;
        (assert (1 <= i * j) by nia; assert (1 <= i * j * k) by nia; nia). }
  (* the loop over l *)
  assert (Hl : forall i j k tab,
    1 <= i -> 1 <= j -> 1 <= k ->
    for_break (range 1 (k + 1)) (fun l tab =>
      (for_break (range 1 (l + 1)) (fun m tab =>
         let p := i * j * k * l * m in
         if p >? nmax then (tab, true)
         else (if negb (tab_mem tab p) then tab_set tab p (i, j, k, l, m) else tab, false)) tab,
       i * j * k * l >? nmax)) tab
    = fold_left (add_sequence nmax)
        (flat_map (fun l => map (fun m => (i, j, k, l, m)) (range 1 (l + 1)))
           (range 1 (k + 1))) tab).
  { intros i j k tab0 Hi Hj Hk.
    rewrite <- (level_flat nmax (k + 1)
                  (fun l => map (fun m => (i, j, k, l, m)) (range 1 (l + 1)))
                  (fun l => i * j * k * l)).
    - apply for_break_ext. intros l s Hin. apply in_range in Hin.
      now rewrite Hm by lia.
    - intros x x' t Hx Hx' Hb Ht. apply in_map_iff in Ht. destruct Ht as (m & <- & Hin).
      apply in_range in Hin. unfold product.
      apply (product_above nmax (i * j * k) x x' m); try lia;
        (assert (1 <= i * j) by nia; nia). }
  (* the loop over k *)
  assert (Hk : forall i j tab,
    1 <= i -> 1 <= j ->
    for_break (range 1 (j + 1)) (fun k tab =>
      (for_break (range 1 (k + 1)) (fun l tab =>
        (for_break (range 1 (l + 1)) (fun m tab =>
           let p := i * j * k * l * m in
           if p >? nmax then (tab, true)
           else (if negb (tab_mem tab p) then tab_set tab p (i, j, k, l, m) else tab, false)) tab,
         i * j * k * l >? nmax)) tab,
       i * j * k >? nmax)) tab
    = fold_left (add_sequence nmax)
        (flat_map (fun k =>
           flat_map (fun l => map (fun m => (i, j, k, l, m)) (range 1 (l + 1)))
             (range 1 (k + 1)))
           (range 1 (j + 1))) tab).
  { intros i j tab0 Hi Hj.
    rewrite <- (level_flat nmax (j + 1)
                  (fun k => flat_map (fun l => map (fun m => (i, j, k, l, m)) (range 1 (l + 1)))
                              (range 1 (k + 1)))
                  (fun k => i * j * k)).
    - apply for_break_ext. intros k s Hin. apply in_range in Hin.
      now rewrite Hl by lia.
    - intros x x' t Hx Hx' Hb Ht.
      apply in_flat_map in Ht. destruct Ht as (l & Hinl & Ht). apply in_range in Hinl.
      apply in_map_iff in Ht. destruct Ht as (m & <- & Hin).
      apply in_range in Hin. unfold product.
      replace (i * j * x' * l * m) with (i * j * x' * (l * m)) by ring.
      apply (product_above nmax (i * j) x x' (l * m)); try lia; nia. }
  (* the loop over j *)
  assert (Hj : forall i tab,
    1 <= i ->
    for_break (range 1 (i + 1)) (fun j tab =>
      (for_break (range 1 (j + 1)) (fun k tab =>
        (for_break (range 1 (k + 1)) (fun l tab =>
          (for_break (range 1 (l + 1)) (fun m tab =>
             let p := i * j * k * l * m in
             if p >? nmax then (tab, true)
             else (if negb (tab_mem tab p) then tab_set tab p (i, j, k, l, m) else tab, false)) tab,
           i * j * k * l >? nmax)) tab,
         i * j * k >? nmax)) tab,
       i * j >? nmax)) tab
    = fold_left (add_sequence nmax)
        (flat_map (fun j =>
           flat_map (fun k =>
             flat_map (fun l => map (fun m => (i, j, k, l, m)) (range 1 (l + 1)))
               (range 1 (k + 1)))
             (range 1 (j + 1)))
           (range 1 (i + 1))) tab).
  { intros i tab0 Hi.
    rewrite <- (level_flat nmax (i + 1)
                  (fun j => flat_map (fun k =>
                      flat_map (fun l => map (fun m => (i, j, k, l, m)) (range 1 (l + 1)))
                        (range 1 (k + 1)))
                      (range 1 (j + 1)))
                  (fun j => i * j)).
    - apply for_break_ext. intros j s Hin. apply in_range in Hin.
      now rewrite Hk by lia.
    - intros x x' t Hx Hx' Hb Ht.
      apply in_flat_map in Ht. destruct Ht as (k & Hink & Ht). apply in_range in Hink.
      apply in_flat_map in Ht. destruct Ht as (l & Hinl & Ht). apply in_range in Hinl.
      apply in_map_iff in Ht. destruct Ht as (m & <- & Hin).
      apply in_range in Hin. unfold product.
      replace (i * x' * k * l * m) with (i * x' * (k * l * m)) by ring.
      apply (product_above nmax i x x' (k * l * m)); try lia;
        (assert (1 <= k * l) by nia; nia). }
  (* the loop over i *)
  rewrite <- (level_flat nmax 10
                (fun i => flat_map (fun j =>
                    flat_map (fun k =>
                      flat_map (fun l => map (fun m => (i, j, k, l, m)) (range 1 (l + 1)))
                        (range 1 (k + 1)))
                      (range 1 (j + 1)))
                    (range 1 (i + 1)))
                (fun i => i)).
  - apply for_break_ext. intros i s Hin. apply in_range in Hin.
    now rewrite Hj by lia.
  - intros x x' t Hx Hx' Hb Ht.
    apply in_flat_map in Ht. destruct Ht as (j & Hinj & Ht). apply in_range in Hinj.
    apply in_flat_map in Ht. destruct Ht as (k & Hink & Ht). apply in_range in Hink.
    apply in_flat_map in Ht. destruct Ht as (l & Hinl & Ht). apply in_range in Hinl.
    apply in_map_iff in Ht. destruct Ht as (m & <- & Hin).
    apply in_range in Hin. unfold product.
    replace (x' * j * k * l * m) with (1 * x' * (j * k * l * m)) by ring.
    apply (product_above nmax 1 x x' (j * k * l * m)); try lia;
      (assert (1 <= j * k) by nia; assert (1 <= j * k * l) by nia; nia).
Qed.

(** The product of a sequence is at least 1. *)
Lemma sequence_product_positive (t : factors) : is_sequence t -> 1 <= product t.
Proof.
  destruct t as [[[[i j] k] l] m]. unfold is_sequence, product. intros H.
  assert (1 <= i * j) by nia. assert (1 <= i * j * k) by nia.
  assert (1 <= i * j * k * l) by nia. nia.
Qed.

Lemma initial_reached : decimation_reached decimation_initial.
Proof.
  split; intros p; [now left|]. intros Hp. cbn [decimation_initial decitab_nmax] in Hp.
  symmetry. destruct (first_sequence p) as [t|] eqn:E; [exfalso | reflexivity].
  unfold first_sequence in E. apply find_some in E. destruct E as (Hin & Hprod).
  apply Z.eqb_eq in Hprod.
  assert (Hall : forallb (fun t => 1 <=? product t) all_sequences = true)
    by (vm_compute; reflexivity).
  rewrite forallb_forall in Hall. specialize (Hall t Hin). apply Z.leb_le in Hall. lia.
Qed.

Lemma tab_get_set (tab : table) (p q : Z) (v : factors) :
  tab_get (tab_set tab p v) q = if q =? p then Some v else tab_get tab q.
Proof.
  unfold tab_get. induction tab as [|e tab IH]; cbn [tab_set find fst].
  - rewrite (Z.eqb_sym p q). now destruct (q =? p).
  - destruct (fst e =? p) eqn:Ep; cbn [find fst].
    + apply Z.eqb_eq in Ep. rewrite Ep, (Z.eqb_sym p q). now destruct (q =? p).
    + destruct (fst e =? q) eqn:Eq; [|exact IH].
      apply Z.eqb_eq in Eq. apply Z.eqb_neq in Ep.
      replace (q =? p) with false by (symmetry; apply Z.eqb_neq; lia). reflexivity.
Qed.

Lemma add_sequence_get (nmax : Z) (tab : table) (t : factors) (q : Z) :
  tab_get (add_sequence nmax tab t) q =
  match tab_get tab q with
  | Some v => Some v
  | None => if (product t =? q) && (q <=? nmax) then Some t else None
  end.
Proof.
  unfold add_sequence, tab_mem.
  destruct (product t >? nmax) eqn:Eb.
  - apply Z.gtb_lt in Eb. destruct (tab_get tab q); [reflexivity|].
    destruct (product t =? q) eqn:Eq; [|reflexivity]. apply Z.eqb_eq in Eq.
    now replace (q <=? nmax) with false by (symmetry; apply Z.leb_gt; lia).
  - assert (product t <= nmax).
    { destruct (Z.gtb_spec (product t) nmax); [discriminate | lia]. }
    destruct (tab_get tab (product t)) eqn:Eg; cbn [negb].
    + destruct (tab_get tab q) eqn:Eq; [reflexivity|].
      destruct (product t =? q) eqn:E; [|reflexivity]. apply Z.eqb_eq in E. congruence.
    + rewrite tab_get_set, (Z.eqb_sym q). destruct (product t =? q) eqn:E.
      * apply Z.eqb_eq in E. subst q. rewrite Eg.
        now replace (product t <=? nmax) with true by (symmetry; apply Z.leb_le; lia).
      * now destruct (tab_get tab q).
Qed.

Lemma fold_add_sequence_get (nmax : Z) (ts : list factors) (q : Z) :
  forall tab : table,
    tab_get (fold_left (add_sequence nmax) ts tab) q =
    match tab_get tab q with
    | Some v => Some v
    | None => if q <=? nmax then find (fun t => product t =? q) ts else None
    end.
Proof.
  induction ts as [|t ts IH]; intros tab; cbn [fold_left find].
  - destruct (tab_get tab q); [reflexivity | now destruct (q <=? nmax)].
  - rewrite IH, add_sequence_get. destruct (tab_get tab q); [reflexivity|].
    destruct (product t =? q); destruct (q <=? nmax); reflexivity.
Qed.

(** What the table holds after [mk_decitab]. *)
Lemma mk_decitab_table_get (nmax : Z) (tab : table) (p : Z) :
  tab_get (mk_decitab_table nmax tab) p =
  match tab_get tab p with
  | Some t => Some t
  | None => if p <=? nmax then first_sequence p else None
  end.
Proof. rewrite mk_decitab_table_flat. apply fold_add_sequence_get. Qed.

Lemma in_all_sequences (t : factors) : In t all_sequences <-> is_sequence t.
Proof.
  destruct t as [[[[i j] k] l] m]. unfold all_sequences, is_sequence. split.
  - intros H.
    apply in_flat_map in H. destruct H as (i' & Hi & H). apply in_range in Hi.
    apply in_flat_map in H. destruct H as (j' & Hj & H). apply in_range in Hj.
    apply in_flat_map in H. destruct H as (k' & Hk & H). apply in_range in Hk.
    apply in_flat_map in H. destruct H as (l' & Hl & H). apply in_range in Hl.
    apply in_map_iff in H. destruct H as (m' & Heq & Hm). apply in_range in Hm.
    injection Heq as <- <- <- <- <-. lia.
  - intros H.
    apply in_flat_map. exists i. split; [apply in_range; lia|].
    apply in_flat_map. exists j. split; [apply in_range; lia|].
    apply in_flat_map. exists k. split; [apply in_range; lia|].
    apply in_flat_map. exists l. split; [apply in_range; lia|].
    apply in_map_iff. exists m. split; [reflexivity | apply in_range; lia].
Qed.

Lemma first_sequence_least (t : factors) :
  is_sequence t ->
  exists t', first_sequence (product t) = Some t' /\ largest t' <= largest t.
Proof.
  intros H. apply in_all_sequences in H.
  assert (Hall : forallb first_is_least all_sequences = true) by (vm_compute; reflexivity).
  rewrite forallb_forall in Hall. specialize (Hall t H). unfold first_is_least in Hall.
  destruct (first_sequence (product t)) as [t'|]; [|discriminate].
  exists t'. split; [reflexivity | now apply Z.leb_le].
Qed.

Lemma first_sequence_some (p : Z) (t : factors) :
  first_sequence p = Some t -> is_sequence t /\ product t = p.
Proof.
  unfold first_sequence. intros H. apply find_some in H. destruct H as (Hin & Hp).
  split; [now apply in_all_sequences | now apply Z.eqb_eq].
Qed.

Lemma first_sequence_none (p : Z) :
  first_sequence p = None <-> ~ exists t, is_sequence t /\ product t = p.
Proof.
  split.
  - intros Hnone (t & Ht & Hp). destruct (first_sequence_least t Ht) as (t' & Hsome & _).
    congruence.
  - intros Hno. destruct (first_sequence p) as [t|] eqn:E; [|reflexivity].
    exfalso. apply Hno. exists t. now apply first_sequence_some.
Qed.

Lemma mk_decitab_reached (nmax : Z) (st : decimation_state) :
  decimation_reached st -> decimation_reached (mk_decitab nmax st).
Proof.
  intros (Hany & Hupto). unfold decimation_reached, mk_decitab. cbn [decitab_of decitab_nmax].
  split; intros p; [|intros Hp]; rewrite mk_decitab_table_get.
  - destruct (Hany p) as [-> | Hp].
    + destruct (p <=? nmax); [now right | now left].
    + destruct (tab_get (decitab_of st) p) eqn:E; [now right|].
      destruct (p <=? nmax); [now right | now left].
  - destruct (Hany p) as [-> | Hq].
    + now replace (p <=? nmax) with true by (symmetry; apply Z.leb_le; lia).
    + destruct (tab_get (decitab_of st) p) eqn:E; [assumption|].
      now replace (p <=? nmax) with true by (symmetry; apply Z.leb_le; lia).
Qed.

(** [decitab] on a state that was reached: the state after it, and the first
    sequence for [n] as the outcome. *)
Lemma decitab_reached (n : Z) (st : decimation_state) :
  decimation_reached st ->
  decimation_reached (fst (decitab n st))
  /\ snd (decitab n st) = match first_sequence n with
                           | Some t => Returns t
                           | None => Raises (UnboundName "ratio")
                           end.
Proof.
  intros Hst. unfold decitab.
  set (st1 := if n >? decitab_nmax st then mk_decitab (n * 2) st else st).
  assert (H1 : decimation_reached st1).
  { unfold st1. destruct (n >? decitab_nmax st); [now apply mk_decitab_reached | assumption]. }
  assert (Hn : tab_get (decitab_of st1) n = first_sequence n).
  { destruct (first_sequence n) as [t|] eqn:Ef.
    - apply first_sequence_some in Ef as Hseq. destruct Hseq as (Hseq & Hp).
      assert (1 <= n) by (rewrite <- Hp; now apply sequence_product_positive).
      rewrite <- Ef. apply (proj2 H1). unfold st1.
      destruct (Z.gtb_spec n (decitab_nmax st)); cbv beta iota; cbn [mk_decitab decitab_nmax]; lia.
    - destruct (proj1 H1 n) as [H|H]; congruence. }
  rewrite Hn. destruct (first_sequence n); cbn [fst snd]; split; trivial.
Qed.

End DecitabFacts.

(** X6.  After [mk_decitab(nmax)] the table holds what it held before, and,
    for every [p] up to [nmax] that it had no entry for, the first sequence
    in the order of the loops whose product is [p], if there is one: an
    entry is never replaced, and the [break]s skip nothing. *)
Theorem mk_decitab_entries (nmax : Z) (st : decimation_state) (p : Z) :
  tab_get (decitab_of (mk_decitab nmax st)) p =
  match tab_get (decitab_of st) p with
  | Some t => Some t
  | None => if p <=? nmax then first_sequence p else None
  end.
Proof. apply mk_decitab_table_get. Qed.

(** X7.  On a state reached from the initial one by calls of [mk_decitab]
    and [decitab], what [decitab(n)] returns is a sequence of five factors
    from 9 down to 1, none larger than the one before, whose product is [n];
    and no such sequence has a smaller largest factor. *)
Theorem decitab_returns_factors (n : Z) (st : decimation_state) (t : factors) :
  decimation_reached st ->
  snd (decitab n st) = Returns t ->
  is_sequence t /\ product t = n
  /\ forall t', is_sequence t' -> product t' = n -> largest t <= largest t'.
Proof.
  intros Hst Hr. destruct (decitab_reached n st Hst) as (_ & Hout).
  rewrite Hout in Hr. destruct (first_sequence n) as [t0|] eqn:Ef; [|discriminate].
  injection Hr as ->. destruct (first_sequence_some n t Ef) as (Hseq & Hp).
  repeat split; try assumption.
  intros t' Ht' Hp'. destruct (first_sequence_least t' Ht') as (t'' & Hf & Hle).
  rewrite Hp', Ef in Hf. now injection Hf as <-.
Qed.

Lemma decitab_returns_factors_witness :
  is_sequence (5, 4, 4, 3, 3) /\ product (5, 4, 4, 3, 3) = 720
  /\ forall t', is_sequence t' -> product t' = 720 -> largest (5, 4, 4, 3, 3) <= largest t'.
Proof.
  apply (decitab_returns_factors 720 decimation_initial (5, 4, 4, 3, 3)).
  - exact initial_reached.
  - vm_compute. reflexivity.
Defined.

(** X8.  On such a state [decitab(n)] raises exactly when [n] is not the
    product of a sequence, and what it raises is the [NameError] for
    [ratio], the unbound name in the message of the exception: never
    [UnavailableDecimation].  So it is for every [n] below 1 and for 11. *)
Theorem decitab_unavailable (n : Z) (st : decimation_state) :
  decimation_reached st ->
  (snd (decitab n st) = Raises (UnboundName "ratio")
   <-> ~ exists t, is_sequence t /\ product t = n)
  /\ snd (decitab n st) <> Raises UnavailableDecimation.
Proof.
  intros Hst. destruct (decitab_reached n st Hst) as (_ & Hout). rewrite Hout.
  split.
  - rewrite <- first_sequence_none. destruct (first_sequence n); split; congruence.
  - destruct (first_sequence n); discriminate.
Qed.

Lemma decitab_unavailable_witness :
  snd (decitab 11 (mk_decitab 100 decimation_initial)) = Raises (UnboundName "ratio").
Proof.
  assert (Hst : decimation_reached (mk_decitab 100 decimation_initial)).
  { apply mk_decitab_reached. exact initial_reached. }
  apply (proj1 (decitab_unavailable 11 _ Hst)).
  apply first_sequence_none. vm_compute. reflexivity.
Defined.

(** X9.  The states reached from the initial one stay of that kind under
    [mk_decitab] and [decitab], raising or not; and an answer of [decitab] is
    kept: asking again returns the same sequence and leaves the state as it
    is. *)
Theorem decitab_state_kept :
  decimation_reached decimation_initial
  /\ (forall nmax st, decimation_reached st -> decimation_reached (mk_decitab nmax st))
  /\ (forall n st, decimation_reached st -> decimation_reached (fst (decitab n st)))
  /\ (forall n st t,
        decimation_reached st -> snd (decitab n st) = Returns t ->
        decitab n (fst (decitab n st)) = (fst (decitab n st), Returns t)).
Proof.
  split; [|split; [|split]].
  - exact initial_reached.
  - exact mk_decitab_reached.
  - intros n st Hst. now destruct (decitab_reached n st Hst).
  - intros n st t Hst Hr.
    destruct (decitab_reached n st Hst) as (_ & Hout). rewrite Hout in Hr.
    destruct (first_sequence n) as [t0|] eqn:Ef; [|discriminate]. injection Hr as ->.
    destruct (first_sequence_some n t Ef) as (Hseq & Hp).
    assert (1 <= n) by (rewrite <- Hp; now apply sequence_product_positive).
    unfold decitab at 2 3.
    set (st1 := if n >? decitab_nmax st then mk_decitab (n * 2) st else st).
    assert (H1 : decimation_reached st1).
    { unfold st1. destruct (n >? decitab_nmax st); [now apply mk_decitab_reached | assumption]. }
    assert (Hnmax : n <= decitab_nmax st1).
    { unfold st1. destruct (Z.gtb_spec n (decitab_nmax st)); cbv beta iota; cbn [mk_decitab decitab_nmax]; lia. }
    assert (Hfst : fst (match tab_get (decitab_of st1) n with
                        | Some t1 => (st1, Returns t1)
                        | None => (st1, if existsb (Py.str_eqb "ratio") (lit "n" :: util_globals)
                                        then Raises UnavailableDecimation
                                        else Raises (UnboundName "ratio"))
                        end) = st1) by (destruct (tab_get (decitab_of st1) n); reflexivity).
    rewrite Hfst. unfold decitab.
    replace (n >? decitab_nmax st1) with false
      by (symmetry; destruct (Z.gtb_spec n (decitab_nmax st1)); [lia | reflexivity]).
    now rewrite (proj2 H1 n Hnmax), Ef.
Qed.

(* ================================================================== *)
(** * reuse *)

Section ReuseFacts.

Variable object : Type.
Variable object_eq_dec : forall a b : object, {a = b} + {a <> b}.
Variable eqo : object -> object -> bool.
Variable hash : object -> Z.

(** [==] is an equivalence on the objects, and objects that are equal have
    the same hash. *)
Hypothesis eqo_refl : forall a, eqo a a = true.
Hypothesis eqo_sym : forall a b, eqo a b = eqo b a.
Hypothesis eqo_trans : forall a b c, eqo a b = true -> eqo b c = true -> eqo a c = true.
Hypothesis hash_eqo : forall a b, eqo a b = true -> hash a = hash b.

Local Abbreviation matches := (key_matches object object_eq_dec eqo hash).
Local Abbreviation lookup := (store_find object object_eq_dec eqo hash).
Local Abbreviation reached := (store_reached object object_eq_dec eqo hash).

(** Then a key matches exactly when it is equal. *)
Lemma key_matches_eqo (k x : object) : matches k x = eqo k x.
Proof.
  unfold key_matches, same. destruct (eqo k x) eqn:E.
  - rewrite (hash_eqo k x E), Z.eqb_refl. apply orb_true_r.
  - rewrite andb_false_r, orb_false_r.
    destruct (object_eq_dec k x) as [->|_]; [|reflexivity].
    rewrite eqo_refl in E. discriminate.
Qed.

Lemma store_find_equal (grs : store object) (x y : object) :
  eqo x y = true -> lookup grs x = lookup grs y.
Proof.
  intros H. unfold store_find.
  induction grs as [|e grs IH]; cbn [find]; [reflexivity|].
  rewrite IH, !key_matches_eqo.
  replace (eqo (fst e) y) with (eqo (fst e) x); [reflexivity|].
  destruct (eqo (fst e) x) eqn:E1, (eqo (fst e) y) eqn:E2; try reflexivity.
  - rewrite (eqo_trans _ _ _ E1 H) in E2. discriminate.
  - rewrite eqo_sym in H. rewrite (eqo_trans _ _ _ E2 H) in E1. discriminate.
Qed.

(** Every item of a reached store maps its key to itself. *)
Lemma store_reached_self (grs : store object) :
  reached grs -> forall e, In e grs -> snd e = fst e.
Proof.
  induction 1 as [|x grs Hr IH]; intros e Hin; [destruct Hin|].
  unfold reuse in Hin. destruct (lookup grs x); cbn [fst] in Hin.
  - now apply IH.
  - apply in_app_or in Hin. destruct Hin as [Hin|[<-|[]]]; [now apply IH | reflexivity].
Qed.

Lemma store_find_app_none (grs : store object) (x : object) :
  lookup grs x = None -> lookup (grs ++ [(x, x)]) x = Some (x, x).
Proof.
  unfold store_find. induction grs as [|e grs IH]; cbn [find app fst].
  - intros _. now rewrite key_matches_eqo, eqo_refl.
  - destruct (matches (fst e) x); [discriminate | exact IH].
Qed.

Lemma store_find_app_some (grs : store object) (x : object) (e : object * object)
      (more : store object) :
  lookup grs x = Some e -> lookup (grs ++ more) x = Some e.
Proof.
  unfold store_find. induction grs as [|e0 grs IH]; cbn [find app]; [discriminate|].
  destruct (matches (fst e0) x); [trivial | exact IH].
Qed.

(** In a reached store at most one key matches an object: what a lookup
    finds does not depend on the order in which the keys are tried. *)
Lemma store_reached_one_match (grs : store object) :
  reached grs ->
  forall x, (List.length (filter (fun e => matches (fst e) x) grs) <= 1)%nat.
Proof.
  induction 1 as [|x0 grs Hr IH]; intros x; [cbn; lia|].
  unfold reuse. destruct (lookup grs x0) eqn:Ef; cbn [fst]; [apply IH|].
  rewrite filter_app, length_app. cbn [filter fst].
  destruct (matches x0 x) eqn:E; [|cbn [List.length]; specialize (IH x); lia].
  replace (filter (fun e => matches (fst e) x) grs) with (@nil (object * object));
    [cbn; lia|].
  symmetry. apply (proj1 (List.length_zero_iff_nil _)).
  destruct (filter _ grs) as [|e rest] eqn:Efil; [reflexivity | exfalso].
  assert (Hin : In e (filter (fun e => matches (fst e) x) grs))
    by (rewrite Efil; now left).
  apply filter_In in Hin. destruct Hin as (Hin & Hm).
  pose proof (find_none _ _ Ef e Hin) as Hno. cbn beta in Hno.
  rewrite key_matches_eqo in *.
  rewrite eqo_sym in E. rewrite (eqo_trans _ _ _ Hm E) in Hno. discriminate.
Qed.

End ReuseFacts.

(** X10.  With an [==] that is an equivalence and a [hash] that is the same
    for equal objects, on a store reached from the empty one by calls of
    [reuse]: [reuse(x)] returns an object equal to [x]; called again with any
    object equal to [x], whatever calls came in between, it returns the very
    same object; the store it leaves is of the same kind, and no object has
    more than one key that matches it there.  The hashes matter: with objects
    that are equal by their number and hashed by their identity, [reuse] of a
    second object with the number of a stored one returns the second. *)
Theorem reuse_gives_one_instance :
  (forall (object : Type) (object_eq_dec : forall a b : object, {a = b} + {a <> b})
          (eqo : object -> object -> bool) (hash : object -> Z)
          (grs : store object) (x y : object) (between : list object),
     (forall a, eqo a a = true) ->
     (forall a b, eqo a b = eqo b a) ->
     (forall a b c, eqo a b = true -> eqo b c = true -> eqo a c = true) ->
     (forall a b, eqo a b = true -> hash a = hash b) ->
     store_reached object object_eq_dec eqo hash grs ->
     eqo x y = true ->
     let reuse := reuse object object_eq_dec eqo hash in
     let first := reuse x grs in
     let later := fold_left (fun s z => fst (reuse z s)) between (fst first) in
     eqo (snd first) x = true
     /\ snd (reuse y later) = snd first
     /\ store_reached object object_eq_dec eqo hash (fst (reuse y later))
     /\ (List.length (filter (fun e => key_matches object object_eq_dec eqo hash (fst e) y)
                        (fst (reuse y later))) <= 1)%nat)
  /\ snd (reuse tagged tagged_eq_dec tagged_eqo id_hash (mk_tagged 2 5)
            (fst (reuse tagged tagged_eq_dec tagged_eqo id_hash (mk_tagged 1 5) [])))
     = mk_tagged 2 5.
Proof.
  split; [|reflexivity].
  intros object object_eq_dec eqo hash grs x y between Hrefl Hsym Htrans Hhash Hreached Hxy
         reuse0 first later.
  pose proof (key_matches_eqo object object_eq_dec eqo hash Hrefl Hhash) as Hkey.
  (* the entry for x after the first call *)
  assert (Hfirst : store_find object object_eq_dec eqo hash (fst first) x
                   = Some (snd first, snd first)
                   /\ eqo (snd first) x = true).
  { unfold first, reuse0, reuse.
    destruct (store_find object object_eq_dec eqo hash grs x) as [e|] eqn:Ef; cbn [fst snd].
    - assert (Hin : In e grs /\ key_matches object object_eq_dec eqo hash (fst e) x = true)
        by (apply (find_some _ _ Ef)).
      destruct Hin as (Hin & He). rewrite Hkey in He.
      pose proof (store_reached_self object object_eq_dec eqo hash grs Hreached e Hin) as Hself.
      rewrite Hself. split; [|assumption].
      rewrite Ef. destruct e as [k v]. cbn [fst snd] in *. now subst.
    - split; [now apply store_find_app_none | apply Hrefl]. }
  destruct Hfirst as (Hentry & Hequal).
  (* calls in between keep the entry, and the store stays reached *)
  assert (Hlater : store_find object object_eq_dec eqo hash later x
                   = Some (snd first, snd first)
                   /\ store_reached object object_eq_dec eqo hash later).
  { unfold later.
    assert (Hr1 : store_reached object object_eq_dec eqo hash (fst first))
      by (now constructor).
    revert Hentry Hr1. generalize (fst first) as s.
    induction between as [|z zs IH]; intros s Hentry Hr; cbn [fold_left]; [now split|].
    apply IH; [|now constructor].
    unfold reuse0, reuse.
    destruct (store_find object object_eq_dec eqo hash s z); cbn [fst]; [assumption|].
    now apply store_find_app_some. }
  destruct Hlater as (Hkept & Hreached').
  assert (Hr2 : store_reached object object_eq_dec eqo hash (fst (reuse0 y later)))
    by (now constructor).
  split; [assumption|]. split; [|split; [assumption|]].
  - unfold reuse0, reuse.
    rewrite <- (store_find_equal object object_eq_dec eqo hash Hrefl Hsym Htrans Hhash
                  later x y) by assumption.
    now rewrite Hkept.
  - now apply store_reached_one_match.
Qed.

Lemma reuse_gives_one_instance_witness :
  snd (reuse tagged tagged_eq_dec tagged_eqo tagged_hash (mk_tagged 2 5)
         (fst (reuse tagged tagged_eq_dec tagged_eqo tagged_hash (mk_tagged 3 7)
                 (fst (reuse tagged tagged_eq_dec tagged_eqo tagged_hash (mk_tagged 1 5) [])))))
  = mk_tagged 1 5.
Proof.
  apply (proj1 reuse_gives_one_instance tagged tagged_eq_dec tagged_eqo tagged_hash []
           (mk_tagged 1 5) (mk_tagged 2 5) [mk_tagged 3 7]).
  - intros a. apply Z.eqb_refl.
  - intros a b. apply Z.eqb_sym.
  - intros a b c Hab Hbc. unfold tagged_eqo in *.
    apply Z.eqb_eq in Hab, Hbc. apply Z.eqb_eq. congruence.
  - intros a b Hab. unfold tagged_eqo, tagged_hash in *. now apply Z.eqb_eq.
  - constructor.
  - reflexivity.
Defined.

(* ================================================================== *)
(** * More on the time codec *)

Section TimeCodecMore.

Context {L : PyLib}.
Import Py PyFacts.

(** A text that ends with a suffix ends with the last character of the
    suffix. *)
Lemma endswith_last (s suffix : pystr) (c d : ascii) :
  endswith s (suffix ++ [c]) = true -> last s d = c.
Proof.
  unfold endswith. intros H. apply andb_prop in H. destruct H as (_ & H).
  apply str_eqb_eq in H.
  rewrite <- (firstn_skipn (List.length s - List.length (suffix ++ [c])) s), H.
  rewrite app_assoc. apply last_last.
Qed.

(** A format that does not end in [C] has neither marker. *)
Lemma no_marker (format : pystr) :
  last format "x"%char <> "C"%char ->
  endswith format FRAC = false /\ endswith format OPTFRAC = false.
Proof.
  intros H. split.
  - destruct (endswith format FRAC) eqn:E; [|reflexivity].
    exfalso. apply H. now apply (endswith_last format ".FRA").
  - destruct (endswith format OPTFRAC) eqn:E; [|reflexivity].
    exfalso. apply H. now apply (endswith_last format ".OPTFRA").
Qed.

(** The pattern needs an [f]. *)
Lemma re_frac_search_needs_f (format : pystr) :
  ~ In "f"%char format -> re_frac_search format = None.
Proof.
  unfold re_frac_search. generalize 0%nat.
  induction format as [|c0 rest IH]; intros i Hno; cbn [re_frac_search_from]; [reflexivity|].
  destruct rest as [|c1 [|c2 [|c3 rest']]]; try reflexivity.
  replace (re_frac_at c0 c1 c2 c3) with false.
  - apply IH. intros Hin. apply Hno. now right.
  - symmetry. unfold re_frac_at. apply andb_false_iff. right.
    apply Ascii.eqb_neq. intros ->. apply Hno. cbn. tauto.
Qed.

End TimeCodecMore.

(** X11.  The newer functions agree with the ones they are to replace.  With
    a format that does not end in the letter [C], so with neither marker,
    [str_to_time] is [ctimegm] as a float; with a format that has no [f], so
    with no fraction directive, [time_to_str] is [gmctime] of the whole
    seconds, the floor of [t]. *)
Theorem newer_functions_agree_with_older :
  forall (L : PyLib),
    (forall s format : pystr,
       last format "x"%char <> "C"%char ->
       str_to_time s format = (n <- ctimegm s format ;; add_int_float n (Fin 0)))
    /\ (forall (t : pyfloat) (format : pystr),
          ~ In "f"%char format ->
          time_to_str t format = gmctime (Float.floor t) format).
Proof.
  intros L. split.
  - intros s format H. destruct (no_marker format H) as (H1 & H2).
    unfold str_to_time, ctimegm. rewrite H1, H2. cbn [bind].
    destruct (strptime s format); reflexivity.
  - intros t format H. unfold gmctime. apply time_to_str_no_match.
    now apply re_frac_search_needs_f.
Qed.

Lemma newer_functions_agree_with_older_witness :
  str_to_time (L := CPython) "2009-02-13 23:31:30" gmctime_default
  = (n <- ctimegm (L := CPython) "2009-02-13 23:31:30" gmctime_default ;;
     add_int_float n (Fin 0))
  /\ time_to_str (L := CPython) (Fin (2469135781 # 2)) gmctime_fn_default
     = gmctime (L := CPython) (Fin (inject_Z 1234567890)) gmctime_fn_default.
Proof.
  split.
  - apply (proj1 (newer_functions_agree_with_older CPython)). vm_compute. discriminate.
  - apply (proj2 (newer_functions_agree_with_older CPython) (Fin (2469135781 # 2))).
    vm_compute. intuition discriminate.
Defined.

(** X12.  When the first match of the pattern in the format is a directive
    [%.Nf] and [t] is finite, [time_to_str] gives [strftime] the format with
    the directive replaced by exactly [N] decimal digits: those of [tfrac],
    the float [t - math.floor(t)], rounded to [N] places and taken modulo
    one.  [tfrac] is a float from 0 to 1, one included: the float
    subtraction rounds.  What comes before and after the directive is not
    changed, further directives included. *)
Theorem time_to_str_fraction_digits (L : PyLib) (t : Q) (format : pystr) (start : nat)
        (d : ascii) :
  re_frac_search format = Some (start, ["%"%char; DOT; d; "f"%char]) ->
  exists (tfrac : Q) (digits : pystr),
    Float.sub (Fin t) (Float.floor (Fin t)) = Fin tfrac
    /\ (0 <= tfrac)%Q /\ (tfrac <= 1)%Q
    /\ List.length digits = Z.to_nat (Py.digit_value d)
    /\ forallb Py.isdigit digits = true
    /\ digits = digits_fixed (Z.to_nat (Py.digit_value d))
                  (round_half_even
                     (tfrac * inject_Z (10 ^ Z.of_nat (Z.to_nat (Py.digit_value d))))
                   mod 10 ^ Z.of_nat (Z.to_nat (Py.digit_value d)))
    /\ time_to_str (Fin t) format =
       (tm <- gmtime (Float.floor (Fin t)) ;;
        strftime (firstn start format ++ digits ++ skipn (start + 4) format) tm).
Proof.
  intros Hm.
  destruct (time_to_str_directive t format start d Hm) as (tfrac & Hsub & H0 & H1 & Ht).
  exists tfrac. eexists. split; [exact Hsub|]. split; [exact H0|]. split; [exact H1|].
  split; [|split; [|split; [reflexivity | exact Ht]]].
  - apply digits_fixed_length.
  - apply digits_fixed_plain.
Qed.

Lemma time_to_str_fraction_digits_witness :
  time_to_str (L := CPython) (Fin (9876543121 # 8)) "%Y-%m-%d %H:%M:%S.%.2f"
  = OK (lit "2009-02-13 23:31:30.12")
  /\ time_to_str (L := CPython) (Fin (- 4503599627370497 # 18014398509481984)) "%.1f"
     = OK (lit "8").
Proof.
  split.
  - destruct (time_to_str_fraction_digits CPython (9876543121 # 8)
                "%Y-%m-%d %H:%M:%S.%.2f" 18 "2" eq_refl)
      as (tfrac & digits & Hsub & _ & _ & _ & _ & Hd & Ht).
    vm_compute in Hsub. injection Hsub as <-.
    rewrite Ht, Hd. vm_compute. reflexivity.
  - destruct (time_to_str_fraction_digits CPython (- 4503599627370497 # 18014398509481984)
                "%.1f" 0 "1" eq_refl)
      as (tfrac & digits & Hsub & _ & _ & _ & _ & Hd & Ht).
    vm_compute in Hsub. injection Hsub as <-.
    rewrite Ht, Hd. vm_compute. reflexivity.
Defined.

Section CarryFacts.

Lemma Qfloor_between (q : Q) (z : Z) :
  (inject_Z z <= q)%Q -> (q < inject_Z (z + 1))%Q -> Qfloor q = z.
Proof.
  intros Hle Hlt.
  assert (z <= Qfloor q).
  { rewrite <- (Qfloor_Z z). now apply Qfloor_resp_le. }
  assert (Qfloor q < z + 1).
  { rewrite Zlt_Qlt. eapply Qle_lt_trans; [apply Qfloor_le | exact Hlt]. }
  lia.
Qed.

(** A number at most a half below the even number [m], and not above [m],
    rounds to [m]: at exactly a half below, [m - 1] is odd and the tie goes
    up. *)
Lemma round_half_even_up (y : Q) (m : Z) :
  Z.even m = true ->
  (inject_Z m - (1 # 2) <= y)%Q -> (y <= inject_Z m)%Q ->
  round_half_even y = m.
Proof.
  intros Heven Hhalf Htop.
  destruct (Qlt_le_dec y (inject_Z m)) as [Hlt|Hge];
    [|apply round_half_even_int; lra].
  assert (Hm1 : (inject_Z (m - 1) == inject_Z m - 1)%Q).
  { unfold Z.sub. rewrite inject_Z_plus. reflexivity. }
  assert (Hfloor : Qfloor y = m - 1).
  { apply Qfloor_between.
    - rewrite Hm1. lra.
    - now replace (m - 1 + 1) with m by lia. }
  unfold round_half_even. rewrite Hfloor.
  destruct (Qcompare_spec (y - inject_Z (m - 1)) (1 # 2)) as [Heq|Hlt'|Hgt].
  - replace (Z.even (m - 1)) with false; [lia|].
    change (m - 1) with (Z.pred m). rewrite Z.even_pred, <- Z.negb_even, Heven. reflexivity.
  - exfalso. rewrite Hm1 in Hlt'. lra.
  - lia.
Qed.

Lemma digits_fixed_zero (n : nat) : digits_fixed n 0 = repeat "0"%char n.
Proof.
  induction n as [|n IH]; [reflexivity|].
  cbn [digits_fixed]. change (0 / 10) with 0. rewrite IH.
  change [digit_char (0 mod 10)] with (repeat "0"%char 1).
  rewrite <- repeat_app. f_equal. lia.
Qed.

End CarryFacts.

(** X13.  For a finite [t] and a directive [%.Nf] with [N] at least 1: when
    [tfrac], the float [t - math.floor(t)], scaled to the [N] places of the
    directive, is a half or less below [10^N] (for three places: when [tfrac]
    is 0.9995 or more), the digits substituted are all zeros, and the seconds
    that [strftime] formats are still the floor of [t]: the carry of the
    rounding is lost. *)
Theorem time_to_str_carry_is_lost (L : PyLib) (t tfrac : Q) (format : pystr) (start : nat)
        (d : ascii) :
  re_frac_search format = Some (start, ["%"%char; DOT; d; "f"%char]) ->
  (1 <= Z.to_nat (Py.digit_value d))%nat ->
  Float.sub (Fin t) (Float.floor (Fin t)) = Fin tfrac ->
  (inject_Z (10 ^ Z.of_nat (Z.to_nat (Py.digit_value d))) - (1 # 2)
   <= tfrac * inject_Z (10 ^ Z.of_nat (Z.to_nat (Py.digit_value d))))%Q ->
  time_to_str (Fin t) format =
  (tm <- gmtime (Float.floor (Fin t)) ;;
   strftime (firstn start format
             ++ repeat "0"%char (Z.to_nat (Py.digit_value d))
             ++ skipn (start + 4) format) tm).
Proof.
  intros Hm Hn Hsub Hnear.
  destruct (time_to_str_directive t format start d Hm) as (x & Hx & H0 & H1 & Ht).
  rewrite Hsub in Hx. injection Hx as <-.
  set (n := Z.to_nat (Py.digit_value d)) in *.
  rewrite Ht.
  assert (Hpow : 0 < 10 ^ Z.of_nat n) by (apply Z.pow_pos_nonneg; lia).
  rewrite (round_half_even_up _ (10 ^ Z.of_nat n)).
  - rewrite Z.mod_same by lia. now rewrite digits_fixed_zero.
  - rewrite Z.even_pow by lia. reflexivity.
  - exact Hnear.
  - rewrite <- (Qmult_1_l (inject_Z (10 ^ Z.of_nat n))) at 2.
    apply Qmult_le_compat_r; [assumption|].
    change 0%Q with (inject_Z 0). rewrite <- Zle_Qle. lia.
Qed.

Lemma time_to_str_carry_is_lost_witness :
  time_to_str (L := CPython) (Fin (5056790081535 # 4096)) "%Y-%m-%d %H:%M:%S.%.3f"
  = OK (lit "2009-02-13 23:31:30.000").
Proof.
  rewrite (time_to_str_carry_is_lost CPython (5056790081535 # 4096) (4095 # 4096)
             "%Y-%m-%d %H:%M:%S.%.3f" 18 "3" eq_refl).
  - vm_compute. reflexivity.
  - vm_compute. lia.
  - vm_compute. reflexivity.
  - vm_compute. discriminate.
Defined.

(** X14.  Both markers split the text at its last dot and read what is
    before it against the format without the marker.  With [.FRAC] the dot
    and what follows go to [float] even when nothing follows, so that a text
    ending in a dot is left to [float(".")], and the float read is added to
    the epoch in float arithmetic; with [.OPTFRAC] a text ending in a dot has
    the fraction 0 and [float] is not called. *)
Theorem str_to_time_splits_at_last_dot (L : PyLib) (base pre post : pystr) :
  ~ In DOT post ->
  str_to_time (pre ++ DOT :: post) (base ++ FRAC) =
    (fracsec <- py_float (DOT :: post) ;;
     tm <- strptime pre base ;;
     add_int_float (timegm tm) fracsec)
  /\ str_to_time (pre ++ [DOT]) (base ++ OPTFRAC) =
     (tm <- strptime pre base ;; add_int_float (timegm tm) (Fin 0)).
Proof.
  intros Hno. split.
  - rewrite str_to_time_frac, PyFacts.rfind_last by assumption.
    rewrite PyFacts.slice_from_app, PyFacts.slice_to_app.
    replace (Py.len pre =? -1) with false
      by (symmetry; apply Z.eqb_neq; pose proof (PyFacts.len_nonneg pre); lia).
    reflexivity.
  - rewrite str_to_time_optfrac_dot by (intros []). reflexivity.
Qed.

Lemma str_to_time_splits_at_last_dot_witness :
  str_to_time (L := CPython) "13.02.2009 23:31:30.25" "%d.%m.%Y %H:%M:%S.FRAC"
    = OK (Fin (4938271561 # 4))
  /\ str_to_time (L := CPython) "13.02.2009 23:31:30.1" "%d.%m.%Y %H:%M:%S.FRAC"
    = OK (Fin (2589076519858995 # 2097152))
  /\ str_to_time (L := CPython) "13.02.2009 23:31:30." "%d.%m.%Y %H:%M:%S.FRAC"
    = Err ValueError
  /\ str_to_time (L := CPython) "13.02.2009 23:31:30." "%d.%m.%Y %H:%M:%S.OPTFRAC"
    = OK (Fin (inject_Z 1234567890)).
Proof.
  assert (H25 : ~ In DOT (lit "25")) by (cbv; intuition discriminate).
  assert (H1 : ~ In DOT (lit "1")) by (cbv; intuition discriminate).
  assert (H0 : ~ In DOT (@nil ascii)) by (intros []).
  split; [|split; [|split]].
  - change (lit "13.02.2009 23:31:30.25") with (lit "13.02.2009 23:31:30" ++ DOT :: lit "25").
    change (lit "%d.%m.%Y %H:%M:%S.FRAC") with (lit "%d.%m.%Y %H:%M:%S" ++ FRAC).
    rewrite (proj1 (str_to_time_splits_at_last_dot CPython _ _ _ H25)).
    vm_compute. reflexivity.
  - change (lit "13.02.2009 23:31:30.1") with (lit "13.02.2009 23:31:30" ++ DOT :: lit "1").
    change (lit "%d.%m.%Y %H:%M:%S.FRAC") with (lit "%d.%m.%Y %H:%M:%S" ++ FRAC).
    rewrite (proj1 (str_to_time_splits_at_last_dot CPython _ _ _ H1)).
    vm_compute. reflexivity.
  - change (lit "13.02.2009 23:31:30.") with (lit "13.02.2009 23:31:30" ++ DOT :: []).
    change (lit "%d.%m.%Y %H:%M:%S.FRAC") with (lit "%d.%m.%Y %H:%M:%S" ++ FRAC).
    rewrite (proj1 (str_to_time_splits_at_last_dot CPython _ _ _ H0)).
    vm_compute. reflexivity.
  - change (lit "13.02.2009 23:31:30.") with (lit "13.02.2009 23:31:30" ++ [DOT]).
    change (lit "%d.%m.%Y %H:%M:%S.OPTFRAC") with (lit "%d.%m.%Y %H:%M:%S" ++ OPTFRAC).
    rewrite (proj2 (str_to_time_splits_at_last_dot CPython _ _ [] H0)).
    vm_compute. reflexivity.
Defined.

(* ================================================================== *)
(** * More on unpack_fixed *)

Section UnpackMore.

Context {L : PyLib}.
Variable globals : list pystr.
Variable line : pystr.
Variable callargs : list callback.

(** Indexing raises nothing but [IndexError]. *)
Lemma py_index_error {A} (l : list A) (i : Z) (e : exn) :
  py_index l i = Err e -> e = IndexError.
Proof.
  unfold py_index. cbv zeta.
  destruct (_ || _); [congruence|]. destruct (nth_error _ _); congruence.
Qed.

(** [form[-1]] of a descriptor that is not empty. *)
Lemma py_index_last (form : pystr) :
  form <> [] -> exists c, py_index form (-1) = OK c.
Proof.
  intros Hne. unfold py_index. cbv zeta.
  assert (Hlen : (0 < List.length form)%nat) by (destruct form; [congruence | simpl; lia]).
  replace (-1 <? 0) with true by reflexivity.
  replace ((-1 + Z.of_nat (List.length form) <? 0)
           || (Z.of_nat (List.length form) <=? -1 + Z.of_nat (List.length form)))
    with false.
  - destruct (nth_error form (Z.to_nat (-1 + Z.of_nat (List.length form)))) as [c|] eqn:E;
      [now exists c|].
    apply nth_error_None in E. lia.
  - symmetry. apply orb_false_iff. split; [apply Z.ltb_ge | apply Z.leb_gt]; lia.
Qed.

(** [form[1:]] *)
Lemma slice_from_one (typ : ascii) (rest : pystr) : Py.slice_from (typ :: rest) 1 = rest.
Proof.
  unfold Py.slice_from, Py.norm_index, Py.len. cbn [List.length].
  replace (1 <? 0) with false by reflexivity.
  replace (Z.to_nat (Z.max 0 (Z.min (Z.of_nat (S (List.length rest))) 1))) with 1%nat by lia.
  reflexivity.
Qed.

(** A descriptor with nothing before its question marks: [form[-1]] or
    [form[0]] raises. *)
Lemma parse_form_no_type (form : pystr) :
  Py.rstrip_char "?" form = [] -> parse_form form = Err IndexError.
Proof.
  intros H. unfold parse_form. rewrite H.
  destruct (py_index form (-1)) as [c|e] eqn:E; [reflexivity|].
  apply py_index_error in E. now subst.
Qed.

(** A descriptor with a type letter: the width is read next. *)
Lemma parse_form_typed (form : pystr) (typ : ascii) (rest : pystr) :
  Py.rstrip_char "?" form = typ :: rest ->
  exists last,
    parse_form form =
    (l <- py_int rest ;; OK {| f_typ := typ; f_width := l; f_optional := Ascii.eqb last "?" |}).
Proof.
  intros H.
  assert (Hne : form <> []) by (intros ->; discriminate).
  destruct (py_index_last form Hne) as (c & Hc). exists c.
  unfold parse_form. rewrite Hc, H. cbn [bind]. unfold py_index at 1. cbn.
  now rewrite slice_from_one.
Qed.

Lemma step_parse_error (st : state) (form : pystr) (e : exn) :
  parse_form form = Err e -> field_step globals line callargs st form = raise e.
Proof. intros H. now rewrite field_step_eq, H. Qed.

Lemma step_unknown_type (st : state) (form : pystr) (fd : field) :
  parse_form form = OK fd -> ~ known_type (f_typ fd) ->
  field_step globals line callargs st form = raise KeyError.
Proof.
  intros Hp Hk. rewrite field_step_eq, Hp. unfold cast_table, known_type in *.
  repeat match goal with
         | |- context [Ascii.eqb (f_typ fd) ?c] =>
             let E := fresh "E" in
             destruct (Ascii.eqb (f_typ fd) c) eqn:E;
             [apply Ascii.eqb_eq in E; exfalso; apply Hk; tauto|]
         end.
  reflexivity.
Qed.

(** A field that starts at or after the end of the line has no text. *)
Lemma field_text_beyond (fd : field) (pos : Z) :
  Py.len line <= pos -> field_text line fd pos = [].
Proof.
  intros H. unfold field_text, Py.slice.
  pose proof (PyFacts.len_nonneg line) as Hn.
  replace (Py.norm_index (Py.len line) pos) with (Py.len line).
  - unfold Py.len. rewrite Nat2Z.id, skipn_all. apply firstn_nil.
  - unfold Py.norm_index.
    replace (pos <? 0) with false by (symmetry; apply Z.ltb_ge; lia). lia.
Qed.

Lemma optional_plain_value (fd : field) (pos ic : Z) :
  optional_plain fd -> Py.len line <= pos ->
  is_skip fd = false /\ is_at fd = false
  /\ field_value line callargs fd pos ic VNone.
Proof.
  intros (Hopt & Htyp & _) Hpos. unfold is_skip, is_at, field_value, converted.
  rewrite Hopt, (field_text_beyond fd pos Hpos).
  destruct Htyp as [-> | [-> | [-> | ->]]]; repeat split; reflexivity.
Qed.

(** Optional fields beyond the end of the line: [None] for each, and no
    callback is called. *)
Lemma optional_beyond_values (fds : list field) :
  forall pos ic : Z,
    Forall optional_plain fds -> Py.len line <= pos ->
    fields_values line callargs fds pos ic (repeat VNone (List.length fds))
    /\ fields_calls line fds pos ic = [].
Proof.
  induction fds as [|fd fds IH]; intros pos ic Hall Hpos; cbn [repeat List.length fields_calls].
  - split; [constructor | reflexivity].
  - inversion Hall as [|? ? Hfd Hrest]; subst.
    destruct (optional_plain_value fd pos ic Hfd Hpos) as (Hs & Ha & Hv).
    assert (Hw : 0 <= f_width fd) by (destruct Hfd as (_ & _ & Hw); exact Hw).
    destruct (IH (pos + f_width fd) (next_icall fd ic) Hrest ltac:(lia)) as (Hvs & Hcalls).
    split.
    + apply FV_value; assumption.
    + rewrite Hcalls. unfold field_calls. now rewrite Ha.
Qed.

End UnpackMore.

(** X15.  What a malformed descriptor raises, when the fields before it
    complete.  The body of the loop reads the question mark, the type letter,
    the width and the conversion in this order.  A descriptor that is empty
    (an empty format, two commas in a row, a comma at the end) or has nothing
    but question marks raises [IndexError].  One that has a type letter, any
    letter, and a width that [int] does not read raises what [int] raises.
    One whose width reads and whose type letter is not one of [x A a i f @]
    raises [KeyError].  All three whatever the line holds at that place, with
    the callbacks of the fields before called and no other. *)
Theorem malformed_descriptor_raises :
  forall (L : PyLib) (format line : pystr) (callargs : list callback)
         (pre post : list pystr) (form : pystr) (fds : list field) (vs : list value),
    Py.split "," format = pre ++ form :: post ->
    parse_forms pre = OK fds -> fields_values line callargs fds 0 0 vs ->
    (Py.rstrip_char "?" form = [] ->
     unpack_fixed format line callargs = (fields_calls line fds 0 0, Err IndexError))
    /\ (forall (typ : ascii) (rest : pystr) (e : exn),
          Py.rstrip_char "?" form = typ :: rest -> py_int rest = Err e ->
          unpack_fixed format line callargs = (fields_calls line fds 0 0, Err e))
    /\ (forall (typ : ascii) (rest : pystr) (l : Z),
          Py.rstrip_char "?" form = typ :: rest -> py_int rest = OK l ->
          ~ known_type typ ->
          unpack_fixed format line callargs = (fields_calls line fds 0 0, Err KeyError)).
Proof.
  intros L format line callargs pre post form fds vs Hsplit Hp Hv.
  assert (Hrun : forall e,
    field_step util_globals line callargs (after initial fds vs) form = raise e ->
    unpack_fixed format line callargs = (fields_calls line fds 0 0, Err e)).
  { intros e Hstep. unfold unpack_fixed, unpack_fixed_in.
    rewrite Hsplit, loop_app, (loop_complete _ _ _ _ initial fds vs Hp Hv).
    cbn [loop]. rewrite ebind_calls_ok, Hstep. unfold ebind, raise. cbn [fst snd].
    now rewrite !app_nil_r. }
  split; [|split].
  - intros H. apply Hrun, step_parse_error. now apply parse_form_no_type.
  - intros typ rest e H He. apply Hrun, step_parse_error.
    destruct (parse_form_typed form typ rest H) as (last & ->). now rewrite He.
  - intros typ rest l H Hl Hk. apply Hrun.
    destruct (parse_form_typed form typ rest H) as (last & Hpf). rewrite Hl in Hpf.
    eapply step_unknown_type; [exact Hpf | exact Hk].
Qed.

Lemma malformed_descriptor_raises_witness :
  unpack_fixed (L := CPython) "a2,,i3" "hi  42" [] = ([], Err IndexError)
  /\ unpack_fixed (L := CPython) "a2,??" "hi  42" [] = ([], Err IndexError)
  /\ unpack_fixed (L := CPython) "a2,dx" "hi 42" [] = ([], Err ValueError)
  /\ unpack_fixed (L := CPython) "a2,d" "hi 42" [] = ([], Err ValueError)
  /\ unpack_fixed (L := CPython) "a2,d3" "hi 42" [] = ([], Err KeyError).
Proof.
  assert (Hv6 : fields_values (L := CPython) "hi  42" []
                  [ {| f_typ := "a"; f_width := 2; f_optional := false |} ] 0 0 [VStr "hi"]).
  { apply FV_value; [reflexivity | reflexivity | apply FV_nil]. }
  assert (Hv5 : fields_values (L := CPython) "hi 42" []
                  [ {| f_typ := "a"; f_width := 2; f_optional := false |} ] 0 0 [VStr "hi"]).
  { apply FV_value; [reflexivity | reflexivity | apply FV_nil]. }
  split; [|split; [|split; [|split]]].
  - apply (proj1 (malformed_descriptor_raises CPython "a2,,i3" "hi  42" []
                    [lit "a2"] [lit "i3"] [] _ _ eq_refl eq_refl
                    Hv6)).
    reflexivity.
  - apply (proj1 (malformed_descriptor_raises CPython "a2,??" "hi  42" []
                    [lit "a2"] [] "??" _ _ eq_refl eq_refl
                    Hv6)).
    reflexivity.
  - apply (proj1 (proj2 (malformed_descriptor_raises CPython "a2,dx" "hi 42" []
                    [lit "a2"] [] "dx" _ _ eq_refl eq_refl
                    Hv5)) "d"%char "x" ValueError);
      reflexivity.
  - apply (proj1 (proj2 (malformed_descriptor_raises CPython "a2,d" "hi 42" []
                    [lit "a2"] [] "d" _ _ eq_refl eq_refl
                    Hv5)) "d"%char [] ValueError);
      reflexivity.
  - apply (proj2 (proj2 (malformed_descriptor_raises CPython "a2,d3" "hi 42" []
                    [lit "a2"] [] "d3" _ _ eq_refl eq_refl
                    Hv5)) "d"%char "3" 3).
    + reflexivity.
    + reflexivity.
    + unfold known_type. intuition discriminate.
Defined.

(** X16.  Optional fields of the types [A a i f] that start at or after the
    end of the line yield [None] each, as the slice of the line is empty
    there: a line may end before its optional fields.  On the empty line a
    format of such fields returns one [None] per field. *)
Theorem optional_fields_beyond_the_line :
  forall (L : PyLib) (globals : list pystr) (line : pystr) (callargs : list callback)
         (forms : list pystr) (fds : list field) (st : state),
    parse_forms forms = OK fds -> Forall optional_plain fds ->
    Py.len line <= ipos st ->
    loop globals line callargs forms st
    = ([], OK {| ipos := ipos st + total_width fds;
                 values := values st ++ repeat VNone (List.length fds);
                 icall := icall st |}).
Proof.
  intros L globals line callargs forms fds st Hp Hall Hpos.
  destruct (optional_beyond_values line callargs fds (ipos st) (icall st) Hall Hpos)
    as (Hv & Hcalls).
  rewrite (loop_complete _ _ _ _ st fds _ Hp Hv), Hcalls. unfold after.
  replace (count_at fds) with 0; [now rewrite Z.add_0_r|].
  clear - Hall. induction Hall as [|fd fds (_ & Htyp & _) _ IH]; [reflexivity|].
  unfold count_at in *. cbn [fold_right]. rewrite <- IH. unfold is_at.
  destruct Htyp as [-> | [-> | [-> | ->]]]; reflexivity.
Qed.

Lemma optional_fields_beyond_the_line_witness :
  unpack_fixed (L := CPython) "A4,i2?,f5?" "ABCD" [] = ([], OK [VStr "ABCD"; VNone; VNone]).
Proof.
  unfold unpack_fixed, unpack_fixed_in.
  change (Py.split "," (lit "A4,i2?,f5?")) with ([lit "A4"] ++ [lit "i2?"; lit "f5?"]).
  rewrite loop_app.
  replace (loop util_globals (lit "ABCD") [] [lit "A4"] initial)
    with (@nil call, OK {| ipos := 4; values := [VStr "ABCD"]; icall := 0 |})
    by (vm_compute; reflexivity).
  rewrite ebind_calls_ok.
  rewrite (optional_fields_beyond_the_line CPython util_globals "ABCD" []
             [lit "i2?"; lit "f5?"]
             [ {| f_typ := "i"; f_width := 2; f_optional := true |};
               {| f_typ := "f"; f_width := 5; f_optional := true |} ]).
  - reflexivity.
  - reflexivity.
  - repeat constructor; cbn; try tauto; lia.
  - vm_compute. discriminate.
Defined.

Section UnpackComposition.

Context {L : PyLib}.
Import Py PyFacts.

Lemma split_not_empty (c : ascii) (s : pystr) : split c s <> [].
Proof.
  induction s as [|x s IH]; cbn [split]; [discriminate|].
  destruct (Ascii.eqb x c); [discriminate|]. destruct (split c s); discriminate.
Qed.

(** [(a + ',' + b).split(',')] *)
Lemma split_app (c : ascii) (a b : pystr) :
  split c (a ++ c :: b) = split c a ++ split c b.
Proof.
  induction a as [|x a IH]; cbn [split app].
  - now rewrite Ascii.eqb_refl.
  - destruct (Ascii.eqb x c); [now rewrite IH|].
    rewrite IH. pose proof (split_not_empty c a) as Hne.
    destruct (split c a) as [|h t]; [congruence | reflexivity].
Qed.

Lemma parse_forms_app (a b : list pystr) :
  parse_forms (a ++ b) =
  (fa <- parse_forms a ;; fb <- parse_forms b ;; OK (fa ++ fb)).
Proof.
  induction a as [|form a IH]; cbn [parse_forms app bind].
  - destruct (parse_forms b); reflexivity.
  - destruct (parse_form form); cbn [bind]; [|reflexivity].
    rewrite IH. destruct (parse_forms a); cbn [bind]; [|reflexivity].
    destruct (parse_forms b); reflexivity.
Qed.

Lemma fields_values_at (line : pystr) (callargs : list callback) (fds : list field)
      (pos pos' ic ic' : Z) (vs : list value) :
  pos = pos' -> ic = ic' ->
  fields_values line callargs fds pos ic vs -> fields_values line callargs fds pos' ic' vs.
Proof. now intros -> ->. Qed.

Lemma fields_values_app (line : pystr) (callargs : list callback) (fds1 fds2 : list field) :
  forall (pos ic : Z) (vs : list value),
    fields_values line callargs (fds1 ++ fds2) pos ic vs <->
    exists v1 v2,
      vs = v1 ++ v2
      /\ fields_values line callargs fds1 pos ic v1
      /\ fields_values line callargs fds2 (pos + total_width fds1) (ic + count_at fds1) v2.
Proof.
  induction fds1 as [|fd fds1 IH]; intros pos ic vs; cbn [app].
  - unfold total_width, count_at. cbn [fold_right]. rewrite !Z.add_0_r. split.
    + intros H. exists [], vs. repeat split; [constructor | assumption].
    + intros (v1 & v2 & -> & H1 & H2). inversion H1; subst. exact H2.
  - unfold total_width, count_at in *. cbn [fold_right]. split.
    + intros H. inversion H as [|? ? ? ? ? Hs Hrest|? ? ? ? v vs' Hs Hv Hrest]; subst.
      * apply IH in Hrest. destruct Hrest as (v1 & v2 & -> & H1 & H2).
        exists v1, v2. repeat split; [now apply FV_skip|].
        rewrite (skip_is_not_at fd Hs).
        eapply fields_values_at; [| |exact H2]; lia.
      * apply IH in Hrest. destruct Hrest as (v1 & v2 & -> & H1 & H2).
        exists (v :: v1), v2. repeat split; [now apply FV_value|].
        rewrite next_icall_count in H2.
        eapply fields_values_at; [| |exact H2]; lia.
    + intros (v1 & v2 & -> & H1 & H2).
      inversion H1 as [|? ? ? ? ? Hs Hrest|? ? ? ? v vs' Hs Hv Hrest]; subst.
      * apply FV_skip; [assumption|]. apply IH. exists v1, v2. repeat split; [assumption|].
        rewrite (skip_is_not_at fd Hs) in H2.
        eapply fields_values_at; [| |exact H2]; lia.
      * cbn [app]. apply FV_value; [assumption | assumption |]. apply IH.
        exists vs', v2. repeat split; [assumption|].
        rewrite next_icall_count.
        eapply fields_values_at; [| |exact H2]; lia.
Qed.

(** A slice of the rest of the line is the slice of the line, moved. *)
Lemma slice_shift (line : pystr) (w p l : Z) :
  0 <= w -> 0 <= p -> 0 <= l ->
  slice line (w + p) (w + p + l) = slice (slice_from line w) p (p + l).
Proof.
  intros Hw Hp Hl. unfold slice, slice_from.
  pose proof (len_nonneg line) as Hn.
  set (n := len line) in *.
  assert (Hnw : norm_index n w = Z.min n w).
  { unfold norm_index. replace (w <? 0) with false by (symmetry; apply Z.ltb_ge; lia). lia. }
  rewrite Hnw.
  assert (Hlen : len (skipn (Z.to_nat (Z.min n w)) line) = n - Z.min n w).
  { unfold len. rewrite length_skipn. unfold n, len. lia. }
  rewrite Hlen.
  assert (Hidx : forall q, 0 <= q ->
            norm_index n (w + q) = norm_index (n - Z.min n w) q + Z.min n w).
  { intros q Hq. unfold norm_index.
    replace (w + q <? 0) with false by (symmetry; apply Z.ltb_ge; lia).
    replace (q <? 0) with false by (symmetry; apply Z.ltb_ge; lia). lia. }
  replace (w + p + l) with (w + (p + l)) by lia.
  rewrite (Hidx p Hp), (Hidx (p + l) ltac:(lia)).
  rewrite skipn_skipn. f_equal; [lia|]. f_equal.
  assert (0 <= norm_index (n - Z.min n w) p) by (unfold norm_index; cbv zeta; apply Z.le_max_l).
  lia.
Qed.

Lemma py_index_shift {A} (l : list A) (k : nat) (ic : Z) :
  0 <= ic -> py_index l (ic + Z.of_nat k) = py_index (skipn k l) ic.
Proof.
  intros Hic. unfold py_index. rewrite length_skipn. cbv zeta.
  assert (E0 : (ic + Z.of_nat k <? 0) = false) by (apply Z.ltb_ge; lia).
  assert (E0' : (ic <? 0) = false) by (apply Z.ltb_ge; lia).
  rewrite !E0, !E0'. cbn [orb].
  destruct (Z.of_nat (List.length l) <=? ic + Z.of_nat k) eqn:E1;
    destruct (Z.of_nat (List.length l - k) <=? ic) eqn:E2;
    try apply Z.leb_le in E1; try apply Z.leb_gt in E1;
    try apply Z.leb_le in E2; try apply Z.leb_gt in E2; try lia; [reflexivity|].
  rewrite nth_error_skipn.
  replace (Z.to_nat (ic + Z.of_nat k)) with (k + Z.to_nat ic)%nat by lia.
  reflexivity.
Qed.

Lemma fields_values_shift (line : pystr) (callargs : list callback) (w : Z) (k : nat)
      (fds : list field) :
  0 <= w -> Forall (fun fd => 0 <= f_width fd) fds ->
  forall (pos ic : Z) (vs : list value),
    0 <= pos -> 0 <= ic ->
    (fields_values line callargs fds (w + pos) (ic + Z.of_nat k) vs <->
     fields_values (slice_from line w) (skipn k callargs) fds pos ic vs).
Proof.
  intros Hw Hall. induction Hall as [|fd fds Hfd _ IH]; intros pos ic vs Hpos Hic.
  - split; intros H; inversion H; constructor.
  - assert (Htext : field_text line fd (w + pos) = field_text (slice_from line w) fd pos).
    { unfold field_text. now apply slice_shift. }
    assert (Hval : forall v, field_value line callargs fd (w + pos) (ic + Z.of_nat k) v
                             = field_value (slice_from line w) (skipn k callargs) fd pos ic v).
    { intros v. unfold field_value, converted.
      now rewrite Htext, py_index_shift. }
    assert (Hnext : next_icall fd (ic + Z.of_nat k) = next_icall fd ic + Z.of_nat k).
    { unfold next_icall. destruct (is_at fd); lia. }
    assert (Hn : 0 <= next_icall fd ic) by (unfold next_icall; destruct (is_at fd); lia).
    split; intros H;
      inversion H as [|? ? ? ? ? Hs Hrest|? ? ? ? v vs' Hs Hv Hrest]; subst.
    + apply FV_skip; [assumption|]. apply IH; [lia | lia|].
      eapply fields_values_at; [| |exact Hrest]; lia.
    + apply FV_value; [assumption | now rewrite <- Hval |].
      apply IH; [lia | lia|].
      eapply fields_values_at; [| |exact Hrest]; lia.
    + apply FV_skip; [assumption|].
      apply IH in Hrest; [|lia|lia].
      eapply fields_values_at; [| |exact Hrest]; lia.
    + apply FV_value; [assumption | now rewrite Hval |].
      apply IH in Hrest; [|lia|lia].
      eapply fields_values_at; [| |exact Hrest]; lia.
Qed.

Lemma count_at_nonneg (fds : list field) : 0 <= count_at fds.
Proof.
  unfold count_at. induction fds as [|fd fds IH]; cbn [fold_right]; [lia|].
  destruct (is_at fd); lia.
Qed.

End UnpackComposition.

(** X17.  Fields are positional: when the widths are not negative, unpacking
    a line with the format [f1,f2] returns a result exactly when unpacking it
    with [f1] does and unpacking the rest of the line, after the widths of
    [f1], with [f2] and the callbacks [f1] has not taken does; and the result
    is the one followed by the other. *)
Theorem unpack_fixed_of_joined_formats :
  forall (L : PyLib) (f1 f2 line : pystr) (callargs : list callback)
         (fds1 fds2 : list field) (vs : list value),
    parse_forms (Py.split "," f1) = OK fds1 ->
    parse_forms (Py.split "," f2) = OK fds2 ->
    0 <= total_width fds1 -> Forall (fun fd => 0 <= f_width fd) fds2 ->
    (outcome (unpack_fixed (f1 ++ ","%char :: f2) line callargs) = OK vs <->
     exists v1 v2,
       vs = v1 ++ v2
       /\ outcome (unpack_fixed f1 line callargs) = OK v1
       /\ outcome (unpack_fixed f2 (Py.slice_from line (total_width fds1))
                     (skipn (Z.to_nat (count_at fds1)) callargs)) = OK v2).
Proof.
  intros L f1 f2 line callargs fds1 fds2 vs Hp1 Hp2 Hw Hall. unfold unpack_fixed.
  rewrite !unpack_fixed_in_ok, split_app, parse_forms_app, Hp1, Hp2. cbn [bind].
  pose proof (count_at_nonneg fds1) as Hc.
  split.
  - intros (fds & Heq & Hv). injection Heq as <-.
    apply fields_values_app in Hv. destruct Hv as (v1 & v2 & -> & H1 & H2).
    exists v1, v2. split; [reflexivity|]. split.
    + apply unpack_fixed_in_ok. exists fds1. now split.
    + apply unpack_fixed_in_ok. exists fds2. split; [assumption|].
      apply (fields_values_shift line callargs (total_width fds1) (Z.to_nat (count_at fds1))
               fds2 Hw Hall 0 0 v2 ltac:(lia) ltac:(lia)).
      now rewrite Z.add_0_r, Z2Nat.id by assumption.
  - intros (v1 & v2 & -> & H1 & H2).
    apply unpack_fixed_in_ok in H1. destruct H1 as (fds1' & Hp1' & Hv1).
    apply unpack_fixed_in_ok in H2. destruct H2 as (fds2' & Hp2' & Hv2).
    rewrite Hp1 in Hp1'. injection Hp1' as <-. rewrite Hp2 in Hp2'. injection Hp2' as <-.
    exists (fds1 ++ fds2). split; [reflexivity|].
    apply fields_values_app. exists v1, v2. repeat split; [assumption|].
    apply (fields_values_shift line callargs (total_width fds1) (Z.to_nat (count_at fds1))
             fds2 Hw Hall 0 0 v2 ltac:(lia) ltac:(lia)) in Hv2.
    now rewrite Z.add_0_r, Z2Nat.id in Hv2 by assumption.
Qed.

Lemma unpack_fixed_of_joined_formats_witness :
  outcome (unpack_fixed (L := CPython) (lit "a4,@2" ++ ","%char :: lit "x1,@3")
             "ab  42-xyz" [upper_cb; upper_cb])
  = OK ([VStr "ab"; VStr "42"] ++ [VStr "XYZ"]).
Proof.
  apply (proj2 (unpack_fixed_of_joined_formats CPython "a4,@2" "x1,@3" "ab  42-xyz"
                  [upper_cb; upper_cb]
                  [ {| f_typ := "a"; f_width := 4; f_optional := false |};
                    {| f_typ := "@"; f_width := 2; f_optional := false |} ]
                  [ {| f_typ := "x"; f_width := 1; f_optional := false |};
                    {| f_typ := "@"; f_width := 3; f_optional := false |} ]
                  _ eq_refl eq_refl ltac:(vm_compute; discriminate)
                  ltac:(repeat constructor; vm_compute; discriminate))).
  exists [VStr "ab"; VStr "42"], [VStr "XYZ"].
  split; [reflexivity|]. split; vm_compute; reflexivity.
Defined.
